(** * Owner detection: a shallow embedding of [owner_detection.py]

    The development follows
    [src/services/scraper-service/python/owner_detection.py]:

    - [normalize_phone] and [extract_phone_from_listing] (pure string code);
    - the grouping half of [detect_owners] (two insertion-ordered
      dictionaries, then the phone groups, then the host-id groups);
    - [save_owners_to_db], whose body divides in floating point, talks to
      the store, reads the clock and may raise at the division and at every
      store call; it is written in a small state and exception monad over an
      explicit [World];
    - the part of [generate_owner_report] that builds [top_operators].

    Python strings are modelled by [string]; one [ascii] stands for one code
    point below 256.  Python sets are [gset]s, so the order in which
    [list(names)] enumerates a set is abstracted away. *)

From Stdlib Require Import ZArith QArith Qround Ascii.
From stdpp Require Import base gmap sets list strings pretty sorting.

Local Open Scope Z_scope.
Local Open Scope nat_scope.
Local Open Scope stdpp_scope.

(** The outcome of a computation: a value, or the text of the exception it
    raised. *)
Inductive Result (A : Type) := Ok (a : A) | Raise (msg : string).
Arguments Ok {A} a.
Arguments Raise {A} msg.

(** ** Python string and number helpers *)

Module Py.

(** [c.isdigit()] on the code points below 256: the ASCII digits and the
    three superscript digits of Latin-1 (U+00B2, U+00B3, U+00B9). *)
Definition isdigit (c : ascii) : bool :=
  let n := nat_of_ascii c in
  ((48 <=? n) && (n <=? 57)) || (n =? 178) || (n =? 179) || (n =? 185).

(** [''.join(c for c in s if f(c))] *)
Fixpoint join_if (f : ascii → bool) (s : string) : string :=
  match s with
  | EmptyString => EmptyString
  | String c s' => if f c then String c (join_if f s') else join_if f s'
  end.

(** [s.startswith(p)] *)
Fixpoint startswith (s p : string) : bool :=
  match p, s with
  | EmptyString, _ => true
  | String _ _, EmptyString => false
  | String a p', String b s' => if decide (a = b) then startswith s' p' else false
  end.

(** [s[n:]] *)
Fixpoint slice_from (n : nat) (s : string) : string :=
  match n, s with
  | O, _ => s
  | S _, EmptyString => EmptyString
  | S n', String _ s' => slice_from n' s'
  end.

(** [len(s)] *)
Definition len (s : string) : nat := String.length s.

(** [c in s] for a one-character [c] *)
Fixpoint contains_char (c : ascii) (s : string) : bool :=
  match s with
  | EmptyString => false
  | String a s' => if decide (a = c) then true else contains_char c s'
  end.

(** [s.split(c, 1)] when [c] occurs in [s]: the text before the first
    occurrence and the text after it. *)
Fixpoint split_once (c : ascii) (s : string) : string * string :=
  match s with
  | EmptyString => (EmptyString, EmptyString)
  | String a s' =>
      if decide (a = c) then (EmptyString, s')
      else let '(l, r) := split_once c s' in (String a l, r)
  end.

(** [sub in s] *)
Fixpoint contains (s sub : string) : bool :=
  startswith s sub ||
  match s with
  | EmptyString => false
  | String _ s' => contains s' sub
  end.

(** Truthiness of a string. *)
Definition truthy (s : string) : bool :=
  match s with EmptyString => false | _ => true end.

(** [s.strip()]: characters for which [str.isspace] holds below 256 are
    removed at both ends. *)
Definition isspace (c : ascii) : bool :=
  let n := nat_of_ascii c in
  ((9 <=? n) && (n <=? 13)) || ((28 <=? n) && (n <=? 32)) || (n =? 133) || (n =? 160).

Fixpoint lstrip (s : string) : string :=
  match s with
  | EmptyString => EmptyString
  | String c s' => if isspace c then lstrip s' else s
  end.

Fixpoint rstrip (s : string) : string :=
  match s with
  | EmptyString => EmptyString
  | String c s' =>
      match rstrip s' with
      | EmptyString => if isspace c then EmptyString else String c EmptyString
      | r => String c r
      end
  end.

Definition strip (s : string) : string := rstrip (lstrip s).

(** *** [int(a / b)] on integers

    [a / b] on two integers is the exact quotient rounded to the nearest
    binary64 float, ties to even; it raises [OverflowError] when the
    rounded quotient is 2^1024 or more and [ZeroDivisionError] when [b] is
    0.  [int] then drops the fraction. *)

(** For positive [a] and [b], the [e] with [2^e <= a/b < 2^(e+1)]. *)
Definition quotient_exponent (a b : Z) : Z :=
  let e0 := (Z.log2 a - Z.log2 b)%Z in
  if (if (0 <=? e0)%Z then (b * 2 ^ e0 <=? a)%Z else (b <=? a * 2 ^ (- e0))%Z)
  then e0 else (e0 - 1)%Z.

(** [num / den] rounded to the nearest integer, ties to even. *)
Definition round_half_even (num den : Z) : Z :=
  let m := (num / den)%Z in
  let r := (num mod den)%Z in
  if (den <? 2 * r)%Z || ((2 * r =? den)%Z && Z.odd m) then (m + 1)%Z else m.

(** For positive [a] and [b]: the quotient is rounded to 53 significant
    bits, [m * 2^s] with [2^52 <= m <= 2^53]; [None] stands for the
    overflow.  (Below 2^-1022 a float has fewer bits; the integer part is 0
    either way.) *)
Definition int_truediv_pos (a b : Z) : option Z :=
  let s := (quotient_exponent a b - 52)%Z in
  if (0 <=? s)%Z then
    let x := (round_half_even a (b * 2 ^ s) * 2 ^ s)%Z in
    if (2 ^ 1024 <=? x)%Z then None else Some x
  else Some (round_half_even (a * 2 ^ (- s)) b / 2 ^ (- s))%Z.

Definition int_truediv (a b : Z) : Result Z :=
  if (b =? 0)%Z then Raise "division by zero"
  else if (a =? 0)%Z then Ok 0%Z
  else
    match int_truediv_pos (Z.abs a) (Z.abs b) with
    | Some x => Ok (Z.sgn a * Z.sgn b * x)%Z
    | None => Raise "integer division result too large for a float"
    end.

End Py.

(** ** The phone normalizer *)

(** [normalize_phone], lines 18-37. *)
Definition normalize_phone (phone : string) : option string :=
  if negb (Py.truthy phone) then None
  else
    let digits := Py.join_if Py.isdigit phone in
    let digits :=
      if Py.startswith digits "00221" then Py.slice_from 5 digits
      else if Py.startswith digits "221" then Py.slice_from 3 digits
      else if Py.startswith digits "0" then Py.slice_from 1 digits
      else digits in
    if (Py.len digits =? 9) && (Py.startswith digits "7" || Py.startswith digits "3")
    then Some ("+221" +:+ digits)
    else None.

(** ** Listings *)

(** The listing id is the primary key of [scraped_listings]. *)
Definition ListingId := string.

Record RawData := {
  phone : option string;
  phoneNumber : option string;
  whatsapp : option string;
  contact_phone : option string;
}.

(** A row of [scraped_listings].  Nullable columns are [option]s; [platform]
    is written by every scraper and is taken to be a string. *)
Record Listing := {
  listing_id : ListingId;
  platform : string;
  host_id : option string;
  host_name : option string;
  price : option Z;
  raw_data : option RawData;
  is_active : bool;
}.

(** [raw_data.get(field)] followed by the truthiness test [if phone:]. *)
Definition truthy_field (v : option string) : option string :=
  match v with
  | Some s => if Py.truthy s then Some s else None
  | None => None
  end.

(** The loop of [extract_phone_from_listing] over the remaining fields. *)
Fixpoint try_phone_fields (fields : list (option string)) : option string :=
  match fields with
  | [] => None
  | v :: rest =>
      match truthy_field v with
      | Some p =>
          match normalize_phone p with
          | Some normalized => Some normalized
          | None => try_phone_fields rest
          end
      | None => try_phone_fields rest
      end
  end.

(** [phone_fields], in the order of the source. *)
Definition phone_fields (r : RawData) : list (option string) :=
  [phone r; phoneNumber r; whatsapp r; contact_phone r].

(** [listing.get('raw_data') or {}] *)
Definition raw_data_or_empty (l : Listing) : RawData :=
  match raw_data l with
  | Some r => r
  | None => {| phone := None; phoneNumber := None; whatsapp := None; contact_phone := None |}
  end.

(** [extract_phone_from_listing], lines 40-53. *)
Definition extract_phone_from_listing (l : Listing) : option string :=
  try_phone_fields (phone_fields (raw_data_or_empty l)).

(** The host-id key computed at lines 87-90 of [detect_owners]. *)
Definition host_key (l : Listing) : option string :=
  match host_id l with
  | Some h =>
      if Py.truthy h && bool_decide (platform l ∈ ["airbnb"; "booking"])
      then Some (platform l +:+ ":" +:+ h)
      else None
  | None => None
  end.

(** ** The cluster builder *)

(** The two values of [match_type]: ['phone'] and ['host_id']. *)
Inductive MatchType := phone_match | host_id_match.

Global Instance MatchType_eq_dec : EqDecision MatchType.
Proof. solve_decision. Defined.

(** One element of [owner_groups]. *)
Record Group := {
  match_type : MatchType;
  identifier : string;
  listings : list Listing;
  listing_ids : list ListingId;
}.

(** A [defaultdict(list)], kept as an association list in insertion order,
    which is the order in which [.items()] enumerates it. *)
Definition Dict := list (string * list Listing).

(** [d[key].append(l)] *)
Fixpoint dict_append (key : string) (l : Listing) (d : Dict) : Dict :=
  match d with
  | [] => [(key, [l])]
  | (k, ls) :: rest =>
      if decide (k = key) then (k, ls ++ [l]) :: rest
      else (k, ls) :: dict_append key l rest
  end.

(** The body of the first loop of [detect_owners], lines 80-91. *)
Definition index_listing (acc : Dict * Dict) (l : Listing) : Dict * Dict :=
  let '(by_phone, by_host_id) := acc in
  let by_phone :=
    match extract_phone_from_listing l with
    | Some p => if Py.truthy p then dict_append p l by_phone else by_phone
    | None => by_phone
    end in
  let by_host_id :=
    match host_key l with
    | Some key => dict_append key l by_host_id
    | None => by_host_id
    end in
  (by_phone, by_host_id).

Definition index_listings (ls : list Listing) : Dict * Dict :=
  fold_left index_listing ls ([], []).

(** The body of the loop over [by_phone.items()], lines 98-107.  The state
    is [owner_groups] and [processed_listing_ids]. *)
Definition add_phone_group (acc : list Group * gset ListingId)
    (kv : string * list Listing) : list Group * gset ListingId :=
  let '(owner_groups, processed_listing_ids) := acc in
  let '(p, phone_listings) := kv in
  if 1 <=? length phone_listings then
    let ids := map listing_id phone_listings in
    (owner_groups ++ [{| match_type := phone_match; identifier := p;
                         listings := phone_listings; listing_ids := ids |}],
     processed_listing_ids ∪ list_to_set ids)
  else acc.

(** The body of the loop over [by_host_id.items()], lines 110-125. *)
Definition add_host_group (acc : list Group * gset ListingId)
    (kv : string * list Listing) : list Group * gset ListingId :=
  let '(owner_groups, processed_listing_ids) := acc in
  let '(host_key, host_listings) := kv in
  let ids := map listing_id host_listings in
  let new_ids := filter (λ lid, lid ∉ processed_listing_ids) ids in
  match new_ids with
  | [] => acc
  | _ :: _ =>
      let new_listings := filter (λ l, listing_id l ∈ new_ids) host_listings in
      match new_listings with
      | [] => acc
      | _ :: _ =>
          (owner_groups ++ [{| match_type := host_id_match; identifier := host_key;
                               listings := new_listings; listing_ids := new_ids |}],
           processed_listing_ids ∪ list_to_set new_ids)
      end
  end.

(** The state after the phone loop. *)
Definition phone_owner_groups (ls : list Listing) : list Group * gset ListingId :=
  fold_left add_phone_group (fst (index_listings ls)) ([], ∅).

(** [owner_groups] as it is handed to [save_owners_to_db], line 130. *)
Definition build_owner_groups (ls : list Listing) : list Group :=
  fst (fold_left add_host_group (snd (index_listings ls)) (phone_owner_groups ls)).

(** All listing ids of a list of groups, group after group. *)
Definition claimed_ids (gs : list Group) : list ListingId :=
  concat (map listing_ids gs).

(** ** The owner aggregator *)

(** The five accumulators of lines 151-155. *)
Record Tally := {
  t_names : gset string;
  t_platforms : gset string;
  t_host_ids : gset string;
  total_price : Z;
  price_count : Z;
}.

Definition empty_tally : Tally :=
  {| t_names := ∅; t_platforms := ∅; t_host_ids := ∅; total_price := 0; price_count := 0 |}.

(** The body of the loop over the listings of a group, lines 157-174. *)
Definition tally_listing (t : Tally) (l : Listing) : Tally :=
  {| t_names :=
       match host_name l with
       | Some n =>
           if Py.truthy n && Py.truthy (Py.strip n)
           then t_names t ∪ {[ Py.strip n ]} else t_names t
       | None => t_names t
       end;
     t_platforms := t_platforms t ∪ {[ platform l ]};
     t_host_ids :=
       match host_id l with
       | Some h =>
           if Py.truthy h then t_host_ids t ∪ {[ platform l +:+ ":" +:+ h ]}
           else t_host_ids t
       | None => t_host_ids t
       end;
     total_price :=
       match price l with
       | Some p => if negb (p =? 0)%Z && (0 <? p)%Z then (total_price t + p)%Z else total_price t
       | None => total_price t
       end;
     price_count :=
       match price l with
       | Some p => if negb (p =? 0)%Z && (0 <? p)%Z then (price_count t + 1)%Z else price_count t
       | None => price_count t
       end |}.

Definition tally (ls : list Listing) : Tally := fold_left tally_listing ls empty_tally.

(** Line 176: [int(total_price / price_count) if price_count > 0 else 0].
    The division is Python's true division, so the quotient goes through a
    float: it is exact when the total is below 2^53, rounded above, and the
    line raises when the quotient is beyond the range of a float. *)
Definition avg_price (t : Tally) : Result Z :=
  if (0 <? price_count t)%Z then Py.int_truediv (total_price t) (price_count t)
  else Ok 0%Z.

(** Line 178. *)
Definition estimated_monthly (avg : Z) (n : nat) : Z :=
  if negb (avg =? 0)%Z then (avg * Z.of_nat n * 15)%Z else 0%Z.

(** ** The store *)

Definition Time := Z.
Definition OwnerId := nat.

(** A row of [detected_owners]. *)
Record Owner := {
  o_id : OwnerId;
  primary_phone : option string;
  names : gset string;
  host_ids : gset string;
  platforms : gset string;
  listing_count : nat;
  active_listing_count : nat;
  unregistered_count : nat;
  registered_count : nat;
  avg_price_per_night : Z;
  estimated_monthly_revenue : Z;
  risk_score : Z;
  first_seen_at : Time;
  last_seen_at : Time;
}.

(** The dictionary [owner_data].  The two keys that are added to it only on
    some paths are [option]s: [None] means that the key is absent. *)
Record OwnerData := {
  od_names : gset string;
  od_host_ids : gset string;
  od_platforms : gset string;
  od_listing_count : nat;
  od_active_listing_count : nat;
  od_unregistered_count : nat;
  od_registered_count : nat;
  od_avg_price_per_night : Z;
  od_estimated_monthly_revenue : Z;
  od_last_seen_at : Time;
  od_primary_phone : option string;
  od_first_seen_at : option Time;
}.

(** A row of [owner_listings]. *)
Record Link := {
  owner_id : OwnerId;
  scraped_listing_id : ListingId;
  link_match_type : MatchType;
  confidence : Q;
}.

(** The calls that reach the store. *)
Inductive DbOp :=
| SelectActiveListings
| SelectOwnerByPhone (p : string)
| UpdateOwner (oid : OwnerId)
| InsertOwner
| UpsertLink (oid : OwnerId) (lid : ListingId)
| RpcRiskScore (oid : OwnerId).

(** One call and, when it raised, the text of its exception. *)
Record Call := { op : DbOp; error : option string }.

(** Everything the program reads or writes: the three tables, the history
    of store calls, the number of clock reads so far and the lines printed
    on standard error. *)
Record World := {
  scraped_listings : list Listing;
  detected_owners : list Owner;
  owner_listings : list Link;
  calls : list Call;
  clock_reads : nat;
  stderr : list string;
}.

(** What the program does not control: which store call raises (by its
    position in the history) and with what text, what the clock shows at
    each read, and the score the stored procedure
    [calculate_owner_risk_score] computes for an owner. *)
Record Env := {
  fails : nat → option string;
  now : nat → Time;
  risk : list Owner → list Link → OwnerId → Z;
}.

(** The dictionary [stats]. *)
Record Stats := {
  total_owners : nat;
  multi_property : nat;
  new_owners : nat;
  updated_owners : nat;
}.

Definition zero_stats : Stats :=
  {| total_owners := 0; multi_property := 0; new_owners := 0; updated_owners := 0 |}.

(** *** Field updates *)

Definition set_owners (os : list Owner) (w : World) : World :=
  {| scraped_listings := scraped_listings w; detected_owners := os;
     owner_listings := owner_listings w; calls := calls w;
     clock_reads := clock_reads w; stderr := stderr w |}.

Definition set_links (ls : list Link) (w : World) : World :=
  {| scraped_listings := scraped_listings w; detected_owners := detected_owners w;
     owner_listings := ls; calls := calls w;
     clock_reads := clock_reads w; stderr := stderr w |}.

Definition log_call (c : Call) (w : World) : World :=
  {| scraped_listings := scraped_listings w; detected_owners := detected_owners w;
     owner_listings := owner_listings w; calls := calls w ++ [c];
     clock_reads := clock_reads w; stderr := stderr w |}.

Definition tick (w : World) : World :=
  {| scraped_listings := scraped_listings w; detected_owners := detected_owners w;
     owner_listings := owner_listings w; calls := calls w;
     clock_reads := S (clock_reads w); stderr := stderr w |}.

(** [print(line, file=sys.stderr)] *)
Definition eprint (line : string) (w : World) : World :=
  {| scraped_listings := scraped_listings w; detected_owners := detected_owners w;
     owner_listings := owner_listings w; calls := calls w;
     clock_reads := clock_reads w; stderr := stderr w ++ [line] |}.

(** *** Table operations *)

(** [.select('id').eq('primary_phone', p)]: the ids of the matching rows, in
    table order. *)
Definition owners_with_phone (p : string) (os : list Owner) : list OwnerId :=
  map o_id (filter (λ o, primary_phone o = Some p) os).

(** [.update(owner_data)] on one row: the keys of the dictionary overwrite
    the columns of the same name. *)
Definition apply_update (d : OwnerData) (o : Owner) : Owner :=
  {| o_id := o_id o;
     primary_phone := match od_primary_phone d with Some p => Some p | None => primary_phone o end;
     names := od_names d;
     host_ids := od_host_ids d;
     platforms := od_platforms d;
     listing_count := od_listing_count d;
     active_listing_count := od_active_listing_count d;
     unregistered_count := od_unregistered_count d;
     registered_count := od_registered_count d;
     avg_price_per_night := od_avg_price_per_night d;
     estimated_monthly_revenue := od_estimated_monthly_revenue d;
     risk_score := risk_score o;
     first_seen_at := match od_first_seen_at d with Some t => t | None => first_seen_at o end;
     last_seen_at := od_last_seen_at d |}.

(** [.update(owner_data).eq('id', oid)] *)
Definition update_rows (oid : OwnerId) (d : OwnerData) (os : list Owner) : list Owner :=
  map (λ o, if decide (o_id o = oid) then apply_update d o else o) os.

(** The id the table gives to a new row: one that no row has. *)
Definition fresh_id (os : list Owner) : OwnerId := S (max_list (map o_id os)).

(** [.insert(owner_data)]: absent keys take the column defaults (no phone,
    score 0, and the default of [first_seen_at], here 0). *)
Definition new_row (oid : OwnerId) (d : OwnerData) : Owner :=
  {| o_id := oid;
     primary_phone := od_primary_phone d;
     names := od_names d;
     host_ids := od_host_ids d;
     platforms := od_platforms d;
     listing_count := od_listing_count d;
     active_listing_count := od_active_listing_count d;
     unregistered_count := od_unregistered_count d;
     registered_count := od_registered_count d;
     avg_price_per_night := od_avg_price_per_night d;
     estimated_monthly_revenue := od_estimated_monthly_revenue d;
     risk_score := 0%Z;
     first_seen_at := default 0%Z (od_first_seen_at d);
     last_seen_at := od_last_seen_at d |}.

(** [.upsert(link_data, on_conflict='owner_id,scraped_listing_id')] *)
Fixpoint upsert_row (r : Link) (ls : list Link) : list Link :=
  match ls with
  | [] => [r]
  | x :: rest =>
      if decide (owner_id x = owner_id r ∧ scraped_listing_id x = scraped_listing_id r)
      then r :: rest
      else x :: upsert_row r rest
  end.

(** The effect of the stored procedure on the owner's row. *)
Definition set_risk (oid : OwnerId) (score : Z) (os : list Owner) : list Owner :=
  map (λ o,
         if decide (o_id o = oid) then
           {| o_id := o_id o; primary_phone := primary_phone o; names := names o;
              host_ids := host_ids o; platforms := platforms o;
              listing_count := listing_count o;
              active_listing_count := active_listing_count o;
              unregistered_count := unregistered_count o;
              registered_count := registered_count o;
              avg_price_per_night := avg_price_per_night o;
              estimated_monthly_revenue := estimated_monthly_revenue o;
              risk_score := score;
              first_seen_at := first_seen_at o; last_seen_at := last_seen_at o |}
         else o) os.

(** ** A state and exception monad for the reconciler *)

(** The state threaded through [save_owners_to_db]: the world and the
    dictionary [stats], which keeps its increments when the body raises. *)
Definition St : Type := World * Stats.

Definition M (A : Type) : Type := St → St * Result A.

Global Instance M_ret : MRet M := λ A a s, (s, Ok a).

Global Instance M_bind : MBind M := λ A B f m s,
  match m s with
  | (s', Ok a) => f a s'
  | (s', Raise msg) => (s', Raise msg)
  end.

(** [for x in xs: body(x)] *)
Fixpoint for_each {A} (xs : list A) (body : A → M ()) : M () :=
  match xs with
  | [] => mret ()
  | x :: rest => body x ;; for_each rest body
  end.

(** A step that does not touch the state: it gives its value or raises. *)
Definition lift {A} (r : Result A) : M A := λ s, (s, r).

(** An update of [stats]. *)
Definition modify_stats (f : Stats → Stats) : M () :=
  λ '(w, st), ((w, f st), Ok ()).

Definition bump_total (st : Stats) : Stats :=
  {| total_owners := S (total_owners st); multi_property := multi_property st;
     new_owners := new_owners st; updated_owners := updated_owners st |}.

Definition bump_multi (st : Stats) : Stats :=
  {| total_owners := total_owners st; multi_property := S (multi_property st);
     new_owners := new_owners st; updated_owners := updated_owners st |}.

Definition bump_new (st : Stats) : Stats :=
  {| total_owners := total_owners st; multi_property := multi_property st;
     new_owners := S (new_owners st); updated_owners := updated_owners st |}.

Definition bump_updated (st : Stats) : Stats :=
  {| total_owners := total_owners st; multi_property := multi_property st;
     new_owners := new_owners st; updated_owners := S (updated_owners st) |}.

(** The line printed by the handler at line 241. *)
Definition error_line (msg : string) : string :=
  "[Owner Detection] Error saving owner: " +:+ msg.

(** The dictionary [owner_data] as it is built at lines 178-192, before the
    identity key is set, from the average price of line 176. *)
Definition build_owner_data (ls : list Listing) (avg : Z) (t_now : Time) : OwnerData :=
  let t := tally ls in
  {| od_names := t_names t;
     od_host_ids := t_host_ids t;
     od_platforms := t_platforms t;
     od_listing_count := length ls;
     od_active_listing_count := length ls;
     od_unregistered_count := length ls;
     od_registered_count := 0;
     od_avg_price_per_night := avg;
     od_estimated_monthly_revenue := estimated_monthly avg (length ls);
     od_last_seen_at := t_now;
     od_primary_phone := None;
     od_first_seen_at := None |}.

(** [owner_data['primary_phone'] = identifier] *)
Definition with_primary_phone (p : string) (d : OwnerData) : OwnerData :=
  {| od_names := od_names d; od_host_ids := od_host_ids d; od_platforms := od_platforms d;
     od_listing_count := od_listing_count d;
     od_active_listing_count := od_active_listing_count d;
     od_unregistered_count := od_unregistered_count d;
     od_registered_count := od_registered_count d;
     od_avg_price_per_night := od_avg_price_per_night d;
     od_estimated_monthly_revenue := od_estimated_monthly_revenue d;
     od_last_seen_at := od_last_seen_at d;
     od_primary_phone := Some p;
     od_first_seen_at := od_first_seen_at d |}.

(** [owner_data['first_seen_at'] = ...] *)
Definition with_first_seen_at (t : Time) (d : OwnerData) : OwnerData :=
  {| od_names := od_names d; od_host_ids := od_host_ids d; od_platforms := od_platforms d;
     od_listing_count := od_listing_count d;
     od_active_listing_count := od_active_listing_count d;
     od_unregistered_count := od_unregistered_count d;
     od_registered_count := od_registered_count d;
     od_avg_price_per_night := od_avg_price_per_night d;
     od_estimated_monthly_revenue := od_estimated_monthly_revenue d;
     od_last_seen_at := od_last_seen_at d;
     od_primary_phone := od_primary_phone d;
     od_first_seen_at := Some t |}.

(** Lines 195-199: the identity key.  For a host-id group the identifier is
    split at its first colon and both halves are dropped. *)
Definition set_primary_identifier (mt : MatchType) (ident : string) (d : OwnerData)
  : OwnerData :=
  match mt with
  | phone_match => with_primary_phone ident d
  | host_id_match =>
      if Py.contains_char ":" ident
      then let '(_, _) := Py.split_once ":" ident in d
      else d
  end.

(** [1.0 if match_type == 'phone' else 0.9] *)
Definition confidence_of (mt : MatchType) : Q :=
  match mt with phone_match => 1%Q | host_id_match => (9 # 10)%Q end.

Definition link_data (oid : OwnerId) (l : Listing) (mt : MatchType) : Link :=
  {| owner_id := oid; scraped_listing_id := listing_id l;
     link_match_type := mt; confidence := confidence_of mt |}.

Section Reconciler.

Context (env : Env).

(** One call to the store.  Its position in the history decides whether it
    raises; a call that raises leaves the tables as they were. *)
Definition store_call {A} (o : DbOp) (effect : World → World * A) : M A :=
  λ '(w, st),
    match fails env (length (calls w)) with
    | Some msg => ((log_call {| op := o; error := Some msg |} w, st), Raise msg)
    | None =>
        let '(w', a) := effect w in
        ((log_call {| op := o; error := None |} w', st), Ok a)
    end.

(** [datetime.now().isoformat()] *)
Definition datetime_now : M Time :=
  λ '(w, st), ((tick w, st), Ok (now env (clock_reads w))).

Definition select_owner_by_phone (p : string) : M (list OwnerId) :=
  store_call (SelectOwnerByPhone p)
    (λ w, (w, owners_with_phone p (detected_owners w))).

Definition update_owner (oid : OwnerId) (d : OwnerData) : M () :=
  store_call (UpdateOwner oid)
    (λ w, (set_owners (update_rows oid d (detected_owners w)) w, ())).

(** The insert returns the new row, of which the caller reads the id. *)
Definition insert_owner (d : OwnerData) : M OwnerId :=
  store_call InsertOwner
    (λ w, let oid := fresh_id (detected_owners w) in
          (set_owners (detected_owners w ++ [new_row oid d]) w, oid)).

Definition upsert_link (r : Link) : M () :=
  store_call (UpsertLink (owner_id r) (scraped_listing_id r))
    (λ w, (set_links (upsert_row r (owner_listings w)) w, ())).

(** Modelled from the spec: the stored procedure
    [calculate_owner_risk_score] is not part of the sources; the spec has
    it recompute the derived risk score of the owner it is called for. *)
Definition rpc_risk_score (oid : OwnerId) : M () :=
  store_call (RpcRiskScore oid)
    (λ w, (set_owners
             (set_risk oid (risk env (detected_owners w) (owner_listings w) oid)
                (detected_owners w)) w, ())).

(** The [try] block from line 178 on, once the average price is there. *)
Definition save_body (g : Group) (avg : Z) : M () :=
  let ls := listings g in
  let mt := match_type g in
  let ident := identifier g in
  t_last ← datetime_now;
  let owner_data := set_primary_identifier mt ident (build_owner_data ls avg t_last) in
  existing ←
    (if bool_decide (mt = phone_match) && Py.truthy ident then
       rows ← select_owner_by_phone ident;
       mret (head rows)
     else mret None);
  oid ←
    match existing with
    | Some e =>
        update_owner e owner_data;;
        modify_stats bump_updated;;
        mret e
    | None =>
        t_first ← datetime_now;
        new ← insert_owner (with_first_seen_at t_first owner_data);
        modify_stats bump_new;;
        mret new
    end;
  for_each ls (λ l, upsert_link (link_data oid l mt));;
  rpc_risk_score oid;;
  modify_stats bump_total;;
  if 1 <? length ls then modify_stats bump_multi else mret ().

(** The body of the [try] block, lines 146-238: the aggregation of lines
    150-176, which raises when the division of line 176 does, before the
    clock is read and before any store call; then the rest. *)
Definition save_group (g : Group) : M () :=
  avg ← lift (avg_price (tally (listings g)));
  save_body g avg.

(** One iteration of the loop of [save_owners_to_db]: the [try] block and
    its handler. *)
Definition try_save_group (s : St) (g : Group) : St :=
  match save_group g s with
  | (s', Ok _) => s'
  | ((w', st'), Raise msg) => (eprint (error_line msg) w', st')
  end.

(** [save_owners_to_db], lines 135-243. *)
Definition save_owners_to_db (owner_groups : list Group) (w : World) : World * Stats :=
  fold_left try_save_group owner_groups (w, zero_stats).

(** The outcome of the [try] block for each group of a run, in order. *)
Fixpoint outcomes (owner_groups : list Group) (s : St) : list (Result ()) :=
  match owner_groups with
  | [] => []
  | g :: rest => snd (save_group g s) :: outcomes rest (try_save_group s g)
  end.

(** [detect_owners], lines 56-132.  The read of the active listings is
    outside every [try]: when it raises, so does the run. *)
Definition detect_owners (w : World) : World * Result Stats :=
  let w := eprint (String "010" "[Owner Detection] Starting analysis...") w in
  match fails env (length (calls w)) with
  | Some msg => (log_call {| op := SelectActiveListings; error := Some msg |} w, Raise msg)
  | None =>
      let ls := filter (λ l, is_active l = true) (scraped_listings w) in
      let w := log_call {| op := SelectActiveListings; error := None |} w in
      let w := eprint ("[Owner Detection] Analyzing " +:+ pretty (length ls)
                       +:+ " listings") w in
      let owner_groups := build_owner_groups ls in
      let w := eprint ("[Owner Detection] Found " +:+ pretty (length owner_groups)
                       +:+ " owner groups") w in
      let '(w, stats) := save_owners_to_db owner_groups w in
      (w, Ok stats)
  end.

End Reconciler.

(** ** The report *)

(** One element of [top_operators], lines 271-278. *)
Record Operator := {
  op_phone : option string;
  op_names : gset string;
  op_platforms : gset string;
  op_listing_count : nat;
  op_risk_score : Z;
  op_estimated_monthly_revenue : Z;
}.

Definition operator_of (o : Owner) : Operator :=
  {| op_phone := primary_phone o; op_names := names o; op_platforms := platforms o;
     op_listing_count := listing_count o; op_risk_score := risk_score o;
     op_estimated_monthly_revenue := estimated_monthly_revenue o |}.

(** [.order('risk_score', desc=True).limit(100)] *)
Definition by_risk_desc (a b : Owner) : Prop := (risk_score b ≤ risk_score a)%Z.

Global Instance by_risk_desc_dec a b : Decision (by_risk_desc a b).
Proof. unfold by_risk_desc. apply _. Defined.

Definition top_owners (os : list Owner) : list Owner :=
  take 100 (merge_sort by_risk_desc os).

(** [report['top_operators']] of [generate_owner_report]. *)
Definition top_operators (os : list Owner) : list Operator :=
  map operator_of (take 10 (top_owners os)).

(** [op['phone'] or 'No phone'] in [print_report], line 302. *)
Definition printed_phone (o : Operator) : string :=
  match op_phone o with
  | Some p => if Py.truthy p then p else "No phone"
  | None => "No phone"
  end.

(** ** The specification's wording of the pure components

    These definitions follow the text of the specification, on lists of
    characters and with list operations; the theorems below compare them
    with the functions translated from the source. *)

Module Spec.

Definition chars (s : string) : list ascii := String.list_ascii_of_string s.

(** "Strip all non-digit characters." *)
Definition digits_only (s : string) : list ascii :=
  filter (λ c, Py.isdigit c = true) (chars s).

(** "Strip known prefixes in order: 00221, drop 5 chars; else bare 221
    prefix, drop 3 chars; else leading 0, drop 1 char." *)
Definition strip_known_prefix (ds : list ascii) : list ascii :=
  if decide (chars "00221" `prefix_of` ds) then drop 5 ds
  else if decide (chars "221" `prefix_of` ds) then drop 3 ds
  else if decide (chars "0" `prefix_of` ds) then drop 1 ds
  else ds.

(** "Accept only if the remaining string has exactly 9 digits and starts
    with 7 or 3." *)
Definition acceptable (rest : list ascii) : Prop :=
  length rest = 9 ∧ Forall (λ c, Py.isdigit c = true) rest
  ∧ (head rest = Some "7"%char ∨ head rest = Some "3"%char).

Global Instance acceptable_dec rest : Decision (acceptable rest).
Proof. unfold acceptable. apply _. Defined.

(** "Output: +221 followed by the 9 digits, or no signal." *)
Definition normalize (s : string) : option string :=
  let rest := strip_known_prefix (digits_only s) in
  if decide (acceptable rest)
  then Some ("+221" +:+ String.string_of_list_ascii rest)
  else None.

(** "First valid result from the Phone Normalizer applied, in field
    order, to the four fields": the normalizer is applied to every field
    that is present and the first success is taken. *)
Definition first_valid_phone (fields : list (option string)) : option string :=
  head (omap (λ v, v ≫= normalize) fields).

(** "The arithmetic mean of all positive price values present", as a
    rational number, and 0 if there is none. *)
Definition positive_prices (ls : list Listing) : list Z :=
  filter (λ p, (0 < p)%Z) (omap price ls).

Definition mean (ps : list Z) : Q :=
  match ps with
  | [] => 0%Q
  | _ :: _ => (inject_Z (foldr Z.add 0%Z ps) / inject_Z (Z.of_nat (length ps)))%Q
  end.

End Spec.
(** ** Notions used in the statements *)

(** The listings held by a dictionary, key after key. *)
Definition dict_values (d : Dict) : list Listing := concat (map snd d).

(** What the phone loop makes: a phone group that is not empty and whose
    [listing_ids] are the ids of its [listings]. *)
Definition phone_group_ok (g : Group) : Prop :=
  match_type g = phone_match ∧ listings g ≠ []
  ∧ listing_ids g = map listing_id (listings g).

(** What the host-id loop adds, given the set [P] of ids claimed before it. *)
Definition host_group_ok (P : gset ListingId) (g : Group) : Prop :=
  match_type g = host_id_match ∧ listings g ≠ []
  ∧ listing_ids g = map listing_id (listings g)
  ∧ ∀ x, x ∈ listing_ids g → x ∉ P.

(** A host-id group made by the builder is not empty, and every listing in
    it carries the group's identifier as its host key. *)
Definition host_group_keyed (g : Group) : Prop :=
  match_type g = host_id_match →
  listings g ≠ [] ∧ Forall (λ l, host_key l = Some (identifier g)) (listings g).

(** The key of [owner_listings] named by [on_conflict]. *)
Definition link_key (r : Link) : OwnerId * ListingId :=
  (owner_id r, scraped_listing_id r).

(** The table of links after the upserts of a group's listings, in order. *)
Definition links_after (oid : OwnerId) (mt : MatchType) (ls : list Listing)
    (links : list Link) : list Link :=
  fold_left (λ acc l, upsert_row (link_data oid l mt) acc) ls links.

(** An environment in which no store call raises. *)
Definition no_faults (env : Env) : Prop := ∀ n, fails env n = None.

Global Instance DbOp_eq_dec : EqDecision DbOp.
Proof. solve_decision. Defined.

(** Kinds of calls in the history. *)
Definition is_upsert (c : Call) : Prop :=
  match op c with UpsertLink _ _ => True | _ => False end.

Definition is_lookup (c : Call) : Prop :=
  match op c with SelectOwnerByPhone _ => True | _ => False end.

Definition is_update (c : Call) : Prop :=
  match op c with UpdateOwner _ => True | _ => False end.

Global Instance is_upsert_dec c : Decision (is_upsert c).
Proof. unfold is_upsert. destruct (op c); apply _. Defined.

Global Instance is_lookup_dec c : Decision (is_lookup c).
Proof. unfold is_lookup. destruct (op c); apply _. Defined.

Global Instance is_update_dec c : Decision (is_update c).
Proof. unfold is_update. destruct (op c); apply _. Defined.

(** The inserts and the updates of owner rows that went through. *)
Definition inserted (seg : list Call) : nat :=
  length (filter (λ c, op c = InsertOwner ∧ error c = None) seg).

Definition updated (seg : list Call) : nat :=
  length (filter (λ c, is_update c ∧ error c = None) seg).

(** ** The executions of the [try] block, exit by exit

    The body of the loop of [save_owners_to_db] either raises in the
    division of line 176, with the state as it was, or goes on and leaves
    through one of five doors: the lookup raises, the write of the owner row
    raises, the upsert of a link raises, the stored procedure raises, or the
    body ends.  The definitions below say what the state is at each door;
    the theorem [save_body_exits] proves that [save_body] always leaves
    through one of them. *)

Inductive Exit :=
| ExitLookup
| ExitWrite
| ExitLinks (k : nat)
| ExitRpc
| ExitDone.

Section Exits.

Context (env : Env) (g : Group) (w : World).

(** The test of line 203. *)
Definition group_lookup : bool :=
  bool_decide (match_type g = phone_match) && Py.truthy (identifier g).

(** [existing], reduced to the id it holds. *)
Definition group_existing : option OwnerId :=
  if group_lookup
  then head (owners_with_phone (identifier g) (detected_owners w))
  else None.

(** [avg_price] of line 176 when the division goes through. *)
Definition group_avg : Z :=
  match avg_price (tally (listings g)) with
  | Ok a => a
  | Raise _ => 0%Z
  end.

(** [owner_data] after line 199. *)
Definition group_owner_data : OwnerData :=
  set_primary_identifier (match_type g) (identifier g)
    (build_owner_data (listings g) group_avg (now env (clock_reads w))).

(** [owner_id] *)
Definition group_owner_id : OwnerId :=
  match group_existing with
  | Some e => e
  | None => fresh_id (detected_owners w)
  end.

(** The table of owners after the update or the insert. *)
Definition owners_written : list Owner :=
  match group_existing with
  | Some e => update_rows e group_owner_data (detected_owners w)
  | None =>
      detected_owners w
      ++ [new_row (fresh_id (detected_owners w))
            (with_first_seen_at (now env (S (clock_reads w))) group_owner_data)]
  end.

Definition links_written : list Link :=
  links_after group_owner_id (match_type g) (listings g) (owner_listings w).

(** The table of owners after the stored procedure. *)
Definition owners_scored : list Owner :=
  set_risk group_owner_id (risk env owners_written links_written group_owner_id)
    owners_written.

Definition exit_owners (x : Exit) : list Owner :=
  match x with
  | ExitLookup | ExitWrite => detected_owners w
  | ExitLinks _ | ExitRpc => owners_written
  | ExitDone => owners_scored
  end.

Definition exit_links (x : Exit) : list Link :=
  match x with
  | ExitLookup | ExitWrite => owner_listings w
  | ExitLinks k =>
      links_after group_owner_id (match_type g) (take k (listings g)) (owner_listings w)
  | ExitRpc | ExitDone => links_written
  end.

(** The clock is read once for [last_seen_at] and once more, before the
    insert, for [first_seen_at]. *)
Definition exit_clock (x : Exit) : nat :=
  match x with
  | ExitLookup => S (clock_reads w)
  | _ =>
      match group_existing with
      | Some _ => S (clock_reads w)
      | None => S (S (clock_reads w))
      end
  end.

Definition exit_world (x : Exit) (seg : list Call) : World :=
  {| scraped_listings := scraped_listings w;
     detected_owners := exit_owners x;
     owner_listings := exit_links x;
     calls := calls w ++ seg;
     clock_reads := exit_clock x;
     stderr := stderr w |}.

Definition bump_written : Stats → Stats :=
  match group_existing with
  | Some _ => bump_updated
  | None => bump_new
  end.

Definition exit_stats (x : Exit) (st : Stats) : Stats :=
  match x with
  | ExitLookup | ExitWrite => st
  | ExitLinks _ | ExitRpc => bump_written st
  | ExitDone =>
      let st := bump_total (bump_written st) in
      if 1 <? length (listings g) then bump_multi st else st
  end.

Definition lookup_calls : list Call :=
  if group_lookup
  then [{| op := SelectOwnerByPhone (identifier g); error := None |}]
  else [].

Definition write_op : DbOp :=
  match group_existing with
  | Some e => UpdateOwner e
  | None => InsertOwner
  end.

(** The calls made on the way to each door, and the outcome there. *)
Definition exit_calls (x : Exit) (seg : list Call) (r : Result ()) : Prop :=
  match x with
  | ExitLookup =>
      ∃ msg, r = Raise msg ∧ group_lookup = true
             ∧ seg = [{| op := SelectOwnerByPhone (identifier g); error := Some msg |}]
  | ExitWrite =>
      ∃ msg, r = Raise msg
             ∧ seg = lookup_calls ++ [{| op := write_op; error := Some msg |}]
  | ExitLinks k =>
      ∃ msg useg c,
        r = Raise msg ∧ k < length (listings g)
        ∧ seg = lookup_calls ++ [{| op := write_op; error := None |}] ++ useg
        ∧ Forall is_upsert useg ∧ last useg = Some c ∧ error c = Some msg
  | ExitRpc =>
      ∃ msg useg,
        r = Raise msg
        ∧ seg = lookup_calls ++ [{| op := write_op; error := None |}] ++ useg
                ++ [{| op := RpcRiskScore group_owner_id; error := Some msg |}]
        ∧ Forall is_upsert useg ∧ Forall (λ c, error c = None) useg
  | ExitDone =>
      ∃ useg,
        r = Ok ()
        ∧ seg = lookup_calls ++ [{| op := write_op; error := None |}] ++ useg
                ++ [{| op := RpcRiskScore group_owner_id; error := None |}]
        ∧ Forall is_upsert useg ∧ Forall (λ c, error c = None) useg
  end.

End Exits.

(** The sum of a list of prices. *)
Definition sum_prices (ps : list Z) : Z := foldr Z.add 0%Z ps.

(** ** Reading the outcomes of a run *)

Definition is_ok {A} (r : Result A) : bool :=
  match r with Ok _ => true | Raise _ => false end.

(** A group whose average price is computed: the division of line 176
    does not raise. *)
Definition averaged (g : Group) : Prop :=
  is_ok (avg_price (tally (listings g))) = true.

Global Instance averaged_dec g : Decision (averaged g).
Proof. unfold averaged. apply _. Defined.

(** The text of the exception of line 176 when the quotient is beyond the
    range of a float. *)
Definition overflow_text : string := "integer division result too large for a float".

(** The lines the handler prints for a list of outcomes. *)
Definition error_lines (outs : list (Result ())) : list string :=
  omap (λ r, match r with Raise msg => Some (error_line msg) | Ok _ => None end) outs.

(** The groups whose [try] block ended without an exception. *)
Definition saved (gs : list Group) (outs : list (Result ())) : list Group :=
  map fst (filter (λ p, is_ok (snd p) = true) (zip gs outs)).

Definition multi (gs : list Group) : list Group :=
  filter (λ g, 1 < length (listings g)) gs.

(** An owner row carries the aggregate of a list of listings. *)
Definition aggregates (o : Owner) (ls : list Listing) : Prop :=
  names o = t_names (tally ls)
  ∧ host_ids o = t_host_ids (tally ls)
  ∧ platforms o = t_platforms (tally ls)
  ∧ listing_count o = length ls
  ∧ active_listing_count o = length ls
  ∧ unregistered_count o = length ls
  ∧ registered_count o = 0
  ∧ avg_price (tally ls) = Ok (avg_price_per_night o)
  ∧ estimated_monthly_revenue o
    = estimated_monthly (avg_price_per_night o) (length ls).

(** The listings a run reads. *)
Definition active_listings (w : World) : list Listing :=
  filter (λ l, is_active l = true) (scraped_listings w).

(** The world after one run of [detect_owners]. *)
Definition run (env : Env) (w : World) : World := fst (detect_owners env w).

(** The first owner row with a given phone: the one the lookup of line 204
    hands to the update. *)
Definition owner_by_phone (p : string) (os : list Owner) : option Owner :=
  head (filter (λ o, primary_phone o = Some p) os).

(** ** Well-formed stores and settled groups *)

(** The constraints of the two tables: owner ids are a key, so is
    [(owner_id, scraped_listing_id)], and every link points to an owner. *)
Definition wf_store (w : World) : Prop :=
  NoDup (map o_id (detected_owners w))
  ∧ NoDup (map link_key (owner_listings w))
  ∧ ∀ r, r ∈ owner_listings w → owner_id r ∈ map o_id (detected_owners w).

(** A phone group is settled on owner [i] when the first row with the
    group's phone has id [i], carries the group's aggregate, and is linked
    to every listing of the group. *)
Definition settled (g : Group) (i : OwnerId) (w : World) : Prop :=
  ∃ o, owner_by_phone (identifier g) (detected_owners w) = Some o
       ∧ o_id o = i
       ∧ aggregates o (listings g)
       ∧ ∀ l, l ∈ listings g → (i, listing_id l) ∈ map link_key (owner_listings w).

(** The phone groups of a list. *)
Definition phone_groups (gs : list Group) : list Group :=
  filter (λ g, match_type g = phone_match) gs.


(** The groups of one run: phone identifiers are not empty and pairwise
    distinct. *)
Definition groups_ok (gs : list Group) : Prop :=
  NoDup (map identifier (phone_groups gs))
  ∧ Forall (λ g, identifier g ≠ "") (phone_groups gs).

(** ** Sample data *)

Module Sample.

Definition listing (i : ListingId) (plat : string) (hid : option string)
    (name : option string) (pr : option Z) (ph1 ph2 : option string) : Listing :=
  {| listing_id := i; platform := plat; host_id := hid; host_name := name;
     price := pr;
     raw_data := Some {| phone := ph1; phoneNumber := ph2;
                         whatsapp := None; contact_phone := None |};
     is_active := true |}.

(** A listing with a phone and an airbnb host id. *)
Definition A : Listing :=
  listing "A" "airbnb" (Some "h1") (Some "Awa") (Some 100%Z)
    (Some "+221771111111") None.

(** A listing of the same host without a phone. *)
Definition B : Listing :=
  listing "B" "airbnb" (Some "h1") (Some "Awa Diop") (Some 151%Z) None None.

(** A listing whose first phone field is not a number of the country. *)
Definition C : Listing :=
  listing "C" "expat-dakar" None None (Some 50%Z) (Some "123") (Some "0771234567").

(** Three listings priced 100, 150 and 50. *)
Definition P1 : Listing := listing "P1" "booking" None None (Some 100%Z) None None.
Definition P2 : Listing := listing "P2" "booking" None None (Some 150%Z) None None.
Definition P3 : Listing := listing "P3" "booking" None None (Some 50%Z) None None.

(** A listing of a booking host whose price is beyond the range of a
    float. *)
Definition H : Listing :=
  listing "H" "booking" (Some "h9") (Some "Hotel") (Some (10 ^ 400)%Z) None None.

(** A store with the given listings and no owner yet. *)
Definition world (ls : list Listing) : World :=
  {| scraped_listings := ls; detected_owners := []; owner_listings := [];
     calls := []; clock_reads := 0; stderr := [] |}.

(** No call fails; the clock advances by one at every read. *)
Definition steady : Env :=
  {| fails := λ _, None; now := λ n, Z.of_nat n; risk := λ _ _ _, 0%Z |}.

(** The third call to the store times out. *)
Definition flaky : Env :=
  {| fails := λ n, if n =? 2 then Some "timeout" else None;
     now := λ n, Z.of_nat n; risk := λ _ _ _, 0%Z |}.

(** The phone cluster of [A] and the host-id cluster of [B]. *)
Definition gA : Group :=
  {| match_type := phone_match; identifier := "+221771111111";
     listings := [A]; listing_ids := ["A"] |}.

Definition gB : Group :=
  {| match_type := host_id_match; identifier := "airbnb:h1";
     listings := [B]; listing_ids := ["B"] |}.

(** The host-id cluster of [H]. *)
Definition gH : Group :=
  {| match_type := host_id_match; identifier := "booking:h9";
     listings := [H]; listing_ids := ["H"] |}.

End Sample.

(** ** The phone key of the analysis script

    [analyze_owners.py] groups listings by a second, looser phone key: the
    last nine digit characters of the first non-empty of [phone] and
    [phoneNumber]. *)

(** [s[-n:]] for a positive [n] *)
Definition slice_last (n : nat) (s : string) : string :=
  Py.slice_from (Py.len s - n) s.

(** Lines 33-36 of [analyze_owners.py]: the key under which a phone value is
    filed, if it is filed at all. *)
Definition analysis_phone_key (phone : string) : option string :=
  if Py.truthy phone then
    let digits := Py.join_if Py.isdigit phone in
    if 9 <=? Py.len digits then Some (slice_last 9 digits) else None
  else None.

(** [raw.get('phone') or raw.get('phoneNumber')], line 25. *)
Definition analysis_phone (r : RawData) : option string :=
  match truthy_field (phone r) with
  | Some p => Some p
  | None => phoneNumber r
  end.

(** The key of a listing in the analysis script, lines 24-36. *)
Definition analysis_key_of_listing (l : Listing) : option string :=
  match truthy_field (analysis_phone (raw_data_or_empty l)) with
  | Some p => analysis_phone_key p
  | None => None
  end.


(** A dictionary that holds, for every key that occurs among the listings,
    the listings with that key in input order, and nothing else. *)
Definition keyed_dict (key_of : Listing → option string) (d : Dict)
    (ls : list Listing) : Prop :=
  NoDup (map fst d)
  ∧ ∀ k v, (k, v) ∈ d ↔ v = filter (λ l, key_of l = Some k) ls ∧ v ≠ [].

(** What a run may do to the tables: the listings stay as they are, owner
    rows and link rows are added or rewritten in place, none is removed. *)
Definition store_grows (w w' : World) : Prop :=
  scraped_listings w' = scraped_listings w
  ∧ map o_id (detected_owners w) `prefix_of` map o_id (detected_owners w')
  ∧ map link_key (owner_listings w) `prefix_of` map link_key (owner_listings w').

(** ** The report of [generate_owner_report] *)

Global Instance by_risk_desc_total : Total by_risk_desc.
Proof. intros a b. unfold by_risk_desc. lia. Qed.

Global Instance by_risk_desc_trans : Transitive by_risk_desc.
Proof. intros a b c. unfold by_risk_desc. lia. Qed.

(** The dictionary [report], lines 260-267 and 270-278. *)
Record Report := {
  rep_total_owners : nat;
  rep_multi_property_owners : nat;
  rep_high_risk_owners : nat;
  rep_total_listings : nat;
  rep_coverage_rate : Q;
  rep_top_operators : list Operator;
}.

(** Line 265.  The quotient is kept as a rational number. *)
Definition coverage_rate (owners : list Owner) (total_listings : nat) : Q :=
  match total_listings with
  | 0 => 0%Q
  | S _ =>
      (inject_Z (Z.of_nat (sum_list (map listing_count owners)))
       / inject_Z (Z.of_nat total_listings))%Q
  end.

(** Lines 256-278, on the rows and the count the two queries returned. *)
Definition report_of (owners : list Owner) (total_listings : nat) : Report :=
  {| rep_total_owners := length owners;
     rep_multi_property_owners := length (filter (λ o, 1 < listing_count o) owners);
     rep_high_risk_owners := length (filter (λ o, (50 ≤ risk_score o)%Z) owners);
     rep_total_listings := total_listings;
     rep_coverage_rate := coverage_rate owners total_listings;
     rep_top_operators := map operator_of (take 10 owners) |}.

(** [generate_owner_report], lines 246-280.  Its two queries only read; they
    are the next two calls to the store, and either may raise, which ends
    the function since it has no handler. *)
Definition generate_owner_report (env : Env) (w : World) : Result Report :=
  match fails env (length (calls w)) with
  | Some msg => Raise msg
  | None =>
      let owners := top_owners (detected_owners w) in
      match fails env (S (length (calls w))) with
      | Some msg => Raise msg
      | None =>
          let total_listings := length (active_listings w) in
          Ok (report_of owners total_listings)
      end
  end.

(** ** Resolved groups *)

(** A group is resolved in a store when the table of owners holds a row
    with the group's aggregate (for a phone group the first row with the
    group's phone, for a host-id group a row without a phone) and every
    listing of the group has its link row to that owner. *)
Definition resolved (g : Group) (w : World) : Prop :=
  ∃ o, o ∈ detected_owners w
       ∧ aggregates o (listings g)
       ∧ match match_type g with
         | phone_match => owner_by_phone (identifier g) (detected_owners w) = Some o
         | host_id_match => primary_phone o = None
         end
       ∧ ∀ l, l ∈ listings g → link_data (o_id o) l (match_type g) ∈ owner_listings w.

(** The listing ids of the members of a list of groups. *)
Definition member_ids (gs : list Group) : list ListingId :=
  concat (map (λ g, map listing_id (listings g)) gs).

(** The owner row a run makes for a group that has no owner yet. *)
Definition row_of_group (o : Owner) (g : Group) : Prop :=
  aggregates o (listings g)
  ∧ primary_phone o
    = match match_type g with
      | phone_match => Some (identifier g)
      | host_id_match => None
      end.
(** * Theorems *)

(** ** Strings as lists of characters *)

Section StringFacts.

Lemma chars_join_if f s :
  Spec.chars (Py.join_if f s) = filter (λ c, f c = true) (Spec.chars s).
Proof.
  unfold Spec.chars. induction s as [|c s IH]; [done|].
  cbn [Py.join_if String.list_ascii_of_string].
  rewrite filter_cons. destruct (f c) eqn:Hc.
  - rewrite decide_True by done. cbn. by rewrite IH.
  - rewrite decide_False by done. done.
Qed.

Lemma startswith_prefix s p :
  Py.startswith s p = bool_decide (Spec.chars p `prefix_of` Spec.chars s).
Proof.
  unfold Spec.chars. revert s. induction p as [|a p IH]; intros s.
  - destruct s; cbn; symmetry; apply bool_decide_eq_true_2, prefix_nil.
  - destruct s as [|b s]; cbn [Py.startswith String.list_ascii_of_string].
    + symmetry. apply bool_decide_eq_false_2. intros H. by apply prefix_nil_inv in H.
    + destruct (decide (a = b)) as [->|Hne].
      * rewrite IH. apply bool_decide_ext. split.
        -- apply prefix_cons.
        -- apply prefix_cons_inv_2.
      * symmetry. apply bool_decide_eq_false_2. intros H.
        apply prefix_cons_inv_1 in H. done.
Qed.

Lemma chars_slice_from n s :
  Spec.chars (Py.slice_from n s) = drop n (Spec.chars s).
Proof.
  unfold Spec.chars. revert s. induction n as [|n IH]; intros [|c s]; cbn; try done.
Qed.

Lemma len_chars s : Py.len s = length (Spec.chars s).
Proof. unfold Spec.chars, Py.len. induction s as [|c s IH]; cbn; [done|]. f_equal. apply IH. Qed.

Lemma of_chars s : String.string_of_list_ascii (Spec.chars s) = s.
Proof. apply String.string_of_list_ascii_of_string. Qed.

Lemma digits_only_Forall s : Forall (λ c, Py.isdigit c = true) (Spec.digits_only s).
Proof.
  unfold Spec.digits_only. apply Forall_forall. intros c Hc.
  by apply list_elem_of_filter in Hc as [? _].
Qed.

Lemma strip_known_prefix_suffix ds : Spec.strip_known_prefix ds `suffix_of` ds.
Proof.
  unfold Spec.strip_known_prefix. repeat case_decide; try apply suffix_drop. done.
Qed.

Lemma strip_known_prefix_Forall (P : ascii → Prop) ds :
  Forall P ds → Forall P (Spec.strip_known_prefix ds).
Proof.
  intros H. destruct (strip_known_prefix_suffix ds) as [k Hk].
  rewrite Hk in H. by apply Forall_app in H as [_ ?].
Qed.

(** The source's prefix cascade, read on lists. *)
Lemma source_cascade digits :
  Spec.chars
    (if Py.startswith digits "00221" then Py.slice_from 5 digits
     else if Py.startswith digits "221" then Py.slice_from 3 digits
     else if Py.startswith digits "0" then Py.slice_from 1 digits
     else digits)
  = Spec.strip_known_prefix (Spec.chars digits).
Proof.
  unfold Spec.strip_known_prefix. rewrite !startswith_prefix.
  repeat case_decide;
    repeat (first [rewrite bool_decide_eq_true_2 by done
                  | rewrite bool_decide_eq_false_2 by done]);
    by rewrite ?chars_slice_from.
Qed.

Lemma startswith_head s (c : ascii) :
  Py.startswith s (String c EmptyString) = bool_decide (head (Spec.chars s) = Some c).
Proof.
  destruct s as [|b s]; cbn.
  - symmetry. by apply bool_decide_eq_false_2.
  - destruct (decide (c = b)) as [->|Hne].
    + destruct s; cbn; symmetry; by apply bool_decide_eq_true_2.
    + symmetry. apply bool_decide_eq_false_2. intros [= ->]. done.
Qed.

End StringFacts.

Lemma normalize_phone_refines s : normalize_phone s = Spec.normalize s.
Proof.
  unfold normalize_phone, Spec.normalize.
  destruct (Py.truthy s) eqn:Ht; [|by destruct s]. cbn [negb].
  set (digits := Py.join_if Py.isdigit s).
  set (rest := if Py.startswith digits "00221" then _ else _).
  assert (Hrest : Spec.chars rest = Spec.strip_known_prefix (Spec.digits_only s)).
  { unfold rest. rewrite source_cascade. unfold digits, Spec.digits_only.
    by rewrite chars_join_if. }
  rewrite len_chars, !startswith_head, Hrest.
  case_decide as Hacc.
  - destruct Hacc as (Hlen & _ & Hhd).
    rewrite <- Hrest, of_chars.
    rewrite (proj2 (Nat.eqb_eq _ _)) by (by rewrite Hrest).
    rewrite Hrest.
    destruct Hhd as [H|H].
    + by rewrite (bool_decide_eq_true_2 _ H).
    + rewrite (bool_decide_eq_true_2 (_ = Some "3"%char) H). by rewrite orb_true_r.
  - destruct (length _ =? 9) eqn:Hlen; [|done]. apply Nat.eqb_eq in Hlen.
    cbn [andb].
    destruct (bool_decide (_ = Some "7"%char)) eqn:H7;
      [apply bool_decide_eq_true in H7|];
      [exfalso; apply Hacc; split_and!; auto;
       apply strip_known_prefix_Forall, digits_only_Forall|].
    destruct (bool_decide (_ = Some "3"%char)) eqn:H3; [|done].
    apply bool_decide_eq_true in H3.
    exfalso; apply Hacc; split_and!; auto.
    apply strip_known_prefix_Forall, digits_only_Forall.
Qed.

(** C2. The phone normalizer is a total function that agrees on every
    string with the specification's algorithm: keep the digit characters,
    apply the first matching prefix rule (00221, else 221, else 0), and
    answer +221 followed by the remainder exactly when the remainder has 9
    digits and starts with 7 or 3, no signal otherwise.  The three
    spellings of 77 123 45 67 normalize to +221771234567; 123 and
    221991234567 give no signal. *)
Theorem normalize_phone_correct :
  (∀ s, normalize_phone s = Spec.normalize s)
  ∧ (∀ s out,
       normalize_phone s = Some out ↔
       ∃ rest, rest = Spec.strip_known_prefix (Spec.digits_only s)
               ∧ Spec.acceptable rest
               ∧ out = "+221" +:+ String.string_of_list_ascii rest)
  ∧ (∀ s, normalize_phone s = None ↔
          ¬ Spec.acceptable (Spec.strip_known_prefix (Spec.digits_only s)))
  ∧ normalize_phone "+221771234567" = Some "+221771234567"
  ∧ normalize_phone "00221771234567" = Some "+221771234567"
  ∧ normalize_phone "0771234567" = Some "+221771234567"
  ∧ normalize_phone "123" = None
  ∧ normalize_phone "221991234567" = None.
Proof.
  split_and!; try reflexivity.
  - apply normalize_phone_refines.
  - intros s out. rewrite normalize_phone_refines. unfold Spec.normalize.
    case_decide as Hacc.
    + split.
      * intros [= <-]. eauto.
      * intros (rest & -> & _ & ->). done.
    + split; [done|]. intros (rest & -> & ? & _). done.
  - intros s. rewrite normalize_phone_refines. unfold Spec.normalize.
    case_decide; split; try done. 
Qed.

(** ** The signal extractor *)

Lemma normalize_phone_truthy s p : normalize_phone s = Some p → Py.truthy p = true.
Proof.
  unfold normalize_phone. repeat case_match; try done; intros [= <-]; reflexivity.
Qed.

Lemma normalize_phone_empty : normalize_phone "" = None.
Proof. reflexivity. Qed.

(** The truthiness test on a field never hides a number: the normalizer
    rejects the empty string anyway. *)
Lemma truthy_field_normalize v :
  truthy_field v ≫= normalize_phone = v ≫= normalize_phone.
Proof. destruct v as [[|c s]|]; reflexivity. Qed.

Lemma try_phone_fields_cons v rest :
  try_phone_fields (v :: rest) =
  match v ≫= normalize_phone with
  | Some p => Some p
  | None => try_phone_fields rest
  end.
Proof.
  rewrite <- truthy_field_normalize. cbn [try_phone_fields].
  destruct (truthy_field v) as [s|]; cbn; [|done]. by destruct (normalize_phone s).
Qed.

Lemma try_phone_fields_first_valid fields :
  try_phone_fields fields = Spec.first_valid_phone fields.
Proof.
  unfold Spec.first_valid_phone.
  induction fields as [|v rest IH]; [done|].
  rewrite try_phone_fields_cons. cbn [omap list_omap].
  replace (v ≫= Spec.normalize) with (v ≫= normalize_phone)
    by (destruct v; cbn; [apply normalize_phone_refines|done]).
  destruct (v ≫= normalize_phone); [done|]. apply IH.
Qed.

Lemma try_phone_fields_stops pre v post p :
  Forall (λ x, x ≫= normalize_phone = None) pre →
  v ≫= normalize_phone = Some p →
  try_phone_fields (pre ++ v :: post) = Some p.
Proof.
  intros Hpre Hv. induction Hpre as [|x pre Hx _ IH]; cbn [app].
  - by rewrite try_phone_fields_cons, Hv.
  - by rewrite try_phone_fields_cons, Hx.
Qed.

Lemma host_key_Some l k :
  host_key l = Some k ↔
  ∃ h, host_id l = Some h ∧ h ≠ ""
       ∧ (platform l = "airbnb" ∨ platform l = "booking")
       ∧ k = platform l +:+ ":" +:+ h.
Proof.
  unfold host_key. destruct (host_id l) as [h|].
  - destruct (Py.truthy h) eqn:Ht; cbn [andb].
    + case_bool_decide as Hp.
      * split.
        -- intros [= <-]. exists h. split_and!; try done.
           ++ by destruct h.
           ++ set_solver.
        -- intros (h' & [= <-] & _ & _ & ->). done.
      * split; [done|]. intros (h' & _ & _ & Hpl & _). exfalso. apply Hp. set_solver.
    + split; [done|]. intros (h' & [= <-] & Hne & _). by destruct h.
  - split; [done|]. by intros (h' & ? & _).
Qed.

(** C3. A listing yields at most one phone signal: the first success of the
    normalizer over [phone], [phoneNumber], [whatsapp], [contact_phone], in
    that order; once a field normalizes, the fields after it do not change
    the result.  It yields a host-id signal exactly when its [host_id] is
    non-empty and its platform is airbnb or booking. *)
Theorem signal_extractor_correct :
  (∀ l, extract_phone_from_listing l =
        Spec.first_valid_phone
          [phone (raw_data_or_empty l); phoneNumber (raw_data_or_empty l);
           whatsapp (raw_data_or_empty l); contact_phone (raw_data_or_empty l)])
  ∧ (∀ l pre v post p,
       phone_fields (raw_data_or_empty l) = pre ++ v :: post →
       Forall (λ x, x ≫= normalize_phone = None) pre →
       v ≫= normalize_phone = Some p →
       extract_phone_from_listing l = Some p)
  ∧ (∀ l k,
       host_key l = Some k ↔
       ∃ h, host_id l = Some h ∧ h ≠ ""
            ∧ (platform l = "airbnb" ∨ platform l = "booking")
            ∧ k = platform l +:+ ":" +:+ h).
Proof.
  split_and!.
  - intros l. unfold extract_phone_from_listing, phone_fields.
    apply try_phone_fields_first_valid.
  - intros l pre v post p Hfields Hpre Hv.
    unfold extract_phone_from_listing. rewrite Hfields.
    by apply try_phone_fields_stops.
  - apply host_key_Some.
Qed.

(** ** Clustering precedence on two listings *)

Lemma extract_phone_truthy l p :
  extract_phone_from_listing l = Some p → Py.truthy p = true.
Proof.
  unfold extract_phone_from_listing. generalize (phone_fields (raw_data_or_empty l)).
  intros fields. induction fields as [|v rest IH]; [done|].
  rewrite try_phone_fields_cons.
  destruct (v ≫= normalize_phone) as [q|] eqn:Hv; [|done].
  intros [= ->]. destruct v as [s|]; [|done]. cbn in Hv.
  by apply normalize_phone_truthy in Hv.
Qed.

Lemma host_key_airbnb l h :
  platform l = "airbnb" → host_id l = Some h → h ≠ "" →
  host_key l = Some ("airbnb:" +:+ h).
Proof.
  intros Hp Hh Hne. apply host_key_Some. exists h. rewrite Hp. split_and!; auto.
Qed.

(** C4. Of two listings with the same airbnb host id, one with a phone
    signal and one without, the builder makes two clusters, whatever the
    order of the listings: the phone cluster holds the first listing alone
    and the host-id cluster the second alone. *)
Theorem phone_claim_precedes_host_id (A B : Listing) (p h : string) :
  extract_phone_from_listing A = Some p →
  platform A = "airbnb" → host_id A = Some h →
  extract_phone_from_listing B = None →
  platform B = "airbnb" → host_id B = Some h →
  h ≠ "" →
  listing_id A ≠ listing_id B →
  let phone_cluster :=
    {| match_type := phone_match; identifier := p;
       listings := [A]; listing_ids := [listing_id A] |} in
  let host_cluster :=
    {| match_type := host_id_match; identifier := "airbnb:" +:+ h;
       listings := [B]; listing_ids := [listing_id B] |} in
  build_owner_groups [A; B] = [phone_cluster; host_cluster]
  ∧ build_owner_groups [B; A] = [phone_cluster; host_cluster].
Proof.
  intros HpA HplA HhA HpB HplB HhB Hh Hid.
  pose proof (extract_phone_truthy _ _ HpA) as Htp.
  pose proof (host_key_airbnb _ _ HplA HhA Hh) as HkA.
  pose proof (host_key_airbnb _ _ HplB HhB Hh) as HkB.
  assert (HinA : listing_id A ∈ (∅ ∪ list_to_set [listing_id A] : gset ListingId))
    by set_solver.
  assert (HinB : listing_id B ∉ (∅ ∪ list_to_set [listing_id A] : gset ListingId))
    by set_solver.
  split.
  - unfold build_owner_groups, phone_owner_groups, index_listings.
    cbn [fold_left index_listing]. rewrite HpA, HpB, HkA, HkB, Htp.
    cbn [dict_append]. rewrite decide_True by done.
    cbn [fst snd fold_left add_phone_group add_host_group length Nat.leb app map].
    assert (filter (λ lid, lid ∉ (∅ ∪ list_to_set [listing_id A] : gset ListingId))
              [listing_id A; listing_id B] = [listing_id B]) as ->.
    { rewrite filter_cons_False by (intros H; by apply H).
      by rewrite filter_cons_True by done. }
    rewrite filter_cons_False by set_solver.
    rewrite filter_cons_True by set_solver. rewrite filter_nil.
    done.
  - unfold build_owner_groups, phone_owner_groups, index_listings.
    cbn [fold_left index_listing]. rewrite HpA, HpB, HkA, HkB, Htp.
    cbn [dict_append]. rewrite decide_True by done.
    cbn [fst snd fold_left add_phone_group add_host_group length Nat.leb app map].
    assert (filter (λ lid, lid ∉ (∅ ∪ list_to_set [listing_id A] : gset ListingId))
              [listing_id B; listing_id A] = [listing_id B]) as ->.
    { rewrite filter_cons_True by done.
      by rewrite filter_cons_False by (intros H; by apply H). }
    rewrite filter_cons_True by set_solver.
    rewrite filter_cons_False by set_solver. rewrite filter_nil.
    done.
Qed.

(** ** The cluster builder: every listing is claimed at most once *)

Section Grouping.

Implicit Types (d : Dict) (l : Listing) (ls : list Listing).

Lemma dict_append_values key l d :
  dict_values (dict_append key l d) ≡ₚ l :: dict_values d.
Proof.
  unfold dict_values. induction d as [|[k ls] d IH]; cbn [dict_append].
  - done.
  - case_decide; cbn [map concat snd].
    + rewrite <- app_assoc. cbn. symmetry. apply Permutation_middle.
    + rewrite IH. symmetry. apply Permutation_middle.
Qed.

Lemma index_listing_values acc l :
  ∃ s1 s2,
    s1 `sublist_of` [l] ∧ s2 `sublist_of` [l]
    ∧ dict_values (fst (index_listing acc l)) ≡ₚ dict_values (fst acc) ++ s1
    ∧ dict_values (snd (index_listing acc l)) ≡ₚ dict_values (snd acc) ++ s2.
Proof.
  destruct acc as [d1 d2]. unfold index_listing. cbn [fst snd].
  assert (∀ (b : bool) key d,
             ∃ s, s `sublist_of` [l]
                  ∧ dict_values (if b then dict_append key l d else d)
                    ≡ₚ dict_values d ++ s) as Hone.
  { intros [] key d.
    - exists [l]. split; [done|]. rewrite dict_append_values.
      apply Permutation_cons_append.
    - exists []. split; [apply sublist_nil_l|]. by rewrite app_nil_r. }
  destruct (extract_phone_from_listing l) as [p|].
  - destruct (Hone (Py.truthy p) p d1) as (s1 & Hs1 & Hp1).
    destruct (host_key l) as [k|].
    + destruct (Hone true k d2) as (s2 & Hs2 & Hp2). eauto 10.
    + destruct (Hone false "" d2) as (s2 & Hs2 & Hp2). eauto 10.
  - destruct (Hone false "" d1) as (s1 & Hs1 & Hp1).
    destruct (host_key l) as [k|].
    + destruct (Hone true k d2) as (s2 & Hs2 & Hp2). eauto 10.
    + destruct (Hone false "" d2) as (s2 & Hs2 & Hp2). eauto 10.
Qed.

Lemma fold_index_listing_values ls acc :
  ∃ s1 s2,
    s1 `sublist_of` ls ∧ s2 `sublist_of` ls
    ∧ dict_values (fst (fold_left index_listing ls acc)) ≡ₚ dict_values (fst acc) ++ s1
    ∧ dict_values (snd (fold_left index_listing ls acc)) ≡ₚ dict_values (snd acc) ++ s2.
Proof.
  revert acc. induction ls as [|l ls IH]; intros acc; cbn [fold_left].
  - exists [], []. rewrite !app_nil_r. done.
  - destruct (IH (index_listing acc l)) as (t1 & t2 & Ht1 & Ht2 & Hp1 & Hp2).
    destruct (index_listing_values acc l) as (s1 & s2 & Hs1 & Hs2 & Hq1 & Hq2).
    exists (s1 ++ t1), (s2 ++ t2). split_and!.
    + by apply (sublist_app s1 [l] t1 ls).
    + by apply (sublist_app s2 [l] t2 ls).
    + by rewrite Hp1, Hq1, app_assoc.
    + by rewrite Hp2, Hq2, app_assoc.
Qed.

Lemma index_listings_NoDup ls :
  NoDup (map listing_id ls) →
  NoDup (map listing_id (dict_values (fst (index_listings ls))))
  ∧ NoDup (map listing_id (dict_values (snd (index_listings ls)))).
Proof.
  intros Hnd. unfold index_listings.
  destruct (fold_index_listing_values ls ([], [])) as (s1 & s2 & Hs1 & Hs2 & Hp1 & Hp2).
  cbn in Hp1, Hp2. rewrite Hp1, Hp2.
  split; (eapply sublist_NoDup; [exact Hnd|]); by apply (fmap_sublist listing_id).
Qed.

Lemma dict_values_cons k ls d : dict_values ((k, ls) :: d) = ls ++ dict_values d.
Proof. done. Qed.

Lemma claimed_ids_snoc gs g : claimed_ids (gs ++ [g]) = claimed_ids gs ++ listing_ids g.
Proof. unfold claimed_ids. rewrite map_app, concat_app. cbn. by rewrite app_nil_r. Qed.

Lemma claimed_ids_app gs hs : claimed_ids (gs ++ hs) = claimed_ids gs ++ claimed_ids hs.
Proof. unfold claimed_ids. by rewrite map_app, concat_app. Qed.

Lemma fold_add_phone_group d acc :
  claimed_ids (fst (fold_left add_phone_group d acc))
    = claimed_ids (fst acc) ++ map listing_id (dict_values d)
  ∧ snd (fold_left add_phone_group d acc)
    = snd acc ∪ list_to_set (map listing_id (dict_values d))
  ∧ (Forall phone_group_ok (fst acc) →
     Forall phone_group_ok (fst (fold_left add_phone_group d acc))).
Proof.
  revert acc. induction d as [|[k ls] d IH]; intros [gs P]; cbn [fold_left].
  - cbn. rewrite app_nil_r. split_and!; [done|set_solver|done].
  - destruct (IH (add_phone_group (gs, P) (k, ls))) as (IH1 & IH2 & IH3).
    rewrite IH1, IH2. rewrite dict_values_cons, map_app.
    unfold add_phone_group. destruct ls as [|l ls]; cbn [length Nat.leb fst snd].
    + cbn. split_and!; [done|set_solver|].
      intros H. apply IH3. done.
    + rewrite claimed_ids_snoc. cbn [listing_ids]. rewrite <- app_assoc.
      split_and!; [done|rewrite list_to_set_app_L; set_solver|].
      intros H. apply IH3. cbn [length Nat.leb fst]. apply Forall_app. split; [done|].
      apply Forall_singleton. done.
Qed.

Lemma map_filter_unclaimed (P : gset ListingId) ls :
  map listing_id (filter (λ l, listing_id l ∉ P) ls)
  = filter (λ lid, lid ∉ P) (map listing_id ls).
Proof.
  induction ls as [|l ls IH]; [done|]. cbn [map]. rewrite !filter_cons.
  destruct (decide (listing_id l ∉ P)); cbn [map]; by rewrite IH.
Qed.

Lemma filter_ext_elem {A} (P Q : A → Prop) `{!∀ x, Decision (P x), !∀ x, Decision (Q x)}
    (xs : list A) :
  (∀ x, x ∈ xs → (P x ↔ Q x)) → filter P xs = filter Q xs.
Proof.
  induction xs as [|x xs IH]; intros Hext; [done|]. rewrite !filter_cons.
  rewrite IH by (intros y Hy; apply Hext; by right).
  destruct (decide (P x)) as [HP|HP], (decide (Q x)) as [HQ|HQ]; try done.
  - exfalso. apply HQ, Hext; [left|done].
  - exfalso. apply HP, Hext; [left|done].
Qed.

(** The second filter of the host-id loop keeps the listings whose id is
    not yet claimed, and their ids are [new_ids]. *)
Lemma new_listings_unclaimed (P : gset ListingId) ls :
  filter (λ l, listing_id l ∈ filter (λ lid, lid ∉ P) (map listing_id ls)) ls
  = filter (λ l, listing_id l ∉ P) ls.
Proof.
  apply filter_ext_elem. intros l Hl.
  rewrite list_elem_of_filter. split; [by intros [? _]|].
  intros ?. split; [done|]. apply list_elem_of_fmap. eauto.
Qed.

Lemma new_ids_of_new_listings (P : gset ListingId) ls :
  map listing_id
    (filter (λ l, listing_id l ∈ filter (λ lid, lid ∉ P) (map listing_id ls)) ls)
  = filter (λ lid, lid ∉ P) (map listing_id ls).
Proof.
  rewrite new_listings_unclaimed.
  apply map_filter_unclaimed.
Qed.

Lemma add_host_group_step acc k ls :
  NoDup (map listing_id ls) →
  NoDup (claimed_ids (fst acc)) →
  (∀ x, x ∈ claimed_ids (fst acc) → x ∈ snd acc) →
  let acc' := add_host_group acc (k, ls) in
  NoDup (claimed_ids (fst acc'))
  ∧ (∀ x, x ∈ claimed_ids (fst acc') → x ∈ snd acc')
  ∧ snd acc ⊆ snd acc'
  ∧ ∃ hg, fst acc' = fst acc ++ hg ∧ Forall (host_group_ok (snd acc)) hg.
Proof.
  destruct acc as [gs P]. cbn [fst snd]. intros Hls Hgs Hsub.
  unfold add_host_group.
  pose proof (new_ids_of_new_listings P ls) as Hids.
  set (new_ids := filter (λ lid, lid ∉ P) (map listing_id ls)) in *.
  assert (NoDup new_ids) as Hnew by (by apply NoDup_filter).
  assert (∀ x, x ∈ new_ids → x ∉ P) as Hfresh.
  { intros x Hx. unfold new_ids in Hx. by apply list_elem_of_filter in Hx as [? _]. }
  destruct new_ids as [|i new_ids'] eqn:Hn.
  { cbn [fst snd]. split_and!; [done..|]. exists []. by rewrite app_nil_r. }
  rewrite <- Hn in *. clear Hn.
  set (new_listings := filter _ ls) in *.
  destruct new_listings as [|l new_listings'] eqn:Hl.
  { cbn [fst snd]. split_and!; [done..|]. exists []. by rewrite app_nil_r. }
  rewrite <- Hl in *. cbn [fst snd]. rewrite claimed_ids_snoc. cbn [listing_ids].
  split_and!.
  - apply NoDup_app. split_and!; [done| |done].
    intros x Hx Hx'. apply (Hfresh x Hx'). by apply Hsub.
  - intros x [Hx|Hx]%elem_of_app; [apply Hsub in Hx|]; set_solver.
  - set_solver.
  - eexists [_]. split; [done|]. apply Forall_singleton.
    unfold host_group_ok. cbn. split_and!; [done| |done|done].
    rewrite Hl. done.
Qed.

Lemma fold_add_host_group d acc :
  Forall (λ kv, NoDup (map listing_id (snd kv))) d →
  NoDup (claimed_ids (fst acc)) →
  (∀ x, x ∈ claimed_ids (fst acc) → x ∈ snd acc) →
  NoDup (claimed_ids (fst (fold_left add_host_group d acc)))
  ∧ ∃ hg, fst (fold_left add_host_group d acc) = fst acc ++ hg
          ∧ Forall (host_group_ok (snd acc)) hg.
Proof.
  intros Hd. revert acc.
  induction Hd as [|[k ls] d Hls _ IH]; intros acc Hnd Hsub; cbn [fold_left].
  - split; [done|]. exists []. by rewrite app_nil_r.
  - destruct (add_host_group_step acc k ls Hls Hnd Hsub) as (H1 & H2 & H3 & hg & H4 & H5).
    destruct (IH _ H1 H2) as (IH1 & hg' & IH2 & IH3).
    split; [done|]. exists (hg ++ hg'). split.
    + by rewrite IH2, H4, app_assoc.
    + apply Forall_app. split; [done|].
      eapply Forall_impl; [exact IH3|].
      intros g (? & ? & ? & Hg). split_and!; try done.
      intros x Hx Hin. apply (Hg x Hx). by apply H3.
Qed.

Lemma dict_values_NoDup_each d :
  NoDup (map listing_id (dict_values d)) →
  Forall (λ kv, NoDup (map listing_id (snd kv))) d.
Proof.
  induction d as [|[k ls] d IH]; [done|].
  rewrite dict_values_cons, map_app. intros (H1 & _ & H2)%NoDup_app.
  constructor; [done|]. by apply IH.
Qed.

(** The builder's output: the phone groups, then the host-id groups; all
    well formed, and no id claimed twice. *)
Lemma build_owner_groups_spec ls :
  NoDup (map listing_id ls) →
  NoDup (claimed_ids (build_owner_groups ls))
  ∧ Forall phone_group_ok (fst (phone_owner_groups ls))
  ∧ ∃ hg, build_owner_groups ls = fst (phone_owner_groups ls) ++ hg
          ∧ Forall (host_group_ok (snd (phone_owner_groups ls))) hg
          ∧ ∀ x, x ∈ claimed_ids (fst (phone_owner_groups ls))
                 ↔ x ∈ snd (phone_owner_groups ls).
Proof.
  intros Hnd. destruct (index_listings_NoDup ls Hnd) as [Hp Hh].
  unfold build_owner_groups, phone_owner_groups.
  destruct (fold_add_phone_group (fst (index_listings ls)) ([], ∅)) as (P1 & P2 & P3).
  cbn [fst snd claimed_ids map concat app] in P1, P2, P3.
  assert (∀ x, x ∈ claimed_ids (fst (fold_left add_phone_group
                                       (fst (index_listings ls)) ([], ∅)))
               ↔ x ∈ snd (fold_left add_phone_group (fst (index_listings ls)) ([], ∅)))
    as Hclaimed.
  { intros x. rewrite P1, P2. set_solver. }
  destruct (fold_add_host_group (snd (index_listings ls))
              (fold_left add_phone_group (fst (index_listings ls)) ([], ∅)))
    as (H1 & hg & H2 & H3).
  - by apply dict_values_NoDup_each.
  - by rewrite P1.
  - intros x. apply Hclaimed.
  - split_and!; [done|by apply P3|]. exists hg. done.
Qed.

End Grouping.

(** ** The reconciler: primitives *)

Section Primitives.

Context (env : Env).

Lemma store_call_fail {A} o (effect : World → World * A) w st msg :
  fails env (length (calls w)) = Some msg →
  store_call env o effect (w, st)
  = ((log_call {| op := o; error := Some msg |} w, st), Raise msg).
Proof. intros H. unfold store_call. by rewrite H. Qed.

Lemma store_call_ok {A} o (effect : World → World * A) w st :
  fails env (length (calls w)) = None →
  store_call env o effect (w, st)
  = ((log_call {| op := o; error := None |} (effect w).1, st), Ok (effect w).2).
Proof. intros H. unfold store_call. rewrite H. by destruct (effect w). Qed.

Lemma bind_ok {A B} (m : M A) (f : A → M B) s s' a :
  m s = (s', Ok a) → (m ≫= f) s = f a s'.
Proof. intros H. unfold mbind, M_bind. by rewrite H. Qed.

Lemma bind_raise {A B} (m : M A) (f : A → M B) s s' msg :
  m s = (s', Raise msg) → (m ≫= f) s = (s', Raise msg).
Proof. intros H. unfold mbind, M_bind. by rewrite H. Qed.

(** The loop over the listings of a group, whatever fails: it upserts the
    links of a prefix of the listings and touches nothing else. *)
Lemma for_each_upsert oid mt ls w st :
  ∃ k seg r,
    for_each ls (λ l, upsert_link env (link_data oid l mt)) (w, st)
    = (({| scraped_listings := scraped_listings w;
           detected_owners := detected_owners w;
           owner_listings := links_after oid mt (take k ls) (owner_listings w);
           calls := calls w ++ seg;
           clock_reads := clock_reads w;
           stderr := stderr w |}, st), r)
    ∧ Forall is_upsert seg
    ∧ match r with
      | Ok _ => k = length ls ∧ Forall (λ c, error c = None) seg
      | Raise msg =>
          k < length ls ∧ (∃ c, last seg = Some c ∧ error c = Some msg)
          ∧ ∃ n, fails env n = Some msg
      end.
Proof.
  revert w. induction ls as [|l ls IH]; intros w; cbn [for_each].
  - exists 0, [], (Ok ()). rewrite app_nil_r. destruct w. cbn. done.
  - destruct (fails env (length (calls w))) as [msg|] eqn:Hf.
    + exists 0, [{| op := UpsertLink oid (listing_id l); error := Some msg |}], (Raise msg).
      split; [|split].
      * erewrite bind_raise; [|by apply store_call_fail]. done.
      * apply Forall_singleton. done.
      * cbn. split; [lia|]. eauto.
    + erewrite bind_ok; [|by apply store_call_ok]. cbn [fst snd].
      destruct (IH (log_call {| op := UpsertLink oid (listing_id l); error := None |}
                      (set_links (upsert_row (link_data oid l mt) (owner_listings w)) w)))
        as (k & seg & r & Heq & Hseg & Hr).
      exists (S k), ({| op := UpsertLink oid (listing_id l); error := None |} :: seg), r.
      split; [|split].
      * cbn in Heq. cbn. rewrite Heq. by rewrite <- app_assoc.
      * constructor; done.
      * destruct r as [[]|msg].
        -- destruct Hr as [-> Hok]. split; [done|]. by constructor.
        -- destruct Hr as (Hk & (c & Hc & He) & Hn). split; [cbn; lia|].
           split; [|done].
           exists c. split; [|done]. destruct seg; [done|]. done.
Qed.

End Primitives.

(** ** The reconciler: every execution of the [try] block *)

Section SaveGroup.

Context (env : Env).

Lemma datetime_now_run w st :
  datetime_now env (w, st) = ((tick w, st), Ok (now env (clock_reads w))).
Proof. done. Qed.

Lemma modify_stats_run f w st : modify_stats f (w, st) = ((w, f st), Ok ()).
Proof. done. Qed.

(** From the loop over the listings to the end of the body. *)
Lemma tail_exits (g : Group) (oid : OwnerId) (w3 : World) (st3 : Stats) :
  ∃ x seg r,
    (for_each (listings g) (λ l, upsert_link env (link_data oid l (match_type g)));;
     rpc_risk_score env oid;;
     modify_stats bump_total;;
     if 1 <? length (listings g) then modify_stats bump_multi else mret ()) (w3, st3)
    = (({| scraped_listings := scraped_listings w3;
           detected_owners :=
             match x with
             | ExitDone =>
                 set_risk oid
                   (risk env (detected_owners w3)
                      (links_after oid (match_type g) (listings g) (owner_listings w3))
                      oid)
                   (detected_owners w3)
             | _ => detected_owners w3
             end;
           owner_listings :=
             match x with
             | ExitLinks k =>
                 links_after oid (match_type g) (take k (listings g)) (owner_listings w3)
             | _ => links_after oid (match_type g) (listings g) (owner_listings w3)
             end;
           calls := calls w3 ++ seg;
           clock_reads := clock_reads w3;
           stderr := stderr w3 |},
        match x with
        | ExitDone =>
            if 1 <? length (listings g) then bump_multi (bump_total st3)
            else bump_total st3
        | _ => st3
        end), r)
    ∧ match r with Raise msg => ∃ n, fails env n = Some msg | Ok _ => True end
    ∧ match x with
      | ExitLinks k =>
          ∃ msg c, r = Raise msg ∧ k < length (listings g)
                   ∧ Forall is_upsert seg ∧ last seg = Some c ∧ error c = Some msg
      | ExitRpc =>
          ∃ msg useg, r = Raise msg
                      ∧ seg = useg ++ [{| op := RpcRiskScore oid; error := Some msg |}]
                      ∧ Forall is_upsert useg ∧ Forall (λ c, error c = None) useg
      | ExitDone =>
          ∃ useg, r = Ok ()
                  ∧ seg = useg ++ [{| op := RpcRiskScore oid; error := None |}]
                  ∧ Forall is_upsert useg ∧ Forall (λ c, error c = None) useg
      | _ => False
      end.
Proof.
  destruct (for_each_upsert env oid (match_type g) (listings g) w3 st3)
    as (k & useg & r1 & Heq & Hup & Hr).
  destruct r1 as [[]|msg].
  - destruct Hr as [-> Hok]. rewrite firstn_all in Heq.
    erewrite bind_ok; [|exact Heq].
    lazymatch goal with |- ∃ _ _ _, _ (?w, _) = _ ∧ _ => set (w4 := w) end.
    destruct (fails env (length (calls w4))) as [msg|] eqn:Hf.
    + erewrite bind_raise; [|by apply store_call_fail].
      exists ExitRpc, (useg ++ [{| op := RpcRiskScore oid; error := Some msg |}]),
        (Raise msg).
      split; [|split; [eauto|eauto 10]].
      unfold log_call, w4. cbn. by rewrite <- app_assoc.
    + erewrite bind_ok; [|by apply store_call_ok].
      erewrite bind_ok; [|apply modify_stats_run].
      exists ExitDone, (useg ++ [{| op := RpcRiskScore oid; error := None |}]), (Ok ()).
      split; [|split; [done|eauto 10]].
      destruct (1 <? length (listings g));
        unfold log_call, set_owners, w4; cbn; by rewrite <- app_assoc.
  - destruct Hr as (Hk & (c & Hc & He) & Hn).
    erewrite bind_raise; [|exact Heq].
    exists (ExitLinks k), useg, (Raise msg). split; [done|]. split; [done|eauto 10].
Qed.

(** The lookup of lines 202-206. *)
Lemma lookup_runs (g : Group) (w : World) (st : Stats) :
  let m : M (option OwnerId) :=
    if bool_decide (match_type g = phone_match) && Py.truthy (identifier g) then
      rows ← select_owner_by_phone env (identifier g); mret (head rows)
    else mret None in
  (∃ msg, group_lookup g = true
          ∧ fails env (length (calls w)) = Some msg
          ∧ m (tick w, st)
            = ((log_call {| op := SelectOwnerByPhone (identifier g); error := Some msg |}
                  (tick w), st), Raise msg))
  ∨ m (tick w, st)
    = (({| scraped_listings := scraped_listings w;
           detected_owners := detected_owners w;
           owner_listings := owner_listings w;
           calls := calls w ++ lookup_calls g;
           clock_reads := S (clock_reads w);
           stderr := stderr w |}, st), Ok (group_existing g w)).
Proof.
  intros m. unfold m, group_existing, lookup_calls, group_lookup.
  destruct (bool_decide (match_type g = phone_match) && Py.truthy (identifier g)).
  - destruct (fails env (length (calls w))) as [msg|] eqn:Hf.
    + left. exists msg. split; [done|]. split; [done|].
      erewrite bind_raise; [done|]. by apply store_call_fail.
    + right. erewrite bind_ok; [|by apply store_call_ok]. done.
  - right. unfold mret, M_ret, tick. cbn. by rewrite app_nil_r.
Qed.

(** Every execution of the body of the [try] block leaves through one of
    the five exits, in the state described for that exit. *)
Lemma save_body_exits (g : Group) (w : World) (st : Stats) :
  ∃ x seg r,
    save_body env g (group_avg g) (w, st)
    = ((exit_world env g w x seg, exit_stats g w x st), r)
    ∧ exit_calls g w x seg r
    ∧ match r with Raise msg => ∃ n, fails env n = Some msg | Ok _ => True end.
Proof.
  unfold save_body.
  erewrite bind_ok; [|apply datetime_now_run].
  fold (group_owner_data env g w).
  destruct (lookup_runs g w st) as [(msg & Hl & Hf & Heq)|Heq].
  { erewrite bind_raise; [|exact Heq].
    exists ExitLookup, [{| op := SelectOwnerByPhone (identifier g); error := Some msg |}],
      (Raise msg).
    split; [done|]. split; [|eauto]. cbn. eauto. }
  erewrite bind_ok; [|exact Heq]. clear Heq.
  set (w2 := {| scraped_listings := scraped_listings w;
                detected_owners := detected_owners w;
                owner_listings := owner_listings w;
                calls := calls w ++ lookup_calls g;
                clock_reads := S (clock_reads w);
                stderr := stderr w |}).
  destruct (group_existing g w) as [e|] eqn:Hex.
  - (* an owner with this phone exists: update *)
    destruct (fails env (length (calls w2))) as [msg|] eqn:Hf.
    + erewrite bind_raise;
        [|erewrite bind_raise; [done|by apply store_call_fail]].
      exists ExitWrite, (lookup_calls g ++ [{| op := UpdateOwner e; error := Some msg |}]),
        (Raise msg).
      split; [|split; [|eauto]].
      * unfold exit_world, exit_clock, exit_stats. cbn. rewrite Hex.
        unfold log_call, w2. cbn. by rewrite <- app_assoc.
      * cbn. unfold write_op. rewrite Hex. eauto.
    + erewrite bind_ok;
        [|erewrite bind_ok; [|by apply store_call_ok];
          erewrite bind_ok; [|apply modify_stats_run]; done].
      cbn [fst snd].
      match goal with |- ∃ _ _ _, _ (?w, ?s) = _ ∧ _ => set (w3 := w); set (st3 := s) end.
      destruct (tail_exits g e w3 st3) as (x & seg & r & Heq & Hfault & Hcalls).
      rewrite Heq.
      exists x, (lookup_calls g ++ [{| op := UpdateOwner e; error := None |}] ++ seg), r.
      split; [|split; [|done]].
      * unfold exit_world, exit_owners, exit_links, exit_clock, exit_stats,
          owners_scored, links_written, owners_written, group_owner_id, bump_written.
        rewrite Hex. unfold w3, st3, log_call, set_owners, w2. cbn.
        destruct x; try done; cbn; by rewrite <- !app_assoc.
      * unfold exit_calls, write_op, group_owner_id. rewrite Hex.
        destruct x; try done.
        -- destruct Hcalls as (msg & c & -> & Hk & Hup & Hlast & Herr).
           exists msg, seg, c. done.
        -- destruct Hcalls as (msg & useg & -> & -> & Hup & Hok).
           exists msg, useg. done.
        -- destruct Hcalls as (useg & -> & -> & Hup & Hok).
           exists useg. done.
  - (* no owner with this phone, or a host-id group: insert *)
    destruct (fails env (length (calls w2))) as [msg|] eqn:Hf.
    + erewrite bind_raise;
        [|erewrite bind_ok; [|apply datetime_now_run];
          erewrite bind_raise; [done|by apply store_call_fail]].
      exists ExitWrite, (lookup_calls g ++ [{| op := InsertOwner; error := Some msg |}]),
        (Raise msg).
      split; [|split; [|eauto]].
      * unfold exit_world, exit_clock, exit_stats. cbn. rewrite Hex.
        unfold log_call, w2. cbn. by rewrite <- app_assoc.
      * cbn. unfold write_op. rewrite Hex. eauto.
    + erewrite bind_ok;
        [|erewrite bind_ok; [|apply datetime_now_run];
          erewrite bind_ok; [|by apply store_call_ok];
          erewrite bind_ok; [|apply modify_stats_run]; done].
      cbn [fst snd].
      change (detected_owners (tick w2)) with (detected_owners w).
      match goal with |- ∃ _ _ _, _ (?w, ?s) = _ ∧ _ => set (w3 := w); set (st3 := s) end.
      destruct (tail_exits g (fresh_id (detected_owners w)) w3 st3)
        as (x & seg & r & Heq & Hfault & Hcalls).
      rewrite Heq.
      exists x, (lookup_calls g ++ [{| op := InsertOwner; error := None |}] ++ seg), r.
      split; [|split; [|done]].
      * unfold exit_world, exit_owners, exit_links, exit_clock, exit_stats,
          owners_scored, links_written, owners_written, group_owner_id, bump_written.
        rewrite Hex. unfold w3, st3, log_call, set_owners, w2. cbn.
        destruct x; try done; cbn; by rewrite <- !app_assoc.
      * unfold exit_calls, write_op, group_owner_id. rewrite Hex.
        destruct x; try done.
        -- destruct Hcalls as (msg & c & -> & Hk & Hup & Hlast & Herr).
           exists msg, seg, c. done.
        -- destruct Hcalls as (msg & useg & -> & -> & Hup & Hok).
           exists msg, useg. done.
        -- destruct Hcalls as (useg & -> & -> & Hup & Hok).
           exists useg. done.
Qed.

(** The division of line 176 raises only for a quotient beyond the range
    of a float. *)
Lemma avg_price_raises t msg : avg_price t = Raise msg → msg = overflow_text.
Proof.
  unfold avg_price, Py.int_truediv.
  destruct (0 <? price_count t)%Z eqn:Hc; [|done].
  apply Z.ltb_lt in Hc. rewrite (proj2 (Z.eqb_neq _ 0)) by lia.
  destruct (total_price t =? 0)%Z; [done|].
  destruct (Py.int_truediv_pos _ _); [done|]. by intros [= <-].
Qed.

Lemma averaged_Ok g : averaged g ↔ avg_price (tally (listings g)) = Ok (group_avg g).
Proof.
  unfold averaged, group_avg. destruct (avg_price (tally (listings g))); split; done.
Qed.

Lemma not_averaged g :
  ¬ averaged g ↔ avg_price (tally (listings g)) = Raise overflow_text.
Proof.
  unfold averaged. destruct (avg_price (tally (listings g))) as [a|msg] eqn:Ha.
  - split; [by intros []|done].
  - apply avg_price_raises in Ha as ->. split; done.
Qed.

(** A block whose division raises leaves the state as it was. *)
Lemma save_group_raises g s :
  ¬ averaged g → save_group env g s = (s, Raise overflow_text).
Proof.
  intros Ha%not_averaged. unfold save_group.
  erewrite bind_raise; [done|]. unfold lift. by rewrite Ha.
Qed.

Lemma save_group_averaged g s :
  averaged g → save_group env g s = save_body env g (group_avg g) s.
Proof.
  intros Ha%averaged_Ok. unfold save_group.
  erewrite bind_ok; [done|]. unfold lift. by rewrite Ha.
Qed.

(** Every execution of the [try] block: the division raises, or the block
    leaves through one of the five exits. *)
Lemma save_group_exits (g : Group) (w : World) (st : Stats) :
  (¬ averaged g ∧ save_group env g (w, st) = ((w, st), Raise overflow_text))
  ∨ (averaged g
     ∧ ∃ x seg r,
         save_group env g (w, st)
         = ((exit_world env g w x seg, exit_stats g w x st), r)
         ∧ exit_calls g w x seg r
         ∧ match r with Raise msg => ∃ n, fails env n = Some msg | Ok _ => True end).
Proof.
  destruct (averaged_dec g) as [Ha|Ha].
  - right. split; [done|]. rewrite (save_group_averaged g _ Ha). apply save_body_exits.
  - left. split; [done|]. by apply save_group_raises.
Qed.

End SaveGroup.

(** ** The reconciler: a failing group does not stop the run *)

Section PartialFailure.

Context (env : Env).

Lemma inserted_app s1 s2 : inserted (s1 ++ s2) = inserted s1 + inserted s2.
Proof. unfold inserted. by rewrite filter_app, length_app. Qed.

Lemma updated_app s1 s2 : updated (s1 ++ s2) = updated s1 + updated s2.
Proof. unfold updated. by rewrite filter_app, length_app. Qed.

Lemma upserts_not_counted seg :
  Forall is_upsert seg → inserted seg = 0 ∧ updated seg = 0.
Proof.
  unfold inserted, updated. induction 1 as [|c seg Hc _ [IH1 IH2]]; [done|].
  rewrite filter_cons_False.
  2:{ intros [Hop _]. unfold is_upsert in Hc. by rewrite Hop in Hc. }
  rewrite filter_cons_False.
  2:{ intros [Hop _]. unfold is_upsert in Hc. unfold is_update in Hop.
      by destruct (op c). }
  done.
Qed.

Lemma lookup_not_counted p err :
  inserted [{| op := SelectOwnerByPhone p; error := err |}] = 0
  ∧ updated [{| op := SelectOwnerByPhone p; error := err |}] = 0.
Proof.
  unfold inserted, updated. by rewrite !filter_cons_False by (by intros [? ?]).
Qed.

Lemma rpc_not_counted oid err :
  inserted [{| op := RpcRiskScore oid; error := err |}] = 0
  ∧ updated [{| op := RpcRiskScore oid; error := err |}] = 0.
Proof.
  unfold inserted, updated. by rewrite !filter_cons_False by (by intros [? ?]).
Qed.

Lemma lookup_calls_not_counted g :
  inserted (lookup_calls g) = 0 ∧ updated (lookup_calls g) = 0.
Proof.
  unfold lookup_calls. destruct (group_lookup g); [apply lookup_not_counted|done].
Qed.

Lemma write_counted g w :
  inserted [{| op := write_op g w; error := None |}]
  + updated [{| op := write_op g w; error := None |}] = 1.
Proof.
  unfold write_op, inserted, updated.
  destruct (group_existing g w);
    repeat (first [rewrite filter_cons_True by done
                  |rewrite filter_cons_False by (by intros [? ?])]); done.
Qed.

Lemma failed_write_not_counted g w msg :
  inserted [{| op := write_op g w; error := Some msg |}] = 0
  ∧ updated [{| op := write_op g w; error := Some msg |}] = 0.
Proof.
  unfold inserted, updated. by rewrite !filter_cons_False by (by intros [? ?]).
Qed.

Lemma bump_written_counts g w st :
  new_owners (bump_written g w st)
  = new_owners st + inserted [{| op := write_op g w; error := None |}]
  ∧ updated_owners (bump_written g w st)
    = updated_owners st + updated [{| op := write_op g w; error := None |}]
  ∧ total_owners (bump_written g w st) = total_owners st
  ∧ multi_property (bump_written g w st) = multi_property st.
Proof.
  unfold bump_written, write_op, inserted, updated.
  destruct (group_existing g w).
  - rewrite filter_cons_False by (by intros [? _]).
    rewrite filter_cons_True by done. cbn. split_and!; lia.
  - rewrite filter_cons_True by done.
    rewrite filter_cons_False by (by intros [? _]). cbn. split_and!; lia.
Qed.

(** One iteration of the loop: what the handler and the counters do. *)
Lemma try_save_group_step g w st :
  let r := snd (save_group env g (w, st)) in
  let s' := try_save_group env (w, st) g in
  stderr (fst s') = stderr w ++ error_lines [r]
  ∧ total_owners (snd s') = total_owners st + (if is_ok r then 1 else 0)
  ∧ multi_property (snd s')
    = multi_property st
      + (if is_ok r && bool_decide (1 < length (listings g)) then 1 else 0)
  ∧ (∃ seg, calls (fst s') = calls w ++ seg
            ∧ new_owners (snd s') = new_owners st + inserted seg
            ∧ updated_owners (snd s') = updated_owners st + updated seg
            ∧ (if is_ok r then 1 else 0) ≤ inserted seg + updated seg ≤ 1)
  ∧ (∀ msg, r = Raise msg →
       (∃ n, fails env n = Some msg) ∨ (msg = overflow_text ∧ ¬ averaged g)).
Proof.
  intros r s'. subst r s'. unfold try_save_group.
  destruct (save_group_exits env g w st)
    as [[Hna Heq]|(Ha & x & seg & r & Heq & Hcalls & Hfault)].
  { rewrite Heq. cbn. split_and!; try done; try lia.
    - exists []. rewrite app_nil_r. cbn. split_and!; done || lia.
    - intros ? [= <-]. by right. }
  rewrite Heq. cbn [fst snd].
  destruct (lookup_calls_not_counted g) as [Hl1 Hl2].
  destruct (bump_written_counts g w st) as (Hb1 & Hb2 & Hb3 & Hb4).
  pose proof (write_counted g w) as Hw.
  destruct (rpc_not_counted (group_owner_id g w) None) as [Hr1 Hr2].
  destruct x; unfold exit_calls in Hcalls.
  - destruct Hcalls as (msg & -> & Hlk & ->).
    cbn [stderr exit_world exit_stats is_ok error_lines omap list_omap andb fst snd
           calls eprint].
    split_and!; try done; try lia.
    + eexists. split; [done|].
      destruct (lookup_not_counted (identifier g) (Some msg)) as [-> ->]. lia.
    + intros ? [= <-]. by left.
  - destruct Hcalls as (msg & -> & ->).
    cbn [stderr exit_world exit_stats is_ok error_lines omap list_omap andb fst snd
           calls eprint].
    split_and!; try done; try lia.
    + eexists. split; [done|].
      rewrite inserted_app, updated_app, Hl1, Hl2.
      destruct (failed_write_not_counted g w msg) as [-> ->]. lia.
    + intros ? [= <-]. by left.
  - destruct Hcalls as (msg & useg & c & -> & Hk & -> & Hup & Hlast & Herr).
    destruct (upserts_not_counted _ Hup) as [Hu1 Hu2].
    cbn [stderr exit_world exit_stats is_ok error_lines omap list_omap andb fst snd
           calls eprint].
    split_and!; try done; try lia.
    + eexists. split; [done|].
      rewrite !inserted_app, !updated_app, Hl1, Hl2, Hu1, Hu2. lia.
    + intros ? [= <-]. by left.
  - destruct Hcalls as (msg & useg & -> & -> & Hup & Hok).
    destruct (upserts_not_counted _ Hup) as [Hu1 Hu2].
    destruct (rpc_not_counted (group_owner_id g w) (Some msg)) as [Hq1 Hq2].
    cbn [stderr exit_world exit_stats is_ok error_lines omap list_omap andb fst snd
           calls eprint].
    split_and!; try done; try lia.
    + eexists. split; [done|].
      rewrite !inserted_app, !updated_app, Hl1, Hl2, Hu1, Hu2, Hq1, Hq2. lia.
    + intros ? [= <-]. by left.
  - destruct Hcalls as (useg & -> & -> & Hup & Hok).
    destruct (upserts_not_counted _ Hup) as [Hu1 Hu2].
    cbn [stderr exit_world exit_stats is_ok error_lines omap list_omap andb fst snd
           calls eprint].
    rewrite app_nil_r.
    destruct (1 <? length (listings g)) eqn:Hm.
    + apply Nat.ltb_lt in Hm. rewrite bool_decide_eq_true_2 by done.
      cbn [total_owners multi_property new_owners updated_owners bump_multi bump_total].
      split_and!; try done; try lia.
      eexists. split; [done|].
      rewrite !inserted_app, !updated_app, Hl1, Hl2, Hu1, Hu2, Hr1, Hr2. lia.
    + apply Nat.ltb_ge in Hm. rewrite bool_decide_eq_false_2 by lia.
      cbn [total_owners multi_property new_owners updated_owners bump_multi bump_total].
      split_and!; try done; try lia.
      eexists. split; [done|].
      rewrite !inserted_app, !updated_app, Hl1, Hl2, Hu1, Hu2, Hr1, Hr2. lia.
Qed.

Lemma saved_cons g gs r outs :
  saved (g :: gs) (r :: outs) = (if is_ok r then [g] else []) ++ saved gs outs.
Proof.
  unfold saved. cbn [zip zip_with]. rewrite filter_cons. cbn [snd].
  destruct (is_ok r); [rewrite decide_True by done|rewrite decide_False by done]; done.
Qed.

(** The loop of [save_owners_to_db] from any state. *)
Lemma run_from gs w st :
  let outs := outcomes env gs (w, st) in
  let s' := fold_left (try_save_group env) gs (w, st) in
  length outs = length gs
  ∧ length (saved gs outs) + length (error_lines outs) = length gs
  ∧ stderr (fst s') = stderr w ++ error_lines outs
  ∧ total_owners (snd s') = total_owners st + length (saved gs outs)
  ∧ multi_property (snd s') = multi_property st + length (multi (saved gs outs))
  ∧ (∃ seg, calls (fst s') = calls w ++ seg
            ∧ new_owners (snd s') = new_owners st + inserted seg
            ∧ updated_owners (snd s') = updated_owners st + updated seg
            ∧ length (saved gs outs) ≤ inserted seg + updated seg ≤ length gs)
  ∧ (∀ msg, Raise msg ∈ outs →
       (∃ n, fails env n = Some msg)
       ∨ (msg = overflow_text ∧ ∃ g, g ∈ gs ∧ ¬ averaged g)).
Proof.
  revert w st. induction gs as [|g gs IH]; intros w st; cbn [outcomes fold_left].
  - cbn. rewrite app_nil_r. split_and!; try done; try lia.
    + exists []. rewrite app_nil_r. cbn. split_and!; done || lia.
    + intros msg H. by apply elem_of_nil in H.
  - destruct (try_save_group_step g w st) as (S1 & S2 & S3 & (seg1 & S4 & S5 & S6 & S7) & S8).
    destruct (try_save_group env (w, st) g) as [w1 st1] eqn:Hstep.
    cbn [fst snd] in *.
    destruct (IH w1 st1) as (I0 & Iacc & I1 & I2 & I3 & (seg2 & I4 & I5 & I6 & I7) & I8).
    set (r := (save_group env g (w, st)).2) in *.
    rewrite saved_cons. unfold multi. rewrite filter_app, !length_app.
    fold (multi (saved gs (outcomes env gs (w1, st1)))).
    split_and!.
    + cbn. by rewrite I0.
    + unfold error_lines in *. cbn [omap list_omap].
      destruct r; cbn in *; lia.
    + rewrite I1, S1. unfold error_lines. cbn [omap list_omap].
      destruct r; cbn; by rewrite <- ?app_assoc.
    + rewrite I2, S2. destruct (is_ok r); cbn; lia.
    + rewrite I3, S3. destruct (is_ok r); cbn [andb]; [|cbn; lia].
      rewrite filter_cons, filter_nil. case_bool_decide.
      * rewrite decide_True by done. cbn. lia.
      * rewrite decide_False by done. cbn. lia.
    + exists (seg1 ++ seg2). rewrite I4, S4, I5, S5, I6, S6.
      rewrite inserted_app, updated_app, <- app_assoc.
      split_and!; try done; try lia.
      * destruct (is_ok r); cbn in *; lia.
      * cbn. lia.
    + intros msg [Hm|Hm]%elem_of_cons.
      * destruct (S8 msg) as [?|[-> ?]]; [done|by left|].
        right. split; [done|]. exists g. split; [left|done].
      * destruct (I8 msg Hm) as [?|[-> (g' & ? & ?)]]; [by left|].
        right. split; [done|]. exists g'. split; [by right|done].
Qed.

End PartialFailure.

(** C9, as the code has it.  The run over any sequence of groups returns,
    whatever store calls fail and whatever division overflows.  Every group
    is tried and is either counted in [total_owners] or reported by one line
    on standard error, made of a fixed prefix and the text of the exception
    (the identifier of the group is not part of it).  An exception is the
    failure of a store call or the overflow of the division of line 176 in
    a group of the run.
    [total_owners] and [multi_property] count the groups whose block ended
    without an exception; [new_owners] and [updated_owners] count the
    inserts and updates of owner rows that went through, so a group whose
    owner row was written but whose links or score failed is counted there
    and not in [total_owners]. *)
Theorem save_owners_to_db_survives_failures (env : Env) (gs : list Group) (w : World) :
  let outs := outcomes env gs (w, zero_stats) in
  let w' := fst (save_owners_to_db env gs w) in
  let stats := snd (save_owners_to_db env gs w) in
  length outs = length gs
  ∧ total_owners stats + length (error_lines outs) = length gs
  ∧ stderr w' = stderr w ++ error_lines outs
  ∧ total_owners stats = length (saved gs outs)
  ∧ multi_property stats = length (multi (saved gs outs))
  ∧ (∃ seg, calls w' = calls w ++ seg
            ∧ new_owners stats = inserted seg
            ∧ updated_owners stats = updated seg
            ∧ total_owners stats ≤ new_owners stats + updated_owners stats ≤ length gs)
  ∧ (∀ msg, Raise msg ∈ outs →
       (∃ n, fails env n = Some msg)
       ∨ (msg = overflow_text ∧ ∃ g, g ∈ gs ∧ ¬ averaged g)).
Proof.
  intros outs w' stats. subst outs w' stats. unfold save_owners_to_db.
  destruct (run_from env gs w zero_stats)
    as (H0 & Hacc & H1 & H2 & H3 & (seg & H4 & H5 & H6 & H7) & H8).
  cbn in H2, H3, H5, H6.
  split_and!; try done.
  - by rewrite H2.
  - exists seg. rewrite H2, H5, H6. done.
Qed.

(** ** At most one link per listing after a run on an empty store *)

Section LinksOfARun.

Context (env : Env).

Lemma upsert_row_fresh r links :
  scraped_listing_id r ∉ map scraped_listing_id links →
  upsert_row r links = links ++ [r].
Proof.
  induction links as [|x links IH]; intros Hr; [done|].
  cbn [upsert_row]. rewrite decide_False.
  - cbn. f_equal. apply IH. intros H. apply Hr. by right.
  - intros [_ Hx]. apply Hr. rewrite <- Hx. by left.
Qed.

Lemma links_after_cons oid mt l ls links :
  links_after oid mt (l :: ls) links
  = links_after oid mt ls (upsert_row (link_data oid l mt) links).
Proof. done. Qed.

Lemma links_after_fresh oid mt ls links :
  NoDup (map scraped_listing_id links ++ map listing_id ls) →
  map scraped_listing_id (links_after oid mt ls links)
  = map scraped_listing_id links ++ map listing_id ls.
Proof.
  revert links. induction ls as [|l ls IH]; intros links Hnd.
  - cbn. by rewrite app_nil_r.
  - rewrite links_after_cons. cbn [map].
    apply NoDup_app in Hnd as (H1 & H2 & H3).
    rewrite upsert_row_fresh.
    2:{ intros Hin. apply (H2 _ Hin). by left. }
    rewrite IH.
    + rewrite map_app. cbn. by rewrite <- app_assoc.
    + rewrite map_app. cbn. rewrite <- app_assoc. cbn.
      apply NoDup_app. split_and!; [done| |done].
      intros x Hx. by apply H2.
Qed.

(** Whatever fails, a group upserts the links of a prefix of its listings. *)
Lemma try_save_group_links g w st :
  ∃ oid k,
    owner_listings (fst (try_save_group env (w, st) g))
    = links_after oid (match_type g) (take k (listings g)) (owner_listings w).
Proof.
  unfold try_save_group.
  destruct (save_group_exits env g w st)
    as [[_ Heq]|(_ & x & seg & r & Heq & Hcalls & _)].
  { rewrite Heq. by exists 0, 0. }
  rewrite Heq.
  assert (∃ oid k, exit_links g w x
                   = links_after oid (match_type g) (take k (listings g))
                       (owner_listings w)) as (oid & k & Hx).
  { destruct x; cbn.
    - by exists 0, 0.
    - by exists 0, 0.
    - by eexists _, _.
    - exists (group_owner_id g w), (length (listings g)).
      by rewrite firstn_all.
    - exists (group_owner_id g w), (length (listings g)).
      by rewrite firstn_all. }
  exists oid, k. rewrite <- Hx. by destruct r.
Qed.

Lemma run_links gs w st :
  Forall (λ g, listing_ids g = map listing_id (listings g)) gs →
  NoDup (map scraped_listing_id (owner_listings w) ++ claimed_ids gs) →
  NoDup (map scraped_listing_id
           (owner_listings (fst (fold_left (try_save_group env) gs (w, st))))).
Proof.
  intros Hok. revert w st.
  induction Hok as [|g gs Hg _ IH]; intros w st Hnd; cbn [fold_left].
  - cbn in Hnd. by rewrite app_nil_r in Hnd.
  - destruct (try_save_group_links g w st) as (oid & k & Hl).
    destruct (try_save_group env (w, st) g) as [w1 st1]. cbn [fst] in Hl.
    apply IH. rewrite Hl.
    unfold claimed_ids in Hnd. cbn [map concat] in Hnd. rewrite Hg in Hnd.
    fold (claimed_ids gs) in Hnd.
    rewrite links_after_fresh.
    + rewrite <- app_assoc.
      eapply sublist_NoDup; [exact Hnd|].
      apply sublist_app; [done|]. apply sublist_app; [|done].
      apply (fmap_sublist listing_id), sublist_take.
    + eapply sublist_NoDup; [exact Hnd|].
      apply sublist_app; [done|]. apply sublist_inserts_r.
      apply (fmap_sublist listing_id), sublist_take.
Qed.

End LinksOfARun.

(** C1. On listings with pairwise distinct ids, no id is claimed by two
    clusters (nor twice by one): the phone clusters come first and are not
    empty; the host-id clusters follow, hold only listings that no phone
    cluster claimed, and are not empty.  Hence a run on a store without
    owners and links, whatever store calls fail, leaves at most one link per
    listing. *)
Theorem one_cluster_per_listing :
  (∀ ls, NoDup (map listing_id ls) →
     NoDup (claimed_ids (build_owner_groups ls))
     ∧ Forall phone_group_ok (fst (phone_owner_groups ls))
     ∧ ∃ hg, build_owner_groups ls = fst (phone_owner_groups ls) ++ hg
             ∧ Forall (host_group_ok (snd (phone_owner_groups ls))) hg
             ∧ ∀ x, x ∈ claimed_ids (fst (phone_owner_groups ls))
                    ↔ x ∈ snd (phone_owner_groups ls))
  ∧ (∀ env w,
       NoDup (map listing_id (scraped_listings w)) →
       detected_owners w = [] → owner_listings w = [] →
       NoDup (map scraped_listing_id (owner_listings (fst (detect_owners env w))))).
Proof.
  split; [apply build_owner_groups_spec|].
  intros env w Hnd Hos Hls. unfold detect_owners.
  cbn [calls eprint].
  destruct (fails env (length (calls w))) as [msg|]; cbn [fst].
  { cbn. rewrite Hls. constructor. }
  set (ls := filter (λ l, is_active l = true) (scraped_listings w)).
  assert (NoDup (map listing_id ls)) as Hact.
  { eapply sublist_NoDup; [exact Hnd|]. apply (fmap_sublist listing_id), sublist_filter. }
  destruct (build_owner_groups_spec ls Hact) as (Hclaim & Hpg & hg & Heq & Hhg & _).
  unfold save_owners_to_db.
  match goal with |- context [fold_left _ _ (?w0, _)] => set (w1 := w0) end.
  pose proof (run_links env (build_owner_groups ls) w1 zero_stats) as Hrun.
  destruct (fold_left _ _ _) as [w' stats]. cbn [fst] in *.
  apply Hrun.
  - rewrite Heq. apply Forall_app. split.
    + eapply Forall_impl; [exact Hpg|]. by intros g (_ & _ & ?).
    + eapply Forall_impl; [exact Hhg|]. by intros g (_ & _ & ? & _).
  - unfold w1. cbn. rewrite Hls. done.
Qed.

(** ** The owner aggregator *)

Section Aggregator.

Lemma positive_prices_cons l ls :
  Spec.positive_prices (l :: ls)
  = match price l with
    | Some p => if decide (0 < p)%Z then p :: Spec.positive_prices ls
                else Spec.positive_prices ls
    | None => Spec.positive_prices ls
    end.
Proof.
  unfold Spec.positive_prices. cbn [omap list_omap].
  destruct (price l) as [p|]; [|done]. by rewrite filter_cons.
Qed.

Lemma tally_totals ls t :
  total_price (fold_left tally_listing ls t)
  = (total_price t + sum_prices (Spec.positive_prices ls))%Z
  ∧ price_count (fold_left tally_listing ls t)
    = (price_count t + Z.of_nat (length (Spec.positive_prices ls)))%Z.
Proof.
  revert t. induction ls as [|l ls IH]; intros t; cbn [fold_left].
  - cbn. lia.
  - destruct (IH (tally_listing t l)) as [-> ->].
    rewrite positive_prices_cons. unfold tally_listing. cbn [total_price price_count].
    destruct (price l) as [p|]; [|done].
    destruct (decide (0 < p)%Z) as [Hp|Hp].
    + rewrite (proj2 (Z.ltb_lt 0 p)) by done.
      rewrite (proj2 (Z.eqb_neq p 0)) by lia.
      cbn [negb andb sum_prices foldr length]. fold (sum_prices (Spec.positive_prices ls)).
      lia.
    + rewrite (proj2 (Z.ltb_ge 0 p)) by lia. rewrite andb_false_r. done.
Qed.

Lemma positive_prices_positive ls : Forall (λ p, (0 < p)%Z) (Spec.positive_prices ls).
Proof.
  apply Forall_forall. intros p Hp. unfold Spec.positive_prices in Hp.
  by apply list_elem_of_filter in Hp as [? _].
Qed.

Lemma sum_prices_nonneg ps : Forall (λ p, (0 < p)%Z) ps → (0 ≤ sum_prices ps)%Z.
Proof. unfold sum_prices. induction 1; cbn [foldr]; lia. Qed.

Lemma Qfloor_quotient (a : Z) (b : positive) :
  Qfloor (inject_Z a / inject_Z (Z.pos b)) = (a / Z.pos b)%Z.
Proof.
  unfold Qdiv, Qinv, Qmult, inject_Z, Qfloor. cbn.
  by rewrite Z.mul_1_r.
Qed.

(** *** The division of line 176 *)

Lemma quotient_exponent_spec (a b : Z) :
  (0 < b)%Z → (b ≤ a)%Z →
  (0 ≤ Py.quotient_exponent a b)%Z
  ∧ (b * 2 ^ Py.quotient_exponent a b ≤ a)%Z
  ∧ (a < b * 2 ^ (Py.quotient_exponent a b + 1))%Z.
Proof.
  intros Hb Hab. unfold Py.quotient_exponent.
  pose proof (Z.log2_spec a ltac:(lia)) as [Ha1 Ha2].
  pose proof (Z.log2_spec b Hb) as [Hb1 Hb2].
  rewrite <- Z.add_1_r in Ha2, Hb2.
  pose proof (Z.log2_nonneg b) as Hlb.
  pose proof (Z.log2_le_mono b a Hab) as Hle.
  set (la := Z.log2 a) in *. set (lb := Z.log2 b) in *.
  set (e0 := (la - lb)%Z). assert (0 ≤ e0)%Z as He0 by (unfold e0; lia).
  cbn zeta. rewrite (proj2 (Z.leb_le 0 e0)) by done.
  assert (2 ^ (la + 1) = 2 ^ lb * 2 ^ (e0 + 1))%Z as Hp1.
  { rewrite <- Z.pow_add_r by lia. f_equal. unfold e0. lia. }
  destruct (b * 2 ^ e0 <=? a)%Z eqn:Ht.
  - apply Z.leb_le in Ht. split; [done|]. split; [done|].
    pose proof (Z.pow_pos_nonneg 2 (e0 + 1) ltac:(lia) ltac:(lia)). nia.
  - apply Z.leb_gt in Ht.
    assert (1 ≤ e0)%Z as He1.
    { destruct (Z.eq_dec e0 0%Z) as [H0|H0]; [|lia]. rewrite H0 in Ht. cbn in Ht. lia. }
    split; [lia|]. replace (e0 - 1 + 1)%Z with e0 by lia. split; [|done].
    assert (2 ^ la = 2 ^ (lb + 1) * 2 ^ (e0 - 1))%Z as Hp2.
    { rewrite <- Z.pow_add_r by lia. f_equal. unfold e0. lia. }
    pose proof (Z.pow_pos_nonneg 2 (e0 - 1) ltac:(lia) ltac:(lia)). nia.
Qed.

(** Below 2^53 the float quotient has the integer part of the exact one:
    rounding to 53 bits cannot reach the next integer. *)
Lemma int_truediv_pos_exact (a b : Z) :
  (0 < b)%Z → (b ≤ a)%Z → (a < 2 ^ 53)%Z →
  Py.int_truediv_pos a b = Some (a / b)%Z.
Proof.
  intros Hb Hab Ha. destruct (quotient_exponent_spec a b Hb Hab) as (He & Hlo & Hhi).
  unfold Py.int_truediv_pos. cbn zeta.
  set (e := Py.quotient_exponent a b) in *.
  assert (e ≤ 52)%Z as He52.
  { destruct (Z_lt_le_dec 52%Z e) as [H|H]; [|lia]. exfalso.
    assert (2 ^ 53 ≤ 2 ^ e)%Z by (apply Z.pow_le_mono_r; lia). nia. }
  destruct (0 <=? e - 52)%Z eqn:Hs.
  - apply Z.leb_le in Hs. assert (e = 52%Z) as He' by lia. rewrite He' in *.
    replace (52 - 52)%Z with 0%Z by lia. rewrite Z.pow_0_r, !Z.mul_1_r.
    assert (b = 1%Z) as -> by (change (2 ^ 53)%Z with (2 * 2 ^ 52)%Z in Ha; nia).
    assert (Py.round_half_even a 1 = a) as ->
      by (unfold Py.round_half_even; rewrite Z.div_1_r, Z.mod_1_r; done).
    rewrite Z.div_1_r.
    destruct (2 ^ 1024 <=? a)%Z eqn:Hov; [|done].
    apply Z.leb_le in Hov.
    assert (2 ^ 53 ≤ 2 ^ 1024)%Z by (apply Z.pow_le_mono_r; lia). lia.
  - apply Z.leb_gt in Hs. f_equal.
    replace (- (e - 52))%Z with (52 - e)%Z by lia.
    set (t := (52 - e)%Z) in *. assert (0 < t)%Z as Ht by (unfold t; lia).
    pose proof (Z.pow_pos_nonneg 2 t ltac:(lia) ltac:(lia)) as Hpt.
    assert (2 ^ 53 = 2 * 2 ^ t * 2 ^ e)%Z as H53.
    { rewrite <- (Z.pow_succ_r 2 t) by lia. rewrite <- Z.pow_add_r by lia.
      f_equal. unfold t. lia. }
    set (T := (2 ^ t)%Z) in *.
    pose proof (Z.pow_pos_nonneg 2 e ltac:(lia) ltac:(lia)) as Hpe.
    set (E := (2 ^ e)%Z) in *.
    pose proof (Z.div_mod a b ltac:(lia)) as Hdm.
    pose proof (Z.mod_pos_bound a b ltac:(lia)) as Hmb.
    set (k := (a / b)%Z) in *. set (rho := (a mod b)%Z) in *.
    pose proof (Z.div_mod (a * T) b ltac:(lia)) as Hdm2.
    pose proof (Z.mod_pos_bound (a * T) b ltac:(lia)) as Hmb2.
    unfold Py.round_half_even. cbn zeta.
    set (m0 := (a * T / b)%Z) in *. set (r := ((a * T) mod b)%Z) in *.
    assert (k * T ≤ m0)%Z as Hm1 by nia.
    assert (m0 < (k + 1) * T)%Z as Hm2 by nia.
    symmetry.
    destruct ((b <? 2 * r)%Z || (2 * r =? b)%Z && Z.odd m0) eqn:Hup.
    + assert (b ≤ 2 * r)%Z as Hr.
      { apply orb_true_iff in Hup as [H|H].
        - apply Z.ltb_lt in H. lia.
        - apply andb_true_iff in H as [H _]. apply Z.eqb_eq in H. lia. }
      assert (m0 + 1 < (k + 1) * T)%Z as Hlt.
      { destruct (Z_lt_le_dec (m0 + 1) ((k + 1) * T)) as [H|H]; [done|]. exfalso.
        assert (m0 = (k + 1) * T - 1)%Z as Hm by lia.
        assert ((b - rho) * (2 * T) ≤ b)%Z as Hb2 by nia.
        assert (2 * T ≤ b)%Z by nia.
        nia. }
      apply Z.div_unique with (r := (m0 + 1 - k * T)%Z); lia.
    + apply Z.div_unique with (r := (m0 - k * T)%Z); lia.
Qed.

Lemma int_truediv_exact (a b : Z) :
  (0 < b)%Z → (b ≤ a)%Z → (a < 2 ^ 53)%Z →
  Py.int_truediv a b = Ok (a / b)%Z.
Proof.
  intros Hb Hab Ha. unfold Py.int_truediv.
  rewrite (proj2 (Z.eqb_neq b 0)), (proj2 (Z.eqb_neq a 0)) by lia.
  rewrite !Z.abs_eq by lia. rewrite int_truediv_pos_exact by done.
  rewrite !Z.sgn_pos by lia. f_equal. lia.
Qed.

Lemma length_le_sum_prices ps :
  Forall (λ p, (0 < p)%Z) ps → (Z.of_nat (length ps) ≤ sum_prices ps)%Z.
Proof.
  unfold sum_prices. induction 1 as [|p ps Hp _ IH]; [done|].
  cbn [foldr length]. lia.
Qed.

(** Line 176 on the tally of a group: the division is applied to the sum
    and the number of the positive prices. *)
Lemma avg_price_tally_general ls :
  avg_price (tally ls)
  = match Spec.positive_prices ls with
    | [] => Ok 0%Z
    | ps => Py.int_truediv (sum_prices ps) (Z.of_nat (length ps))
    end.
Proof.
  unfold avg_price, tally. destruct (tally_totals ls empty_tally) as [-> ->].
  cbn [empty_tally total_price price_count]. rewrite !Z.add_0_l.
  destruct (Spec.positive_prices ls) as [|p ps]; [done|].
  rewrite (proj2 (Z.ltb_lt _ _)); [done|]. cbn [length]. lia.
Qed.

(** Below 2^53 the average of line 176 is the mean of the positive prices,
    truncated to an integer. *)
Lemma avg_price_tally ls :
  (sum_prices (Spec.positive_prices ls) < 2 ^ 53)%Z →
  avg_price (tally ls) = Ok (Qfloor (Spec.mean (Spec.positive_prices ls))).
Proof.
  intros Hlt. rewrite avg_price_tally_general.
  pose proof (positive_prices_positive ls) as Hpos.
  pose proof (length_le_sum_prices _ Hpos) as Hlen.
  destruct (Spec.positive_prices ls) as [|p ps]; [done|].
  rewrite int_truediv_exact; [|cbn [length]; lia|done|done]. f_equal.
  change (Spec.mean (p :: ps))
    with (inject_Z (sum_prices (p :: ps)) / inject_Z (Z.of_nat (length (p :: ps))))%Q.
  assert (Z.of_nat (length (p :: ps)) = Z.pos (Pos.of_succ_nat (length ps))) as ->
    by done.
  by rewrite Qfloor_quotient.
Qed.

(** A group with modest prices is averaged. *)
Lemma modest_prices_averaged g :
  (sum_prices (Spec.positive_prices (listings g)) < 2 ^ 53)%Z → averaged g.
Proof. intros H. unfold averaged. by rewrite avg_price_tally. Qed.

Lemma estimated_monthly_product avg n :
  estimated_monthly avg n = (avg * Z.of_nat n * 15)%Z.
Proof.
  unfold estimated_monthly. destruct (avg =? 0)%Z eqn:H; cbn; [|done].
  apply Z.eqb_eq in H. subst. lia.
Qed.

End Aggregator.

(** C8, as the code has it.  The average price of a group is computed by
    a floating-point division of the sum of the positive prices by their
    number, truncated to an integer (0 when there is none).  When the sum
    is below 2^53 this is the arithmetic mean of the positive prices
    truncated to an integer.  Above, the quotient is rounded to a float
    first: the prices 2^53 and 3 give 4503599627370498, which is more than
    their mean; and a price of 10^400 makes the line raise.  The estimated
    monthly revenue is the average times the number of listings times 15.
    Three listings priced 100, 150 and 50 give an average of 100 and a
    revenue of 4500. *)
Theorem aggregator_price_and_revenue :
  (∀ ls, (sum_prices (Spec.positive_prices ls) < 2 ^ 53)%Z →
         avg_price (tally ls) = Ok (Qfloor (Spec.mean (Spec.positive_prices ls))))
  ∧ (∀ ls, avg_price (tally ls)
           = match Spec.positive_prices ls with
             | [] => Ok 0%Z
             | ps => Py.int_truediv (sum_prices ps) (Z.of_nat (length ps))
             end)
  ∧ (∀ ls avg t,
       od_avg_price_per_night (build_owner_data ls avg t) = avg
       ∧ od_estimated_monthly_revenue (build_owner_data ls avg t)
         = (avg * Z.of_nat (length ls) * 15)%Z
       ∧ od_listing_count (build_owner_data ls avg t) = length ls)
  ∧ (∀ l1 l2 l3 t,
       price l1 = Some 100%Z → price l2 = Some 150%Z → price l3 = Some 50%Z →
       avg_price (tally [l1; l2; l3]) = Ok 100%Z
       ∧ od_estimated_monthly_revenue (build_owner_data [l1; l2; l3] 100%Z t) = 4500%Z)
  ∧ (∀ l1 l2,
       price l1 = Some (2 ^ 53)%Z → price l2 = Some 3%Z →
       avg_price (tally [l1; l2]) = Ok 4503599627370498%Z)
  ∧ (∀ l, price l = Some (10 ^ 400)%Z → avg_price (tally [l]) = Raise overflow_text).
Proof.
  split_and!.
  - apply avg_price_tally.
  - apply avg_price_tally_general.
  - intros ls avg t. unfold build_owner_data.
    cbn [od_avg_price_per_night od_estimated_monthly_revenue od_listing_count].
    split_and!; [done|apply estimated_monthly_product|done].
  - intros l1 l2 l3 t H1 H2 H3. split; [|done].
    rewrite avg_price_tally_general, !positive_prices_cons, H1, H2, H3. done.
  - intros l1 l2 H1 H2.
    rewrite avg_price_tally_general, !positive_prices_cons, H1, H2.
    by vm_compute.
  - intros l H.
    rewrite avg_price_tally_general, !positive_prices_cons, H.
    by vm_compute.
Qed.

(** ** The reconciler when no store call fails *)

Section NoFaults.

Context (env : Env) (Hnf : no_faults env).

Lemma save_group_done g w st :
  averaged g →
  ∃ seg,
    save_group env g (w, st)
    = ((exit_world env g w ExitDone seg, exit_stats g w ExitDone st), Ok ())
    ∧ exit_calls g w ExitDone seg (Ok ()).
Proof.
  intros Ha.
  destruct (save_group_exits env g w st)
    as [[Hna _]|(_ & x & seg & r & Heq & Hcalls & Hfault)]; [done|].
  assert (r = Ok ()) as ->.
  { destruct r as [[]|msg]; [done|]. destruct Hfault as [n Hn].
    rewrite Hnf in Hn. done. }
  destruct x; unfold exit_calls in Hcalls.
  - by destruct Hcalls as (? & ? & _).
  - by destruct Hcalls as (? & ? & _).
  - by destruct Hcalls as (? & ? & ? & ? & _).
  - by destruct Hcalls as (? & ? & ? & _).
  - eauto.
Qed.

Lemma try_save_group_done g w st :
  averaged g →
  ∃ seg,
    try_save_group env (w, st) g
    = (exit_world env g w ExitDone seg, exit_stats g w ExitDone st)
    ∧ exit_calls g w ExitDone seg (Ok ()).
Proof.
  intros Ha. destruct (save_group_done g w st Ha) as (seg & Heq & Hcalls).
  exists seg. unfold try_save_group. by rewrite Heq.
Qed.

End NoFaults.

(** A block that ends without an exception left through the last door. *)
Lemma save_group_ok_exit env g w st :
  snd (save_group env g (w, st)) = Ok () →
  averaged g
  ∧ ∃ seg, save_group env g (w, st)
           = ((exit_world env g w ExitDone seg, exit_stats g w ExitDone st), Ok ()).
Proof.
  destruct (save_group_exits env g w st)
    as [[_ Heq]|(Ha & x & seg & r & Heq & Hcalls & _)].
  { by rewrite Heq. }
  rewrite Heq. cbn [snd]. intros ->. split; [done|]. exists seg.
  destruct x; unfold exit_calls in Hcalls.
  - by destruct Hcalls as (? & ? & _).
  - by destruct Hcalls as (? & ? & _).
  - by destruct Hcalls as (? & ? & ? & ? & _).
  - by destruct Hcalls as (? & ? & ? & _).
  - done.
Qed.

(** A group whose division raises: the handler prints and nothing else
    happens, whatever the store does. *)
Lemma try_save_group_overflow env g w st :
  ¬ averaged g →
  try_save_group env (w, st) g = (eprint (error_line overflow_text) w, st).
Proof.
  intros Ha. unfold try_save_group. by rewrite (save_group_raises env g _ Ha).
Qed.

Lemma filter_averaged_all gs : Forall averaged gs → filter averaged gs = gs.
Proof.
  induction 1 as [|g gs Ha _ IH]; [done|]. by rewrite filter_cons, decide_True, IH.
Qed.

(** ** Facts on the tables *)

Section Tables.

Implicit Types (os : list Owner) (d : OwnerData).

Lemma update_rows_ids e d os : map o_id (update_rows e d os) = map o_id os.
Proof.
  unfold update_rows. rewrite map_map. apply map_ext. intros o. by case_decide.
Qed.

Lemma set_risk_ids e z os : map o_id (set_risk e z os) = map o_id os.
Proof.
  unfold set_risk. rewrite map_map. apply map_ext. intros o. by case_decide.
Qed.

Lemma set_risk_phones e z os :
  map primary_phone (set_risk e z os) = map primary_phone os.
Proof.
  unfold set_risk. rewrite map_map. apply map_ext. intros o. by case_decide.
Qed.

Lemma fresh_id_fresh os : fresh_id os ∉ map o_id os.
Proof. unfold fresh_id. apply max_list_not_elem_of_gt. lia. Qed.

Lemma update_rows_lookup e d os i :
  update_rows e d os !! i
  = (λ o, if decide (o_id o = e) then apply_update d o else o) <$> os !! i.
Proof. unfold update_rows. apply list_lookup_fmap. Qed.

Lemma set_risk_other e z os o : o ∈ os → o_id o ≠ e → o ∈ set_risk e z os.
Proof.
  intros Ho Hne. unfold set_risk. apply list_elem_of_fmap. exists o.
  split; [|done]. by rewrite decide_False.
Qed.

Lemma update_rows_other e d os o : o ∈ os → o_id o ≠ e → o ∈ update_rows e d os.
Proof.
  intros Ho Hne. unfold update_rows. apply list_elem_of_fmap. exists o.
  split; [|done]. by rewrite decide_False.
Qed.

(** The lookup only returns ids of rows of the table that carry the phone. *)
Lemma head_owners_with_phone p os e :
  head (owners_with_phone p os) = Some e →
  ∃ o, o ∈ os ∧ o_id o = e ∧ primary_phone o = Some p.
Proof.
  unfold owners_with_phone. intros H.
  destruct (filter _ os) as [|o rest] eqn:Hf; [done|]. cbn in H. injection H as <-.
  assert (o ∈ filter (λ o, primary_phone o = Some p) os) as Hin by (rewrite Hf; left).
  apply list_elem_of_filter in Hin as [? ?]. eauto.
Qed.

Lemma head_owners_with_phone_None p os :
  head (owners_with_phone p os) = None ↔ ∀ o, o ∈ os → primary_phone o ≠ Some p.
Proof.
  unfold owners_with_phone. split.
  - intros H o Ho Hp. destruct (filter _ os) as [|x rest] eqn:Hf; [|done].
    assert (o ∈ filter (λ o, primary_phone o = Some p) os) as Hin
      by (apply list_elem_of_filter; done).
    rewrite Hf in Hin. by apply elem_of_nil in Hin.
  - intros H. destruct (filter _ os) as [|x rest] eqn:Hf; [done|].
    assert (x ∈ filter (λ o, primary_phone o = Some p) os) as Hin by (rewrite Hf; left).
    apply list_elem_of_filter in Hin as [? ?]. naive_solver.
Qed.

End Tables.

(** ** Phone groups: update the owner with that phone, or insert one *)

Section PhoneGroups.

Context (env : Env).

Lemma group_lookup_phone g :
  match_type g = phone_match → identifier g ≠ "" → group_lookup g = true.
Proof.
  intros Hm Hi. unfold group_lookup. rewrite bool_decide_eq_true_2 by done.
  by destruct (identifier g).
Qed.

Lemma group_lookup_host g : match_type g = host_id_match → group_lookup g = false.
Proof.
  intros Hm. unfold group_lookup. rewrite bool_decide_eq_false_2; [done|].
  by rewrite Hm.
Qed.

Lemma group_owner_data_phone g w :
  match_type g = phone_match →
  group_owner_data env g w
  = with_primary_phone (identifier g)
      (build_owner_data (listings g) (group_avg g) (now env (clock_reads w))).
Proof. intros Hm. unfold group_owner_data. by rewrite Hm. Qed.

Lemma group_owner_data_host g w :
  match_type g = host_id_match →
  group_owner_data env g w
  = build_owner_data (listings g) (group_avg g) (now env (clock_reads w)).
Proof.
  intros Hm. unfold group_owner_data. rewrite Hm. cbn.
  destruct (Py.contains_char _ _); [|done]. by destruct (Py.split_once _ _).
Qed.

Lemma set_risk_absent e z os : e ∉ map o_id os → set_risk e z os = os.
Proof.
  intros He. unfold set_risk. induction os as [|o os IH]; [done|].
  cbn [map]. rewrite decide_False.
  - f_equal. apply IH. intros H. apply He. by right.
  - intros H. apply He. rewrite <- H. by left.
Qed.

Lemma set_risk_app e z os1 os2 :
  set_risk e z (os1 ++ os2) = set_risk e z os1 ++ set_risk e z os2.
Proof. unfold set_risk. apply map_app. Qed.

Lemma set_risk_lookup e z os i :
  set_risk e z os !! i
  = (λ o, if decide (o_id o = e) then
            {| o_id := o_id o; primary_phone := primary_phone o; names := names o;
               host_ids := host_ids o; platforms := platforms o;
               listing_count := listing_count o;
               active_listing_count := active_listing_count o;
               unregistered_count := unregistered_count o;
               registered_count := registered_count o;
               avg_price_per_night := avg_price_per_night o;
               estimated_monthly_revenue := estimated_monthly_revenue o;
               risk_score := z;
               first_seen_at := first_seen_at o; last_seen_at := last_seen_at o |}
          else o) <$> os !! i.
Proof. unfold set_risk. apply list_lookup_fmap. Qed.

End PhoneGroups.

(** C5, as the code has it, for a phone group when no store call fails.
    If the division of line 176 overflows, the block raises before any
    store call and the state is as it was.  Otherwise the average price of
    the group is computed and the group looks up the owners whose
    [primary_phone] equals its identifier.  If there is one, the first such
    row gets the group's aggregate, its [last_seen_at] becomes the clock
    reading taken when the record was built, and its [first_seen_at] and
    the other rows stay as they were.  If there is none, a row with a new id
    is appended, with the identifier as [primary_phone], the group's
    aggregate, [last_seen_at] the reading taken when the record was built
    and [first_seen_at] the next reading of the clock, taken just before the
    insert. *)
Theorem phone_group_reconciled (env : Env) (g : Group) (w : World) (st : Stats) :
  no_faults env →
  match_type g = phone_match →
  identifier g ≠ "" →
  let w' := fst (fst (save_group env g (w, st))) in
  let st' := snd (fst (save_group env g (w, st))) in
  let t_built := now env (clock_reads w) in
  let t_insert := now env (S (clock_reads w)) in
  (¬ averaged g → save_group env g (w, st) = ((w, st), Raise overflow_text))
  ∧ (averaged g →
     snd (save_group env g (w, st)) = Ok ()
     ∧ (∃ rest, calls w'
                = calls w ++ ({| op := SelectOwnerByPhone (identifier g); error := None |}
                              :: rest))
     ∧ match head (owners_with_phone (identifier g) (detected_owners w)) with
       | Some e =>
           length (detected_owners w') = length (detected_owners w)
           ∧ (∀ i o, detected_owners w !! i = Some o →
                ∃ o', detected_owners w' !! i = Some o' ∧ o_id o' = o_id o
                      ∧ if decide (o_id o = e)
                        then aggregates o' (listings g)
                             ∧ primary_phone o' = Some (identifier g)
                             ∧ last_seen_at o' = t_built
                             ∧ first_seen_at o' = first_seen_at o
                        else o' = o)
           ∧ updated_owners st' = S (updated_owners st)
           ∧ new_owners st' = new_owners st
       | None =>
           (∃ o, detected_owners w' = detected_owners w ++ [o]
                 ∧ (o_id o ∉ map o_id (detected_owners w))
                 ∧ aggregates o (listings g)
                 ∧ primary_phone o = Some (identifier g)
                 ∧ last_seen_at o = t_built
                 ∧ first_seen_at o = t_insert)
           ∧ new_owners st' = S (new_owners st)
           ∧ updated_owners st' = updated_owners st
       end).
Proof.
  intros Hnf Hm Hi w' st' t_built t_insert. subst w' st' t_built t_insert.
  split; [intros Ha; by apply save_group_raises|]. intros Ha.
  destruct (save_group_done env Hnf g w st Ha) as (seg & Heq & useg & _ & Hseg & _).
  apply averaged_Ok in Ha.
  rewrite Heq. cbn [fst snd]. split; [done|].
  pose proof (group_lookup_phone g Hm Hi) as Hlk.
  split.
  { cbn [calls exit_world]. rewrite Hseg. unfold lookup_calls. rewrite Hlk.
    cbn. eauto. }
  cbn [detected_owners exit_world exit_owners].
  unfold exit_stats, owners_scored, owners_written, group_owner_id, bump_written,
    group_existing.
  rewrite Hlk, (group_owner_data_phone env g w Hm).
  destruct (head (owners_with_phone (identifier g) (detected_owners w))) as [e|] eqn:Hex.
  - split_and!.
    + unfold set_risk, update_rows. by rewrite !length_map.
    + intros i o Ho. rewrite set_risk_lookup, update_rows_lookup, Ho. cbn [fmap option_fmap option_map].
      destruct (decide (o_id o = e)) as [He|He].
      * cbn [o_id apply_update]. rewrite decide_True by done.
        eexists. split; [done|]. unfold aggregates. cbn. split_and!; done.
      * rewrite decide_False by done. eexists. split; [done|]. done.
    + by destruct (1 <? length (listings g)).
    + by destruct (1 <? length (listings g)).
  - split_and!.
    + rewrite set_risk_app, (set_risk_absent _ _ (detected_owners w))
        by apply fresh_id_fresh.
      eexists. split; [done|]. cbn. rewrite decide_True by done.
      unfold aggregates. cbn.
      split_and!; try done. apply fresh_id_fresh.
    + by destruct (1 <? length (listings g)).
    + by destruct (1 <? length (listings g)).
Qed.

(** ** Host-id groups *)

Section HostGroups.

Lemma dict_append_keys (key_of : Listing → option string) k l d :
  key_of l = Some k →
  Forall (λ kv, Forall (λ x, key_of x = Some (fst kv)) (snd kv)) d →
  Forall (λ kv, Forall (λ x, key_of x = Some (fst kv)) (snd kv)) (dict_append k l d).
Proof.
  intros Hk. induction 1 as [|[k' ls] d Hkv Hd IH]; cbn [dict_append].
  - repeat constructor. done.
  - case_decide as Heq.
    + constructor; [|done]. cbn in *. subst k'. apply Forall_app. split; [done|].
      by apply Forall_singleton.
    + constructor; done.
Qed.

Lemma index_listings_host_keys ls acc :
  Forall (λ kv, Forall (λ x, host_key x = Some (fst kv)) (snd kv)) (snd acc) →
  Forall (λ kv, Forall (λ x, host_key x = Some (fst kv)) (snd kv))
    (snd (fold_left index_listing ls acc)).
Proof.
  revert acc. induction ls as [|l ls IH]; intros [d1 d2] Hacc; [done|].
  cbn [fold_left]. apply IH. unfold index_listing. cbn [snd] in *.
  destruct (host_key l) as [k|] eqn:Hk; [|done].
  by apply dict_append_keys.
Qed.

Lemma index_listings_no_phone ls acc :
  (∀ l, l ∈ ls → extract_phone_from_listing l = None) →
  fst (fold_left index_listing ls acc) = fst acc.
Proof.
  revert acc. induction ls as [|l ls IH]; intros [d1 d2] Hls; [done|].
  cbn [fold_left]. rewrite IH by (intros x Hx; apply Hls; by right).
  unfold index_listing. rewrite Hls by left. done.
Qed.

Lemma fold_add_host_group_keyed d acc :
  Forall (λ kv, Forall (λ x, host_key x = Some (fst kv)) (snd kv)) d →
  Forall host_group_keyed (fst acc) →
  Forall host_group_keyed (fst (fold_left add_host_group d acc)).
Proof.
  intros Hd. revert acc.
  induction Hd as [|[k ls] d Hkv _ IH]; intros [gs P] Hacc; [done|].
  cbn [fold_left]. apply IH. unfold add_host_group. cbn [fst snd] in *.
  destruct (filter _ (map listing_id ls)) as [|i ids] eqn:Hids; [done|].
  rewrite <- Hids. clear Hids.
  destruct (filter _ ls) as [|x xs] eqn:Hxs; [done|].
  cbn [fst]. apply Forall_app. split; [done|]. apply Forall_singleton.
  intros _. cbn [listings identifier]. split; [done|].
  rewrite <- Hxs. apply Forall_forall. intros l Hl.
  apply list_elem_of_filter in Hl as [_ Hl].
  by apply (proj1 (Forall_forall _ _) Hkv).
Qed.

Lemma fold_add_host_group_types (Q : Group → Prop) d acc :
  (∀ g, match_type g = host_id_match → Q g) →
  Forall Q (fst acc) →
  Forall Q (fst (fold_left add_host_group d acc)).
Proof.
  intros HQ. revert acc. induction d as [|[k ls] d IH]; intros [gs P] Hacc; [done|].
  cbn [fold_left]. apply IH. unfold add_host_group. cbn [fst snd] in *.
  destruct (filter _ (map listing_id ls)) as [|i ids] eqn:Hids; [done|].
  rewrite <- Hids. clear Hids.
  destruct (filter _ ls) as [|x xs] eqn:Hxs; [done|].
  cbn [fst]. apply Forall_app. split; [done|]. apply Forall_singleton. by apply HQ.
Qed.

Lemma phone_owner_groups_ok ls : Forall phone_group_ok (fst (phone_owner_groups ls)).
Proof.
  unfold phone_owner_groups.
  destruct (fold_add_phone_group (fst (index_listings ls)) ([], ∅)) as (_ & _ & H).
  by apply H.
Qed.

Lemma build_owner_groups_keyed ls : Forall host_group_keyed (build_owner_groups ls).
Proof.
  unfold build_owner_groups. apply fold_add_host_group_keyed.
  - unfold index_listings. by apply index_listings_host_keys.
  - eapply Forall_impl; [apply phone_owner_groups_ok|].
    intros g (Hm & _) Hh. congruence.
Qed.

Lemma build_owner_groups_all_host ls :
  (∀ l, l ∈ ls → extract_phone_from_listing l = None) →
  Forall (λ g, match_type g = host_id_match) (build_owner_groups ls).
Proof.
  intros Hls. unfold build_owner_groups, phone_owner_groups, index_listings.
  rewrite index_listings_no_phone by done. cbn [fst fold_left].
  by apply fold_add_host_group_types.
Qed.

(** The aggregate's [host_ids] hold the key of every listing with a host id. *)
Lemma tally_host_ids_mono ls t x :
  x ∈ t_host_ids t → x ∈ t_host_ids (fold_left tally_listing ls t).
Proof.
  revert t. induction ls as [|l ls IH]; intros t Hx; [done|].
  cbn [fold_left]. apply IH. unfold tally_listing. cbn [t_host_ids].
  destruct (host_id l) as [h|]; [|done]. destruct (Py.truthy h); set_solver.
Qed.

Lemma tally_host_ids ls t l k :
  l ∈ ls → host_key l = Some k → k ∈ t_host_ids (fold_left tally_listing ls t).
Proof.
  revert t. induction ls as [|x ls IH]; intros t Hl Hk.
  - by apply elem_of_nil in Hl.
  - cbn [fold_left]. apply elem_of_cons in Hl as [<-|Hl]; [|by apply IH].
    apply tally_host_ids_mono. unfold tally_listing. cbn [t_host_ids].
    apply host_key_Some in Hk as (h & Hh & Hne & _ & ->). rewrite Hh.
    destruct h; [done|]. cbn. set_solver.
Qed.

End HostGroups.

(** ** Whole runs *)

Section Runs.

Context (env : Env).

(** The state in which the loop of [save_owners_to_db] starts. *)
Lemma detect_owners_unfold w :
  detect_owners env w
  = match fails env (length (calls w)) with
    | Some msg =>
        (log_call {| op := SelectActiveListings; error := Some msg |}
           (eprint (String "010" "[Owner Detection] Starting analysis...") w),
         Raise msg)
    | None =>
        let gs := build_owner_groups (active_listings w) in
        let w0 :=
          eprint ("[Owner Detection] Found " +:+ pretty (length gs) +:+ " owner groups")
            (eprint ("[Owner Detection] Analyzing "
                     +:+ pretty (length (active_listings w)) +:+ " listings")
               (log_call {| op := SelectActiveListings; error := None |}
                  (eprint (String "010" "[Owner Detection] Starting analysis...") w))) in
        (fst (save_owners_to_db env gs w0), Ok (snd (save_owners_to_db env gs w0)))
    end.
Proof.
  unfold detect_owners, active_listings. cbn [calls eprint].
  destruct (fails env (length (calls w))); [done|].
  cbn zeta. by destruct (save_owners_to_db _ _ _).
Qed.

(** What one iteration leaves alone, whatever fails. *)
Lemma try_save_group_frame g w st :
  let w' := fst (try_save_group env (w, st) g) in
  scraped_listings w' = scraped_listings w
  ∧ ∃ x, detected_owners w' = exit_owners env g w x.
Proof.
  unfold try_save_group.
  destruct (save_group_exits env g w st)
    as [[_ Heq]|(_ & x & seg & r & Heq & _ & _)].
  { rewrite Heq. cbn. split; [done|]. by exists ExitLookup. }
  rewrite Heq. destruct r; cbn; eauto.
Qed.

Lemma NoDup_map_inj {A B} (f : A → B) (l : list A) x y :
  NoDup (map f l) → x ∈ l → y ∈ l → f x = f y → x = y.
Proof.
  intros Hnd Hx Hy Hxy.
  apply list_elem_of_lookup in Hx as [i Hi], Hy as [j Hj].
  assert (i = j) as ->; [|congruence].
  eapply NoDup_lookup; [exact Hnd| |].
  - change (map f l) with (f <$> l). rewrite list_lookup_fmap, Hi. done.
  - change (map f l) with (f <$> l). rewrite list_lookup_fmap, Hj. cbn. by rewrite Hxy.
Qed.

Lemma exit_owners_NoDup g w x :
  NoDup (map o_id (detected_owners w)) →
  NoDup (map o_id (exit_owners env g w x)).
Proof.
  intros Hnd.
  assert (NoDup (map o_id (owners_written env g w))) as Hw.
  { unfold owners_written. destruct (group_existing g w) as [e|].
    - by rewrite update_rows_ids.
    - rewrite map_app. cbn. apply NoDup_app. split_and!; [done| |apply NoDup_singleton].
      intros i Hi [->|[]%elem_of_nil]%elem_of_cons. by apply fresh_id_fresh in Hi. }
  destruct x; cbn; try done. unfold owners_scored. by rewrite set_risk_ids.
Qed.

(** The id a group works on is not the id of a row without a phone. *)
Lemma group_owner_id_not_phoneless g w o :
  NoDup (map o_id (detected_owners w)) →
  o ∈ detected_owners w → primary_phone o = None →
  o_id o ≠ group_owner_id g w.
Proof.
  intros Hnd Ho Hp. unfold group_owner_id, group_existing.
  destruct (group_lookup g).
  - destruct (head _) as [e|] eqn:He.
    + apply head_owners_with_phone in He as (o' & Ho' & <- & Hp').
      intros Heq. assert (o = o') as ->; [|congruence].
      by eapply (NoDup_map_inj o_id).
    + intros Heq. apply (fresh_id_fresh (detected_owners w)). rewrite <- Heq.
      apply list_elem_of_fmap. eauto.
  - intros Heq. apply (fresh_id_fresh (detected_owners w)). rewrite <- Heq.
    apply list_elem_of_fmap. eauto.
Qed.

Lemma exit_owners_keeps_phoneless g w x o :
  NoDup (map o_id (detected_owners w)) →
  o ∈ detected_owners w → primary_phone o = None →
  o ∈ exit_owners env g w x.
Proof.
  intros Hnd Ho Hp.
  pose proof (group_owner_id_not_phoneless g w o Hnd Ho Hp) as Hne.
  assert (o ∈ owners_written env g w) as Hw.
  { unfold owners_written. unfold group_owner_id in Hne.
    destruct (group_existing g w) as [e|].
    - by apply update_rows_other.
    - apply elem_of_app. by left. }
  destruct x; cbn; try done. unfold owners_scored. by apply set_risk_other.
Qed.

Lemma run_keeps_phoneless gs w st o :
  NoDup (map o_id (detected_owners w)) →
  o ∈ detected_owners w → primary_phone o = None →
  let w' := fst (fold_left (try_save_group env) gs (w, st)) in
  NoDup (map o_id (detected_owners w')) ∧ o ∈ detected_owners w'
  ∧ scraped_listings w' = scraped_listings w.
Proof.
  revert w st. induction gs as [|g gs IH]; intros w st Hnd Ho Hp; [done|].
  cbn [fold_left].
  destruct (try_save_group_frame g w st) as (Hs & x & Hx).
  destruct (try_save_group env (w, st) g) as [w1 st1]. cbn [fst] in *.
  destruct (IH w1 st1) as (I1 & I2 & I3).
  - rewrite Hx. by apply exit_owners_NoDup.
  - rewrite Hx. by apply exit_owners_keeps_phoneless.
  - done.
  - split_and!; [done|done|congruence].
Qed.

Lemma fold_scraped_listings gs w st :
  scraped_listings (fst (fold_left (try_save_group env) gs (w, st)))
  = scraped_listings w.
Proof.
  revert w st. induction gs as [|g gs IH]; intros w st; [done|].
  cbn [fold_left]. destruct (try_save_group_frame g w st) as (Hs & _).
  destruct (try_save_group env (w, st) g) as [w1 st1]. cbn [fst] in *.
  by rewrite IH.
Qed.

Lemma run_scraped_listings w : scraped_listings (run env w) = scraped_listings w.
Proof.
  unfold run. rewrite detect_owners_unfold.
  destruct (fails env (length (calls w))); [done|]. cbn [fst].
  unfold save_owners_to_db. by rewrite fold_scraped_listings.
Qed.

End Runs.

(** ** Host-id groups always insert *)

Section HostInsert.

Context (env : Env).

Lemma group_existing_host g w : match_type g = host_id_match → group_existing g w = None.
Proof. intros Hm. unfold group_existing. by rewrite group_lookup_host. Qed.

(** The calls of a host-id group, whatever fails. *)
Lemma host_group_calls g w st :
  match_type g = host_id_match →
  ∃ seg, calls (fst (fst (save_group env g (w, st)))) = calls w ++ seg
         ∧ Forall (λ c, ¬ is_lookup c ∧ ¬ is_update c) seg.
Proof.
  intros Hm.
  destruct (save_group_exits env g w st)
    as [[_ Heq]|(_ & x & seg & r & Heq & Hcalls & _)].
  { rewrite Heq. exists []. by rewrite app_nil_r. }
  rewrite Heq. exists seg. split; [done|].
  assert (∀ useg, Forall is_upsert useg →
                  Forall (λ c, ¬ is_lookup c ∧ ¬ is_update c) useg) as Hup.
  { intros useg Hu. eapply Forall_impl; [exact Hu|].
    intros c. unfold is_upsert, is_lookup, is_update.
    destruct (op c); try done. intros _. split; by intros []. }
  unfold exit_calls, lookup_calls, write_op in Hcalls.
  rewrite (group_lookup_host g Hm), (group_existing_host g w Hm) in Hcalls.
  destruct x.
  - by destruct Hcalls as (? & _ & ? & _).
  - destruct Hcalls as (msg & _ & ->). repeat constructor; by intros [].
  - destruct Hcalls as (msg & useg & c & _ & _ & -> & Hu & _).
    cbn. constructor; [split; by intros []|]. by apply Hup.
  - destruct Hcalls as (msg & useg & _ & -> & Hu & _).
    cbn. constructor; [split; by intros []|]. apply Forall_app. split; [by apply Hup|].
    repeat constructor; by intros [].
  - destruct Hcalls as (useg & _ & -> & Hu & _).
    cbn. constructor; [split; by intros []|]. apply Forall_app. split; [by apply Hup|].
    repeat constructor; by intros [].
Qed.

(** The row a host-id group has appended when its block ends. *)
Lemma host_group_row g w st :
  snd (save_group env g (w, st)) = Ok () →
  match_type g = host_id_match →
  let w' := fst (fst (save_group env g (w, st))) in
  let st' := snd (fst (save_group env g (w, st))) in
  (∃ o, detected_owners w' = detected_owners w ++ [o]
        ∧ (o_id o ∉ map o_id (detected_owners w))
        ∧ aggregates o (listings g)
        ∧ primary_phone o = None
        ∧ last_seen_at o = now env (clock_reads w)
        ∧ first_seen_at o = now env (S (clock_reads w)))
  ∧ new_owners st' = S (new_owners st)
  ∧ updated_owners st' = updated_owners st.
Proof.
  intros Hok Hm w' st'. subst w' st'.
  destruct (save_group_ok_exit env g w st Hok) as (Ha%averaged_Ok & seg & Heq).
  rewrite Heq. cbn [fst snd].
  cbn [detected_owners exit_world exit_owners].
  unfold exit_stats, owners_scored, owners_written, group_owner_id, bump_written.
  rewrite (group_existing_host g w Hm), (group_owner_data_host env g w Hm).
  split_and!.
  - rewrite set_risk_app, (set_risk_absent _ _ (detected_owners w))
      by apply fresh_id_fresh.
    eexists. split; [done|]. cbn. rewrite decide_True by done.
    unfold aggregates. cbn.
    split_and!; try done. apply fresh_id_fresh.
  - by destruct (1 <? length (listings g)).
  - by destruct (1 <? length (listings g)).
Qed.

Context (Hnf : no_faults env).

(** The row a host-id group appends when nothing fails. *)
Lemma host_group_inserts g w st :
  averaged g →
  match_type g = host_id_match →
  let w' := fst (fst (save_group env g (w, st))) in
  let st' := snd (fst (save_group env g (w, st))) in
  snd (save_group env g (w, st)) = Ok ()
  ∧ (∃ o, detected_owners w' = detected_owners w ++ [o]
          ∧ (o_id o ∉ map o_id (detected_owners w))
          ∧ aggregates o (listings g)
          ∧ primary_phone o = None
          ∧ last_seen_at o = now env (clock_reads w)
          ∧ first_seen_at o = now env (S (clock_reads w)))
  ∧ new_owners st' = S (new_owners st)
  ∧ updated_owners st' = updated_owners st.
Proof.
  intros Ha Hm w' st'. subst w' st'.
  assert (snd (save_group env g (w, st)) = Ok ()) as Hok.
  { destruct (save_group_done env Hnf g w st Ha) as (seg & -> & _). done. }
  split; [done|]. by apply host_group_row.
Qed.

(** Over host-id groups, the loop appends one owner row for every group
    whose average price is computed, and none for the others. *)
Lemma host_groups_grow gs w st :
  Forall (λ g, match_type g = host_id_match) gs →
  length (detected_owners (fst (fold_left (try_save_group env) gs (w, st))))
  = length (detected_owners w) + length (filter averaged gs).
Proof.
  intros Hgs. revert w st. induction Hgs as [|g gs Hg _ IH]; intros w st.
  - cbn. lia.
  - cbn [fold_left]. rewrite filter_cons.
    destruct (decide (averaged g)) as [Ha|Ha].
    + destruct (host_group_inserts g w st Ha Hg) as (Hr & (o & Ho & _) & _).
      unfold try_save_group. destruct (save_group env g (w, st)) as [[w1 st1] r].
      cbn [fst snd] in *. subst r. rewrite IH, Ho, length_app. cbn. lia.
    + rewrite (try_save_group_overflow env g w st Ha). by rewrite IH.
Qed.

Lemma run_host_only w :
  Forall (λ g, match_type g = host_id_match) (build_owner_groups (active_listings w)) →
  length (detected_owners (run env w))
  = length (detected_owners w)
    + length (filter averaged (build_owner_groups (active_listings w))).
Proof.
  intros Hgs. unfold run. rewrite detect_owners_unfold, Hnf. cbn [fst].
  unfold save_owners_to_db. by rewrite host_groups_grow.
Qed.

Lemma active_listings_run w : active_listings (run env w) = active_listings w.
Proof. unfold active_listings. by rewrite run_scraped_listings. Qed.

Lemma iter_run_host_only n w :
  Forall (λ g, match_type g = host_id_match) (build_owner_groups (active_listings w)) →
  active_listings (Nat.iter n (run env) w) = active_listings w
  ∧ length (detected_owners (Nat.iter n (run env) w))
    = length (detected_owners w)
      + n * length (filter averaged (build_owner_groups (active_listings w))).
Proof.
  intros Hgs. induction n as [|n [IH1 IH2]]; [cbn; split; [done|lia]|].
  change (Nat.iter (S n) (run env) w) with (run env (Nat.iter n (run env) w)). split.
  - by rewrite active_listings_run.
  - rewrite run_host_only, IH1, IH2 by (by rewrite IH1). lia.
Qed.

End HostInsert.

(** C6. A host-id group never looks an owner up and never updates one,
    whatever fails.  When no store call fails and the average price of the
    group is computed (the division of line 176 does not overflow), it
    appends a new owner row; when the division overflows, the block raises
    before any store call and the state is as it was.  Hence, when the
    clusters of the active listings are all host-id-keyed (as they are when
    no listing yields a phone signal) and no store call fails, every run
    adds one owner row per cluster whose average price is computed: after
    [n] runs the table has grown by [n] times the number of these clusters,
    which are all the clusters when no division overflows. *)
Theorem host_id_group_always_inserts :
  (∀ env g w st,
     match_type g = host_id_match →
     ∃ seg, calls (fst (fst (save_group env g (w, st)))) = calls w ++ seg
            ∧ Forall (λ c, ¬ is_lookup c ∧ ¬ is_update c) seg)
  ∧ (∀ env g w st,
       no_faults env → averaged g → match_type g = host_id_match →
       snd (save_group env g (w, st)) = Ok ()
       ∧ (∃ o, detected_owners (fst (fst (save_group env g (w, st))))
               = detected_owners w ++ [o]
               ∧ (o_id o ∉ map o_id (detected_owners w))
               ∧ aggregates o (listings g))
       ∧ new_owners (snd (fst (save_group env g (w, st)))) = S (new_owners st)
       ∧ updated_owners (snd (fst (save_group env g (w, st)))) = updated_owners st)
  ∧ (∀ env g w st,
       ¬ averaged g →
       save_group env g (w, st) = ((w, st), Raise overflow_text))
  ∧ (∀ env w n,
       no_faults env →
       Forall (λ g, match_type g = host_id_match) (build_owner_groups (active_listings w)) →
       length (detected_owners (Nat.iter n (run env) w))
       = length (detected_owners w)
         + n * length (filter averaged (build_owner_groups (active_listings w)))
       ∧ (Forall averaged (build_owner_groups (active_listings w)) →
          length (detected_owners (Nat.iter n (run env) w))
          = length (detected_owners w)
            + n * length (build_owner_groups (active_listings w))))
  ∧ (∀ ls,
       (∀ l, l ∈ ls → extract_phone_from_listing l = None) →
       Forall (λ g, match_type g = host_id_match) (build_owner_groups ls)).
Proof.
  split_and!.
  - intros env g w st Hm. by apply host_group_calls.
  - intros env g w st Hnf Ha Hm.
    destruct (host_group_inserts env Hnf g w st Ha Hm)
      as (H1 & (o & H2 & H3 & H4 & _) & H5 & H6).
    split_and!; eauto.
  - intros env g w st Ha. by apply save_group_raises.
  - intros env w n Hnf Hgs.
    destruct (iter_run_host_only env Hnf n w Hgs) as [_ Hlen].
    split; [done|]. intros Hav. by rewrite Hlen, filter_averaged_all.
  - apply build_owner_groups_all_host.
Qed.

(** ** Owners without an identity key *)

Lemma top_operators_from_owners os x :
  x ∈ top_operators os → ∃ o, o ∈ os ∧ x = operator_of o.
Proof.
  unfold top_operators, top_owners. intros Hx.
  apply list_elem_of_fmap in Hx as (o & -> & Ho). exists o. split; [|done].
  apply elem_of_take in Ho as (i & Ho & _).
  apply list_elem_of_lookup_2 in Ho.
  apply elem_of_take in Ho as (j & Ho & _).
  apply list_elem_of_lookup_2 in Ho.
  by rewrite merge_sort_Permutation in Ho.
Qed.

(** C10. The row a host-id group has inserted when its block ends (as it
    does when no store call fails and the division of line 176 does not
    overflow) has no [primary_phone]; the
    group's identifier is found only among its [host_ids], where the
    aggregate of the member listings put it.  A row without a phone is
    never returned by the lookup, and every later run, whatever fails in
    it, leaves the row exactly as it is.  The report shows such an owner
    with no phone. *)
Theorem host_id_owner_has_no_identity_key :
  (∀ env g w st,
     snd (save_group env g (w, st)) = Ok () → match_type g = host_id_match →
     ∃ o, detected_owners (fst (fst (save_group env g (w, st))))
          = detected_owners w ++ [o]
          ∧ primary_phone o = None
          ∧ host_ids o = t_host_ids (tally (listings g)))
  ∧ (∀ env g w st,
       no_faults env → averaged g → match_type g = host_id_match →
       snd (save_group env g (w, st)) = Ok ())
  ∧ (∀ ls g,
       g ∈ build_owner_groups ls → match_type g = host_id_match →
       identifier g ∈ t_host_ids (tally (listings g)))
  ∧ (∀ os o p,
       NoDup (map o_id os) → o ∈ os → primary_phone o = None →
       head (owners_with_phone p os) ≠ Some (o_id o))
  ∧ (∀ env w o,
       NoDup (map o_id (detected_owners w)) →
       o ∈ detected_owners w → primary_phone o = None →
       o ∈ detected_owners (run env w))
  ∧ (∀ o, primary_phone o = None →
          op_phone (operator_of o) = None
          ∧ printed_phone (operator_of o) = "No phone")
  ∧ (∀ os x, x ∈ top_operators os → ∃ o, o ∈ os ∧ x = operator_of o).
Proof.
  split_and!.
  - intros env g w st Hok Hm.
    destruct (host_group_row env g w st Hok Hm) as ((o & H2 & _ & Hagg & Hp & _) & _).
    exists o. split_and!; [done|done|]. by destruct Hagg as (_ & ? & _).
  - intros env g w st Hnf Ha Hm.
    by destruct (host_group_inserts env Hnf g w st Ha Hm) as (? & _).
  - intros ls g Hg Hm.
    pose proof (build_owner_groups_keyed ls) as Hk.
    apply (proj1 (Forall_forall _ _) Hk) in Hg. destruct (Hg Hm) as [Hne Hkeys].
    destruct (listings g) as [|l rest] eqn:Hl; [done|].
    unfold tally. eapply (tally_host_ids _ _ l); [left|].
    by apply Forall_cons in Hkeys as [? _].
  - intros os o p Hnd Ho Hp He.
    apply head_owners_with_phone in He as (o' & Ho' & Hid & Hp').
    assert (o' = o) as -> by (by eapply (NoDup_map_inj o_id)).
    congruence.
  - intros env w o Hnd Ho Hp. unfold run. rewrite detect_owners_unfold.
    destruct (fails env (length (calls w))); [done|]. cbn [fst].
    unfold save_owners_to_db.
    by apply run_keeps_phoneless.
  - intros o Hp. unfold printed_phone, operator_of. cbn. by rewrite Hp.
  - apply top_operators_from_owners.
Qed.

(** ** Idempotence for phone-keyed owners *)

Section LinkKeys.

Lemma upsert_row_keys r links :
  map link_key (upsert_row r links)
  = if decide (link_key r ∈ map link_key links) then map link_key links
    else map link_key links ++ [link_key r].
Proof.
  induction links as [|x links IH]; cbn [upsert_row map].
  - rewrite decide_False by apply not_elem_of_nil. done.
  - destruct (decide (owner_id x = owner_id r ∧ scraped_listing_id x = scraped_listing_id r))
      as [[H1 H2]|Hne].
    + assert (link_key x = link_key r) as Hk by (unfold link_key; congruence).
      cbn [map]. rewrite decide_True by (rewrite Hk; left). by rewrite Hk.
    + cbn [map]. rewrite IH.
      assert (link_key r ≠ link_key x) as Hk.
      { unfold link_key. intros [= H1 H2]. apply Hne. done. }
      destruct (decide (link_key r ∈ map link_key links)) as [Hin|Hin].
      * rewrite decide_True by (by right). done.
      * rewrite decide_False; [done|]. by intros [?|?]%elem_of_cons.
Qed.

Lemma upsert_row_elem r links x : x ∈ upsert_row r links → x = r ∨ x ∈ links.
Proof.
  induction links as [|y links IH]; cbn [upsert_row].
  - intros [->|[]%elem_of_nil]%elem_of_cons. by left.
  - case_decide.
    + intros [->|?]%elem_of_cons; [by left|right; by right].
    + intros [->|?]%elem_of_cons; [right; by left|].
      destruct IH as [?|?]; [done|by left|right; by right].
Qed.

(** The keys of the table after the upserts of a group. *)
Lemma links_after_keys oid mt ls links :
  ∃ extra,
    map link_key (links_after oid mt ls links) = map link_key links ++ extra
    ∧ Forall (λ k, fst k = oid) extra
    ∧ (NoDup (map link_key links) → NoDup (map link_key links ++ extra))
    ∧ (∀ l, l ∈ ls → (oid, listing_id l) ∈ map link_key links ++ extra)
    ∧ ((∀ l, l ∈ ls → (oid, listing_id l) ∈ map link_key links) → extra = [])
    ∧ ∀ x, x ∈ links_after oid mt ls links → x ∈ links ∨ owner_id x = oid.
Proof.
  revert links. induction ls as [|l ls IH]; intros links.
  - exists []. rewrite app_nil_r. cbn. split_and!; try done.
    + intros l []%elem_of_nil.
    + intros x ?. by left.
  - rewrite links_after_cons.
    destruct (IH (upsert_row (link_data oid l mt) links))
      as (extra & Hk & Hoid & Hnd & Hin & Hnone & Hel).
    rewrite upsert_row_keys in Hk, Hnd, Hin, Hnone.
    change (link_key (link_data oid l mt)) with (oid, listing_id l) in *.
    destruct (decide ((oid, listing_id l) ∈ map link_key links)) as [Hp|Hp].
    + exists extra. split_and!; try done.
      * intros x [->|Hx]%elem_of_cons; [apply elem_of_app; by left|by apply Hin].
      * intros H. apply Hnone. intros x Hx. apply H. by right.
      * intros x Hx. destruct (Hel x Hx) as [Hu|?]; [|by right].
        apply upsert_row_elem in Hu as [->|?]; [by right|by left].
    + exists ((oid, listing_id l) :: extra). rewrite <- app_assoc in Hk, Hnd, Hin.
      split_and!; try done.
      * by constructor.
      * intros H. apply Hnd. apply NoDup_app. split_and!; [done| |apply NoDup_singleton].
        intros k Hk' [->|[]%elem_of_nil]%elem_of_cons. done.
      * intros x [->|Hx]%elem_of_cons; [|by apply Hin].
        apply elem_of_app. right. by left.
      * intros H. exfalso. apply Hp, H. by left.
      * intros x Hx. destruct (Hel x Hx) as [Hu|?]; [|by right].
        apply upsert_row_elem in Hu as [->|?]; [by right|by left].
Qed.

End LinkKeys.

Section OwnerByPhone.

Implicit Types (os : list Owner) (p : string).

Lemma head_owners_with_phone_by_phone p os :
  head (owners_with_phone p os) = o_id <$> owner_by_phone p os.
Proof.
  unfold owners_with_phone, owner_by_phone. by destruct (filter _ os).
Qed.

Lemma owner_by_phone_Some p os o :
  owner_by_phone p os = Some o → o ∈ os ∧ primary_phone o = Some p.
Proof.
  unfold owner_by_phone. intros H.
  destruct (filter _ os) as [|x rest] eqn:Hf; [done|]. cbn in H. injection H as ->.
  assert (o ∈ filter (λ o, primary_phone o = Some p) os) as Hin by (rewrite Hf; left).
  by apply list_elem_of_filter in Hin as [? ?].
Qed.

Lemma owner_by_phone_fmap (f : Owner → Owner) p os :
  (∀ o, o ∈ os → primary_phone (f o) = primary_phone o) →
  owner_by_phone p (map f os) = f <$> owner_by_phone p os.
Proof.
  unfold owner_by_phone. induction os as [|o os IH]; intros Hf; [done|].
  cbn [map]. rewrite !filter_cons, (Hf o) by left.
  destruct (decide (primary_phone o = Some p)); [done|].
  apply IH. intros x Hx. apply Hf. by right.
Qed.

Lemma owner_by_phone_app p os os' :
  owner_by_phone p (os ++ os')
  = match owner_by_phone p os with
    | Some o => Some o
    | None => owner_by_phone p os'
    end.
Proof.
  unfold owner_by_phone. rewrite filter_app.
  by destruct (filter _ os).
Qed.

Lemma set_risk_by_phone e z p os :
  owner_by_phone p (set_risk e z os)
  = (λ o, if decide (o_id o = e) then
            {| o_id := o_id o; primary_phone := primary_phone o; names := names o;
               host_ids := host_ids o; platforms := platforms o;
               listing_count := listing_count o;
               active_listing_count := active_listing_count o;
               unregistered_count := unregistered_count o;
               registered_count := registered_count o;
               avg_price_per_night := avg_price_per_night o;
               estimated_monthly_revenue := estimated_monthly_revenue o;
               risk_score := z;
               first_seen_at := first_seen_at o; last_seen_at := last_seen_at o |}
          else o) <$> owner_by_phone p os.
Proof.
  unfold set_risk. apply owner_by_phone_fmap. intros o _. by case_decide.
Qed.

End OwnerByPhone.

Section Steps.

Context (env : Env).

Implicit Types (g : Group) (w : World).

Lemma group_existing_Some g w e :
  group_existing g w = Some e →
  match_type g = phone_match
  ∧ ∃ o, owner_by_phone (identifier g) (detected_owners w) = Some o
         ∧ o_id o = e ∧ o ∈ detected_owners w
         ∧ primary_phone o = Some (identifier g).
Proof.
  unfold group_existing, group_lookup. case_bool_decide as Hm; [|done].
  destruct (Py.truthy (identifier g)); [|done]. cbn [andb].
  rewrite head_owners_with_phone_by_phone.
  destruct (owner_by_phone _ _) as [o|] eqn:Ho; [|done]. intros [= <-].
  split; [done|]. exists o. apply owner_by_phone_Some in Ho as Ho'.
  destruct Ho'. done.
Qed.

Lemma group_existing_None_phone g w :
  match_type g = phone_match → identifier g ≠ "" →
  group_existing g w = None →
  owner_by_phone (identifier g) (detected_owners w) = None.
Proof.
  intros Hm Hi. unfold group_existing. rewrite group_lookup_phone by done.
  rewrite head_owners_with_phone_by_phone. by destruct (owner_by_phone _ _).
Qed.

Lemma owners_scored_ids g w :
  map o_id (owners_scored env g w)
  = map o_id (detected_owners w)
    ++ (if group_existing g w is Some _ then [] else [fresh_id (detected_owners w)]).
Proof.
  unfold owners_scored, owners_written. rewrite set_risk_ids.
  destruct (group_existing g w).
  - by rewrite update_rows_ids, app_nil_r.
  - by rewrite map_app.
Qed.

Lemma group_owner_id_scored g w :
  group_owner_id g w ∈ map o_id (owners_scored env g w).
Proof.
  rewrite owners_scored_ids. unfold group_owner_id.
  destruct (group_existing g w) as [e|] eqn:He.
  - apply group_existing_Some in He as (_ & o & _ & <- & Ho & _).
    rewrite app_nil_r. apply list_elem_of_fmap. eauto.
  - apply elem_of_app. right. by left.
Qed.

(** The constraints of the tables survive a step. *)
Lemma step_wf g w seg :
  wf_store w → wf_store (exit_world env g w ExitDone seg).
Proof.
  intros (Hids & Hkeys & Href). unfold wf_store.
  cbn [detected_owners owner_listings exit_world exit_owners exit_links].
  destruct (links_after_keys (group_owner_id g w) (match_type g) (listings g)
              (owner_listings w)) as (extra & Hk & _ & Hnd & _ & _ & Hel).
  split_and!.
  - change (owners_scored env g w) with (exit_owners env g w ExitDone).
    by apply exit_owners_NoDup.
  - unfold links_written. rewrite Hk. by apply Hnd.
  - intros r Hr. apply Hel in Hr as [Hr| ->].
    + rewrite owners_scored_ids. apply elem_of_app. left. by apply Href.
    + apply group_owner_id_scored.
Qed.

(** The update of a phone group leaves every phone where it is. *)
Lemma update_rows_by_phone g w e p :
  NoDup (map o_id (detected_owners w)) →
  group_existing g w = Some e →
  owner_by_phone p (update_rows e (group_owner_data env g w) (detected_owners w))
  = (λ o, if decide (o_id o = e) then apply_update (group_owner_data env g w) o else o)
    <$> owner_by_phone p (detected_owners w).
Proof.
  intros Hnd He. unfold update_rows. apply owner_by_phone_fmap.
  intros o Ho. case_decide as Hid; [|done].
  apply group_existing_Some in He as (Hm & o' & _ & Hid' & Ho' & Hp').
  assert (o = o') as -> by (eapply (NoDup_map_inj o_id); eauto; congruence).
  rewrite (group_owner_data_phone env g w Hm). cbn. by rewrite Hp'.
Qed.

(** After its own step a phone group is settled on the owner it worked on. *)
Lemma step_settles g w seg :
  averaged g →
  wf_store w → match_type g = phone_match → identifier g ≠ "" →
  settled g (group_owner_id g w) (exit_world env g w ExitDone seg).
Proof.
  intros Ha%averaged_Ok (Hids & Hkeys & Href) Hm Hi. unfold settled.
  cbn [detected_owners owner_listings exit_world exit_owners exit_links].
  destruct (links_after_keys (group_owner_id g w) (match_type g) (listings g)
              (owner_listings w)) as (extra & Hk & _ & _ & Hin & _ & _).
  unfold links_written. rewrite Hk.
  unfold owners_scored. rewrite set_risk_by_phone.
  revert Hin. unfold owners_written, group_owner_id.
  destruct (group_existing g w) as [e|] eqn:He; intros Hin.
  - rewrite (update_rows_by_phone g w e) by done.
    pose proof He as He'.
    apply group_existing_Some in He' as (_ & o & Ho & Hid & _ & _).
    rewrite Ho. cbn [fmap option_fmap option_map].
    rewrite (decide_True (P := o_id o = e)) by done.
    cbn [o_id apply_update]. rewrite decide_True by done.
    eexists. split; [done|]. cbn [o_id].
    split; [done|]. split; [|done].
    rewrite (group_owner_data_phone env g w Hm).
    unfold aggregates. cbn. split_and!; done.
  - rewrite owner_by_phone_app, (group_existing_None_phone g w Hm Hi He).
    rewrite (group_owner_data_phone env g w Hm).
    unfold owner_by_phone. rewrite filter_cons_True by done.
    cbn [head fmap option_fmap option_map o_id new_row].
    rewrite decide_True by done.
    eexists. split; [done|]. cbn [o_id]. split; [done|]. split; [|done].
    unfold aggregates. cbn. split_and!; done.
Qed.

(** The id a group works on is not the id on which a group with another
    phone is settled. *)
Lemma group_owner_id_other g g0 i w :
  NoDup (map o_id (detected_owners w)) →
  settled g0 i w →
  (match_type g = phone_match → identifier g ≠ identifier g0) →
  group_owner_id g w ≠ i.
Proof.
  intros Hnd (o0 & Ho0 & Hid0 & _) Hne.
  apply owner_by_phone_Some in Ho0 as [Hin0 Hp0].
  unfold group_owner_id. destruct (group_existing g w) as [e|] eqn:He.
  - apply group_existing_Some in He as (Hm & o & _ & Hid & Hin & Hp).
    intros ->. assert (o = o0) as -> by (eapply (NoDup_map_inj o_id); eauto; congruence).
    apply (Hne Hm). congruence.
  - intros Hf. apply (fresh_id_fresh (detected_owners w)). rewrite Hf, <- Hid0.
    apply list_elem_of_fmap. eauto.
Qed.

(** The step of a group leaves a group with another phone settled, on the
    same owner. *)
Lemma step_keeps_settled g g0 i w seg :
  wf_store w →
  settled g0 i w →
  (match_type g = phone_match → identifier g ≠ identifier g0) →
  settled g0 i (exit_world env g w ExitDone seg).
Proof.
  intros (Hids & Hkeys & Href) Hs Hne.
  pose proof (group_owner_id_other g g0 i w Hids Hs Hne) as Hoid.
  destruct Hs as (o0 & Ho0 & Hid0 & Hagg & Hlinks).
  exists o0. cbn [detected_owners owner_listings exit_world exit_owners exit_links].
  split_and!; try done.
  - unfold owners_scored. rewrite set_risk_by_phone.
    assert (owner_by_phone (identifier g0) (owners_written env g w) = Some o0) as ->.
    { unfold owners_written. unfold group_owner_id in Hoid.
      destruct (group_existing g w) as [e|] eqn:He.
      - rewrite (update_rows_by_phone g w e) by done. rewrite Ho0.
        cbn. rewrite decide_False by congruence. done.
      - rewrite owner_by_phone_app, Ho0. done. }
    cbn. rewrite decide_False by congruence. done.
  - intros l Hl.
    destruct (links_after_keys (group_owner_id g w) (match_type g) (listings g)
                (owner_listings w)) as (extra & Hk & _).
    unfold links_written. rewrite Hk. apply elem_of_app. left. by apply Hlinks.
Qed.


(** The link keys a step adds belong to the owner the group works on. *)
Lemma step_link_keys g w :
  ∃ extra,
    map link_key (links_written g w) = map link_key (owner_listings w) ++ extra
    ∧ Forall (λ k, fst k = group_owner_id g w) extra.
Proof.
  destruct (links_after_keys (group_owner_id g w) (match_type g) (listings g)
              (owner_listings w)) as (extra & Hk & Hoid & _).
  exists extra. done.
Qed.

End Steps.

Section PhoneKeys.

Lemma dict_append_keys_list k l d :
  map fst (dict_append k l d)
  = if decide (k ∈ map fst d) then map fst d else map fst d ++ [k].
Proof.
  induction d as [|[k' ls] d IH]; cbn [dict_append map fst].
  - rewrite decide_False by apply not_elem_of_nil. done.
  - destruct (decide (k' = k)) as [->|Hne].
    + rewrite decide_True by left. done.
    + cbn [map fst]. rewrite IH.
      destruct (decide (k ∈ map fst d)) as [Hin|Hin].
      * rewrite decide_True by (by right). done.
      * rewrite decide_False; [done|]. intros [?|?]%elem_of_cons; congruence.
Qed.

Lemma dict_append_keys_NoDup k l d :
  NoDup (map fst d) → NoDup (map fst (dict_append k l d)).
Proof.
  intros Hnd. rewrite dict_append_keys_list. case_decide; [done|].
  apply NoDup_app. split_and!; [done| |apply NoDup_singleton].
  intros x Hx [->|[]%elem_of_nil]%elem_of_cons. done.
Qed.

Lemma dict_append_keys_Forall (P : string → Prop) k l d :
  P k → Forall P (map fst d) → Forall P (map fst (dict_append k l d)).
Proof.
  intros Hk Hd. rewrite dict_append_keys_list. case_decide; [done|].
  apply Forall_app. split; [done|]. by apply Forall_singleton.
Qed.

Lemma index_listings_phone_keys ls acc :
  NoDup (map fst (fst acc)) → Forall (λ k, k ≠ "") (map fst (fst acc)) →
  NoDup (map fst (fst (fold_left index_listing ls acc)))
  ∧ Forall (λ k, k ≠ "") (map fst (fst (fold_left index_listing ls acc))).
Proof.
  revert acc. induction ls as [|l ls IH]; intros [d1 d2] Hnd Hne; [done|].
  cbn [fold_left]. apply IH; unfold index_listing; cbn [fst] in *.
  - destruct (extract_phone_from_listing l) as [p|]; [|done].
    destruct (Py.truthy p); [|done]. by apply dict_append_keys_NoDup.
  - destruct (extract_phone_from_listing l) as [p|]; [|done].
    destruct (Py.truthy p) eqn:Hp; [|done].
    apply dict_append_keys_Forall; [|done]. by destruct p.
Qed.

Lemma fold_add_phone_group_identifiers d acc :
  ∃ ks, map identifier (fst (fold_left add_phone_group d acc))
        = map identifier (fst acc) ++ ks
        ∧ ks `sublist_of` map fst d.
Proof.
  revert acc. induction d as [|[k ls] d IH]; intros [gs P]; cbn [fold_left].
  - exists []. by rewrite app_nil_r.
  - destruct (IH (add_phone_group (gs, P) (k, ls))) as (ks & Hk & Hsub).
    rewrite Hk. unfold add_phone_group. cbn [map fst].
    destruct (1 <=? length ls).
    + cbn [fst]. rewrite map_app, <- app_assoc. cbn.
      exists (k :: ks). split; [done|]. by constructor.
    + exists ks. split; [done|]. by constructor.
Qed.

Lemma fold_add_host_group_app d acc :
  ∃ hg, fst (fold_left add_host_group d acc) = fst acc ++ hg
        ∧ Forall (λ g, match_type g = host_id_match) hg.
Proof.
  revert acc. induction d as [|[k ls] d IH]; intros [gs P]; cbn [fold_left].
  - exists []. by rewrite app_nil_r.
  - destruct (IH (add_host_group (gs, P) (k, ls))) as (hg & Hk & Hh).
    rewrite Hk. unfold add_host_group. cbn [fst snd].
    destruct (filter _ (map listing_id ls)) as [|i ids] eqn:Hids; [eauto|].
    rewrite <- Hids. clear Hids.
    destruct (filter _ ls) as [|x xs] eqn:Hxs; [eauto|].
    cbn [fst]. rewrite <- app_assoc.
    eexists. split; [done|]. constructor; done.
Qed.

Lemma filter_all {A} (P : A → Prop) `{!∀ x, Decision (P x)} (xs : list A) :
  Forall P xs → filter P xs = xs.
Proof.
  induction 1 as [|x xs Hx _ IH]; [done|]. by rewrite filter_cons_True, IH.
Qed.

Lemma filter_none {A} (P : A → Prop) `{!∀ x, Decision (P x)} (xs : list A) :
  Forall (λ x, ¬ P x) xs → filter P xs = [].
Proof.
  induction 1 as [|x xs Hx _ IH]; [done|]. by rewrite filter_cons_False.
Qed.

(** The phone groups of the builder are the groups of the phone loop. *)
Lemma phone_groups_build ls :
  phone_groups (build_owner_groups ls) = fst (phone_owner_groups ls).
Proof.
  unfold build_owner_groups.
  destruct (fold_add_host_group_app (snd (index_listings ls)) (phone_owner_groups ls))
    as (hg & -> & Hh).
  unfold phone_groups. rewrite filter_app, filter_all, filter_none.
  - by rewrite app_nil_r.
  - eapply Forall_impl; [exact Hh|]. intros g Hg. by rewrite Hg.
  - eapply Forall_impl; [apply phone_owner_groups_ok|]. by intros g (? & _).
Qed.

Lemma build_owner_groups_ok ls : groups_ok (build_owner_groups ls).
Proof.
  unfold groups_ok. rewrite phone_groups_build. unfold phone_owner_groups.
  destruct (fold_add_phone_group_identifiers (fst (index_listings ls)) ([], ∅))
    as (ks & Hk & Hsub).
  cbn [fst map app] in Hk.
  destruct (index_listings_phone_keys ls ([], [])) as [Hnd Hne];
    [constructor|constructor|].
  fold (index_listings ls) in Hnd, Hne.
  split.
  - rewrite Hk. by eapply sublist_NoDup.
  - apply Forall_forall. intros g Hg.
    apply (proj1 (Forall_forall _ _) Hne). eapply elem_of_sublist; [|exact Hsub].
    rewrite <- Hk. apply list_elem_of_fmap. eauto.
Qed.

End PhoneKeys.

Section TwoRuns.

Context (env : Env) (Hnf : no_faults env).

Lemma groups_ok_cons g gs :
  groups_ok (g :: gs) →
  groups_ok gs
  ∧ (match_type g = phone_match →
     identifier g ≠ ""
     ∧ ∀ g', g' ∈ phone_groups gs → identifier g' ≠ identifier g).
Proof.
  unfold groups_ok, phone_groups. rewrite filter_cons.
  destruct (decide (match_type g = phone_match)) as [Hm|Hm].
  - cbn [map]. intros [Hnd Hne].
    apply NoDup_cons in Hnd as [Hg Hnd]. apply Forall_cons in Hne as [Hi Hne].
    split; [done|]. intros _. split; [done|]. intros g' Hg' Heq.
    apply Hg. rewrite <- Heq. apply list_elem_of_fmap. eauto.
  - intros [Hnd Hne]. split; [done|]. done.
Qed.


Lemma wf_store_tables w w' :
  detected_owners w' = detected_owners w → owner_listings w' = owner_listings w →
  wf_store w → wf_store w'.
Proof. unfold wf_store. by intros -> ->. Qed.

Lemma phone_groups_elem g gs :
  g ∈ phone_groups gs ↔ g ∈ gs ∧ match_type g = phone_match.
Proof. unfold phone_groups. rewrite list_elem_of_filter. naive_solver. Qed.



Lemma filter_averaged_cons g gs :
  filter averaged (g :: gs)
  = if decide (averaged g) then g :: filter averaged gs else filter averaged gs.
Proof. by rewrite filter_cons. Qed.




End TwoRuns.

(** ** The link rows of a run *)

Section LinkRows.

Context (env : Env).

Lemma link_data_eq oid mt l l' :
  listing_id l' = listing_id l → link_data oid l' mt = link_data oid l mt.
Proof. unfold link_data. by intros ->. Qed.

Lemma upsert_row_here r links : r ∈ upsert_row r links.
Proof.
  induction links as [|x links IH]; cbn [upsert_row]; [left|].
  case_decide; [left|by right].
Qed.

Lemma upsert_row_other r r' links :
  r' ∈ links → link_key r' ≠ link_key r → r' ∈ upsert_row r links.
Proof.
  intros Hin Hne. induction links as [|x links IH]; [by apply elem_of_nil in Hin|].
  cbn [upsert_row]. apply elem_of_cons in Hin as [<-|Hin].
  - rewrite decide_False; [left|]. intros [H1 H2]. apply Hne.
    unfold link_key. by rewrite H1, H2.
  - case_decide; right; auto.
Qed.

Lemma upsert_link_data_keeps oid mt l l' links :
  link_data oid l mt ∈ links →
  link_data oid l mt ∈ upsert_row (link_data oid l' mt) links.
Proof.
  intros Hin. destruct (decide (listing_id l' = listing_id l)) as [Heq|Hne].
  - rewrite (link_data_eq oid mt l l' Heq). apply upsert_row_here.
  - apply upsert_row_other; [done|]. unfold link_key, link_data. cbn. congruence.
Qed.

Lemma links_after_keeps_data oid mt ls links l :
  link_data oid l mt ∈ links → link_data oid l mt ∈ links_after oid mt ls links.
Proof.
  revert links. induction ls as [|l' ls IH]; intros links Hin; [done|].
  rewrite links_after_cons. by apply IH, upsert_link_data_keeps.
Qed.

(** After the loop of lines 221-231, every listing of the group has its
    link row. *)
Lemma links_after_member oid mt ls links l :
  l ∈ ls → link_data oid l mt ∈ links_after oid mt ls links.
Proof.
  revert links. induction ls as [|l' ls IH]; intros links Hin.
  { by apply elem_of_nil in Hin. }
  rewrite links_after_cons. apply elem_of_cons in Hin as [->|Hin]; [|by apply IH].
  apply links_after_keeps_data, upsert_row_here.
Qed.

(** The loop leaves the rows of other owners as they are. *)
Lemma links_after_keeps_owner r oid mt ls links :
  r ∈ links → owner_id r ≠ oid → r ∈ links_after oid mt ls links.
Proof.
  revert links. induction ls as [|l ls IH]; intros links Hin Hne; [done|].
  rewrite links_after_cons. apply IH; [|done].
  apply upsert_row_other; [done|]. unfold link_key. cbn. congruence.
Qed.

(** A row after the loop was there before or is the row of a listing. *)
Lemma links_after_origin oid mt ls links x :
  x ∈ links_after oid mt ls links →
  x ∈ links ∨ ∃ l, l ∈ ls ∧ x = link_data oid l mt.
Proof.
  revert links. induction ls as [|l ls IH]; intros links; [by left|].
  rewrite links_after_cons. intros [Hx|(l' & Hl' & ->)]%IH.
  - apply upsert_row_elem in Hx as [->|?]; [|by left].
    right. exists l. split; [left|done].
  - right. exists l'. split; [by right|done].
Qed.

(** Whatever fails, the rows a block leaves were there before or are link
    rows of listings of its group, with the group's match type; the group
    is then one whose average price is computed. *)
Lemma try_save_group_rows g w st r :
  r ∈ owner_listings (fst (try_save_group env (w, st) g)) →
  r ∈ owner_listings w
  ∨ averaged g ∧ ∃ l, l ∈ listings g ∧ r = link_data (owner_id r) l (match_type g).
Proof.
  destruct (decide (averaged g)) as [Ha|Ha]; cycle 1.
  { rewrite (try_save_group_overflow env g w st Ha). by left. }
  destruct (try_save_group_links env g w st) as (oid & k & ->).
  intros [?|(l & Hl & ->)]%links_after_origin; [by left|].
  right. split; [done|]. exists l. split; [|done].
  eapply elem_of_sublist; [exact Hl|apply sublist_take].
Qed.

Lemma fold_try_save_group_rows gs w st r :
  r ∈ owner_listings (fst (fold_left (try_save_group env) gs (w, st))) →
  r ∈ owner_listings w
  ∨ ∃ g l, g ∈ gs ∧ averaged g ∧ l ∈ listings g
           ∧ r = link_data (owner_id r) l (match_type g).
Proof.
  revert w st. induction gs as [|g gs IH]; intros w st; [by left|].
  cbn [fold_left].
  pose proof (try_save_group_rows g w st r) as Hstep.
  destruct (try_save_group env (w, st) g) as [w1 st1]. cbn [fst] in Hstep.
  intros [Hr|(g' & l & Hg' & Ha' & Hl & Hr)]%IH.
  - destruct (Hstep Hr) as [?|(Ha & l & Hl & Heq)]; [by left|].
    right. exists g, l. split; [left|done].
  - right. exists g', l. split; [by right|done].
Qed.

Lemma group_owner_data_aggregate g w :
  let d := group_owner_data env g w in
  od_names d = t_names (tally (listings g))
  ∧ od_host_ids d = t_host_ids (tally (listings g))
  ∧ od_platforms d = t_platforms (tally (listings g))
  ∧ od_listing_count d = length (listings g)
  ∧ od_active_listing_count d = length (listings g)
  ∧ od_unregistered_count d = length (listings g)
  ∧ od_registered_count d = 0
  ∧ od_avg_price_per_night d = group_avg g
  ∧ od_estimated_monthly_revenue d
    = estimated_monthly (group_avg g) (length (listings g))
  ∧ od_last_seen_at d = now env (clock_reads w)
  ∧ (match_type g = phone_match → od_primary_phone d = Some (identifier g)).
Proof.
  destruct (match_type g) eqn:Hm.
  - rewrite (group_owner_data_phone env g w Hm). cbn. split_and!; done.
  - rewrite (group_owner_data_host env g w Hm). cbn. split_and!; done.
Qed.

(** The row the update or the insert leaves for the group. *)
Lemma owners_written_row g w :
  averaged g →
  ∃ o, o ∈ owners_written env g w
       ∧ o_id o = group_owner_id g w
       ∧ aggregates o (listings g)
       ∧ last_seen_at o = now env (clock_reads w)
       ∧ (match_type g = phone_match → primary_phone o = Some (identifier g)).
Proof.
  intros Ha%averaged_Ok.
  destruct (group_owner_data_aggregate g w)
    as (H1 & H2 & H3 & H4 & H5 & H6 & H7 & H8 & H9 & H10 & H11).
  unfold owners_written, group_owner_id.
  destruct (group_existing g w) as [e|] eqn:He.
  - apply group_existing_Some in He as (_ & o & _ & Hid & Ho & _).
    exists (apply_update (group_owner_data env g w) o). split_and!.
    + unfold update_rows. apply list_elem_of_fmap. exists o. split; [|done].
      by rewrite decide_True.
    + done.
    + unfold aggregates. cbn. rewrite H8, H9. split_and!; done.
    + done.
    + intros Hm. cbn. by rewrite (H11 Hm).
  - eexists. split; [apply elem_of_app; right; left|].
    split; [done|]. split; [|split; [done|]].
    + unfold aggregates. cbn. rewrite H8, H9. split_and!; done.
    + intros Hm. cbn. by apply H11.
Qed.

Lemma set_risk_row e z os o :
  o ∈ os →
  ∃ o', o' ∈ set_risk e z os
        ∧ o_id o' = o_id o ∧ primary_phone o' = primary_phone o
        ∧ last_seen_at o' = last_seen_at o
        ∧ ∀ ls, aggregates o ls → aggregates o' ls.
Proof.
  intros Ho. eexists. split.
  - unfold set_risk. apply list_elem_of_fmap. exists o. split; [done|exact Ho].
  - cbn beta. case_decide; done.
Qed.

Lemma owners_scored_row_host g w :
  averaged g →
  match_type g = host_id_match →
  ∃ o, o ∈ owners_scored env g w
       ∧ o_id o = group_owner_id g w
       ∧ aggregates o (listings g)
       ∧ primary_phone o = None.
Proof.
  intros Ha%averaged_Ok Hm.
  assert (∃ o, o ∈ owners_written env g w ∧ o_id o = group_owner_id g w
               ∧ aggregates o (listings g) ∧ primary_phone o = None)
    as (o & Ho & Hid & Hagg & Hp).
  { unfold owners_written, group_owner_id.
    rewrite (group_existing_host g w Hm), (group_owner_data_host env g w Hm).
    eexists. split; [apply elem_of_app; right; left|].
    split; [done|]. split; [|done]. unfold aggregates. cbn. split_and!; done. }
  destruct (set_risk_row (group_owner_id g w)
              (risk env (owners_written env g w) (links_written g w) (group_owner_id g w))
              _ o Ho) as (o' & Ho' & Hid' & Hp' & _ & Hagg').
  exists o'. split; [exact Ho'|]. split; [congruence|]. split; [by apply Hagg'|].
  congruence.
Qed.

(** The step of a group resolves it. *)
Lemma step_resolves g w seg :
  averaged g →
  wf_store w → (match_type g = phone_match → identifier g ≠ "") →
  resolved g (exit_world env g w ExitDone seg).
Proof.
  intros Ha Hwf Hi. unfold resolved.
  cbn [detected_owners owner_listings exit_world exit_owners exit_links].
  destruct (match_type g) eqn:Hm.
  - destruct (step_settles env g w seg Ha Hwf Hm (Hi eq_refl))
      as (o & Ho & Hid & Hagg & _).
    cbn [detected_owners owner_listings exit_world exit_owners exit_links] in Ho.
    exists o. split; [by apply owner_by_phone_Some in Ho as [? _]|].
    split; [done|]. split; [done|].
    intros l Hl. rewrite Hid, <- Hm. unfold links_written. by apply links_after_member.
  - destruct (owners_scored_row_host g w Ha Hm) as (o & Ho & Hid & Hagg & Hp).
    exists o. split; [done|]. split; [done|]. split; [done|].
    intros l Hl. rewrite Hid, <- Hm. unfold links_written. by apply links_after_member.
Qed.

(** The step of a group leaves resolved every group that is not a phone
    group with the same phone: it works on another owner. *)
Lemma step_keeps_resolved g g0 w seg :
  wf_store w → resolved g0 w →
  (match_type g = phone_match → match_type g0 = phone_match →
   identifier g ≠ identifier g0) →
  resolved g0 (exit_world env g w ExitDone seg).
Proof.
  intros Hwf (o & Ho & Hagg & Hkey & Hlinks) Hne.
  pose proof Hwf as (Hids & _ & _).
  assert (settled_or_phoneless :
            match match_type g0 with
            | phone_match => settled g0 (o_id o) w
            | host_id_match => primary_phone o = None
            end).
  { destruct (match_type g0) eqn:Hm0; [|done].
    exists o. split_and!; try done. intros l Hl.
    apply list_elem_of_fmap. exists (link_data (o_id o) l phone_match).
    split; [done|]. by apply Hlinks. }
  assert (group_owner_id g w ≠ o_id o) as Hoid.
  { destruct (match_type g0) eqn:Hm0.
    - apply (group_owner_id_other g g0 (o_id o) w Hids settled_or_phoneless).
      intros Hm. by apply Hne.
    - intros Heq. by apply (group_owner_id_not_phoneless g w o Hids Ho). }
  assert (∀ l, l ∈ listings g0 →
               link_data (o_id o) l (match_type g0) ∈ links_written g w) as Hlinks'.
  { intros l Hl. unfold links_written.
    apply links_after_keeps_owner; [by apply Hlinks|]. cbn. congruence. }
  unfold resolved.
  cbn [detected_owners owner_listings exit_world exit_owners exit_links].
  destruct (match_type g0) eqn:Hm0.
  - destruct (step_keeps_settled env g g0 (o_id o) w seg Hwf settled_or_phoneless)
      as (o' & Ho' & Hid' & Hagg' & _).
    { intros Hm. by apply Hne. }
    cbn [detected_owners owner_listings exit_world exit_owners exit_links] in Ho'.
    exists o'. split; [by apply owner_by_phone_Some in Ho' as [? _]|].
    split; [done|]. split; [done|]. rewrite Hid'. done.
  - exists o. split.
    + change (owners_scored env g w) with (exit_owners env g w ExitDone).
      by apply exit_owners_keeps_phoneless.
    + done.
Qed.

Context (Hnf : no_faults env).

Lemma resolved_tables g w w' :
  detected_owners w' = detected_owners w → owner_listings w' = owner_listings w →
  resolved g w → resolved g w'.
Proof. unfold resolved. by intros -> ->. Qed.

Lemma fold_keeps_resolved gs w st g0 :
  wf_store w → resolved g0 w →
  (match_type g0 = phone_match →
   ∀ g, g ∈ gs → match_type g = phone_match → identifier g ≠ identifier g0) →
  resolved g0 (fst (fold_left (try_save_group env) gs (w, st))).
Proof.
  revert w st. induction gs as [|g gs IH]; intros w st Hwf Hr Hne; [done|].
  cbn [fold_left]. destruct (decide (averaged g)) as [Ha|Ha]; cycle 1.
  { rewrite (try_save_group_overflow env g w st Ha).
    apply IH; [by apply (wf_store_tables w)|by apply (resolved_tables g0 w)|].
    intros Hm0 g' Hg'. apply Hne; [done|by right]. }
  destruct (try_save_group_done env Hnf g w st Ha) as (seg & -> & _).
  apply IH.
  - by apply step_wf.
  - apply step_keeps_resolved; [done|done|].
    intros Hm Hm0. apply Hne; [done|left|done].
  - intros Hm0 g' Hg'. apply Hne; [done|by right].
Qed.

(** After the loop, every group whose average price is computed is
    resolved. *)
Lemma fold_resolves gs w st :
  wf_store w → groups_ok gs →
  let w' := fst (fold_left (try_save_group env) gs (w, st)) in
  wf_store w' ∧ ∀ g, g ∈ gs → averaged g → resolved g w'.
Proof.
  revert w st. induction gs as [|g gs IH]; intros w st Hwf Hok.
  - cbn. split; [done|]. intros g []%elem_of_nil.
  - cbn [fold_left].
    destruct (groups_ok_cons g gs Hok) as [Hok' Hg].
    destruct (decide (averaged g)) as [Ha|Ha]; cycle 1.
    { rewrite (try_save_group_overflow env g w st Ha).
      destruct (IH (eprint (error_line overflow_text) w) st) as [Hwf' Hall];
        [by apply (wf_store_tables w)|done|].
      split; [done|]. intros g0 [->|Hg0]%elem_of_cons Ha0; [done|by apply Hall]. }
    destruct (try_save_group_done env Hnf g w st Ha) as (seg & Hstep & _).
    rewrite Hstep.
    pose proof (step_wf env g w seg Hwf) as Hwf1.
    destruct (IH (exit_world env g w ExitDone seg) (exit_stats g w ExitDone st)
                Hwf1 Hok') as [Hwf' Hall].
    split; [done|]. intros g0 [->|Hg0]%elem_of_cons Ha0; [|by apply Hall].
    apply fold_keeps_resolved.
    + done.
    + apply step_resolves; [done|done|]. intros Hm. by destruct (Hg Hm).
    + intros Hm g' Hg' Hm'. destruct (Hg Hm) as [_ Hothers].
      apply Hothers. by apply phone_groups_elem.
Qed.

End LinkRows.


(** ** The theorems at sample inputs *)

Lemma steady_no_faults : no_faults Sample.steady.
Proof. intros n. reflexivity. Defined.


(** Witness of C1: two listings with distinct ids. *)
Lemma one_cluster_per_listing_witness :
  NoDup (map listing_id [Sample.A; Sample.B])
  ∧ NoDup (claimed_ids (build_owner_groups [Sample.A; Sample.B]))
  ∧ NoDup (map scraped_listing_id
             (owner_listings
                (fst (detect_owners Sample.flaky (Sample.world [Sample.A; Sample.B]))))).
Proof.
  assert (NoDup (map listing_id [Sample.A; Sample.B])) as Hnd
    by (apply (bool_decide_unpack _); vm_compute; exact I).
  split; [exact Hnd|]. split.
  - exact (proj1 (proj1 one_cluster_per_listing [Sample.A; Sample.B] Hnd)).
  - apply (proj2 one_cluster_per_listing); [exact Hnd|reflexivity|reflexivity].
Defined.

(** Witness of C2. *)
Lemma normalize_phone_correct_witness :
  normalize_phone "77 123 45 67" = Some "+221771234567".
Proof.
  apply (proj1 (proj2 normalize_phone_correct)).
  eexists. split; [reflexivity|]. split; [|reflexivity].
  apply (bool_decide_unpack _). vm_compute. exact I.
Defined.

(** Witness of C3: the first field is rejected, the second one is taken. *)
Lemma signal_extractor_correct_witness :
  phone_fields (raw_data_or_empty Sample.C)
  = [Some "123"] ++ Some "0771234567" :: [None; None]
  ∧ Forall (λ x, x ≫= normalize_phone = None) [Some "123"]
  ∧ Some "0771234567" ≫= normalize_phone = Some "+221771234567"
  ∧ extract_phone_from_listing Sample.C = Some "+221771234567".
Proof.
  assert (Forall (λ x, x ≫= normalize_phone = None) [Some "123"]) as Hpre
    by (constructor; [reflexivity|constructor]).
  split; [reflexivity|]. split; [exact Hpre|]. split; [reflexivity|].
  exact (proj1 (proj2 signal_extractor_correct) Sample.C [Some "123"]
           (Some "0771234567") [None; None] "+221771234567"
           eq_refl Hpre eq_refl).
Defined.

(** Witness of C4. *)
Lemma phone_claim_precedes_host_id_witness :
  extract_phone_from_listing Sample.A = Some "+221771111111"
  ∧ extract_phone_from_listing Sample.B = None
  ∧ listing_id Sample.A ≠ listing_id Sample.B
  ∧ build_owner_groups [Sample.A; Sample.B] = [Sample.gA; Sample.gB]
  ∧ build_owner_groups [Sample.B; Sample.A] = [Sample.gA; Sample.gB].
Proof.
  assert (listing_id Sample.A ≠ listing_id Sample.B) as Hne by discriminate.
  assert ("h1" ≠ "") as Hh by discriminate.
  split; [reflexivity|]. split; [reflexivity|]. split; [exact Hne|].
  exact (phone_claim_precedes_host_id Sample.A Sample.B "+221771111111" "h1"
           eq_refl eq_refl eq_refl eq_refl eq_refl eq_refl Hh Hne).
Defined.

(** Counterexample to C5 as stated: on a store without owners and with a
    clock that advances between two reads, the owner inserted for the phone
    cluster of [A] has [last_seen_at] 0 and [first_seen_at] 1. *)
Lemma first_seen_is_a_later_reading :
  ∃ o, detected_owners
         (fst (fst (save_group Sample.steady Sample.gA
                      (Sample.world [Sample.A], zero_stats)))) = [o]
       ∧ primary_phone o = Some "+221771111111"
       ∧ last_seen_at o = 0%Z
       ∧ first_seen_at o = 1%Z
       ∧ first_seen_at o ≠ last_seen_at o.
Proof.
  eexists. split; [vm_compute; reflexivity|].
  split; [reflexivity|]. split; [reflexivity|]. split; [reflexivity|]. discriminate.
Qed.

(** Witness of C5. *)
Lemma phone_group_reconciled_witness :
  no_faults Sample.steady
  ∧ averaged Sample.gA
  ∧ match_type Sample.gA = phone_match
  ∧ identifier Sample.gA ≠ ""
  ∧ snd (save_group Sample.steady Sample.gA (Sample.world [Sample.A], zero_stats)) = Ok ().
Proof.
  assert (identifier Sample.gA ≠ "") as Hi by discriminate.
  assert (averaged Sample.gA) as Ha by reflexivity.
  split; [exact steady_no_faults|]. split; [exact Ha|].
  split; [reflexivity|]. split; [exact Hi|].
  exact (proj1 (proj2 (phone_group_reconciled Sample.steady Sample.gA
                         (Sample.world [Sample.A]) zero_stats steady_no_faults
                         eq_refl Hi) Ha)).
Defined.

(** Counterexample to C6 as stated: the host-id cluster of [H], whose
    price is beyond the range of a float.  No store call fails, and yet the
    block raises at the division and inserts nothing: after three runs the
    table of owners is still empty, and the last line that a run prints is
    that of the overflow. *)
Lemma overflowing_host_group_inserts_nothing :
  let w := Sample.world [Sample.H] in
  build_owner_groups (active_listings w) = [Sample.gH]
  ∧ match_type Sample.gH = host_id_match
  ∧ save_group Sample.steady Sample.gH (w, zero_stats)
    = ((w, zero_stats), Raise overflow_text)
  ∧ detected_owners (run Sample.steady w) = []
  ∧ detected_owners (Nat.iter 3 (run Sample.steady) w) = []
  ∧ last (stderr (run Sample.steady w))
    = Some "[Owner Detection] Error saving owner: integer division result too large for a float".
Proof. vm_compute. repeat split. Qed.

(** Witness of C6: three runs over a store with one host-id cluster. *)
Lemma host_id_group_always_inserts_witness :
  no_faults Sample.steady
  ∧ Forall averaged (build_owner_groups (active_listings (Sample.world [Sample.B])))
  ∧ Forall (λ g, match_type g = host_id_match)
      (build_owner_groups (active_listings (Sample.world [Sample.B])))
  ∧ length (detected_owners (Nat.iter 3 (run Sample.steady) (Sample.world [Sample.B])))
    = length (detected_owners (Sample.world [Sample.B]))
      + 3 * length (build_owner_groups (active_listings (Sample.world [Sample.B]))).
Proof.
  assert (Forall (λ g, match_type g = host_id_match)
            (build_owner_groups (active_listings (Sample.world [Sample.B])))) as Hgs
    by (repeat constructor).
  assert (Forall averaged (build_owner_groups (active_listings (Sample.world [Sample.B]))))
    as Hav by (repeat constructor).
  split; [exact steady_no_faults|]. split; [exact Hav|]. split; [exact Hgs|].
  exact (proj2 (proj1 (proj2 (proj2 (proj2 host_id_group_always_inserts))) Sample.steady
                  (Sample.world [Sample.B]) 3 steady_no_faults Hgs) Hav).
Defined.


(** Counterexample to C8 as stated: for prices 100 and 151 the aggregated
    average is 125, which is not the arithmetic mean 251/2. *)
Lemma avg_price_is_not_the_mean :
  avg_price (tally [Sample.A; Sample.B]) = Ok 125%Z
  ∧ od_avg_price_per_night (build_owner_data [Sample.A; Sample.B] 125%Z 0%Z) = 125%Z
  ∧ ¬ (inject_Z 125 == Spec.mean (Spec.positive_prices [Sample.A; Sample.B]))%Q.
Proof.
  split; [by vm_compute|]. split; [reflexivity|]. vm_compute. discriminate.
Qed.

(** Witness of C8. *)
Lemma aggregator_price_and_revenue_witness :
  price Sample.P1 = Some 100%Z ∧ price Sample.P2 = Some 150%Z
  ∧ price Sample.P3 = Some 50%Z
  ∧ avg_price (tally [Sample.P1; Sample.P2; Sample.P3]) = Ok 100%Z
  ∧ od_estimated_monthly_revenue
      (build_owner_data [Sample.P1; Sample.P2; Sample.P3] 100%Z 0%Z)
    = 4500%Z.
Proof.
  split; [reflexivity|]. split; [reflexivity|]. split; [reflexivity|].
  exact (proj1 (proj2 (proj2 (proj2 aggregator_price_and_revenue)))
           Sample.P1 Sample.P2 Sample.P3 0%Z eq_refl eq_refl eq_refl).
Defined.

(** Counterexample to C9 as stated: the upsert of the link of [A] times
    out after its owner row was inserted.  The line printed does not
    contain the identifier of the group, and [new_owners] counts the group
    although it is not among the saved ones. *)
Lemma failure_is_logged_without_identifier :
  let gs := [Sample.gA] in
  let w := Sample.world [Sample.A] in
  let outs := outcomes Sample.flaky gs (w, zero_stats) in
  let w' := fst (save_owners_to_db Sample.flaky gs w) in
  let stats := snd (save_owners_to_db Sample.flaky gs w) in
  outs = [Raise "timeout"]
  ∧ stderr w' = ["[Owner Detection] Error saving owner: timeout"]
  ∧ Forall (λ line, Py.contains line (identifier Sample.gA) = false) (stderr w')
  ∧ saved gs outs = []
  ∧ total_owners stats = 0
  ∧ new_owners stats = 1
  ∧ length (detected_owners w') = 1
  ∧ owner_listings w' = [].
Proof. vm_compute. repeat split; repeat constructor. Qed.

(** Witness of C9: the first group fails at the upsert of its link, the
    second one is saved all the same. *)
Lemma save_owners_to_db_survives_failures_witness :
  let gs := [Sample.gA; Sample.gB] in
  let w := Sample.world [Sample.A; Sample.B] in
  total_owners (snd (save_owners_to_db Sample.flaky gs w))
  = length (saved gs (outcomes Sample.flaky gs (w, zero_stats)))
  ∧ saved gs (outcomes Sample.flaky gs (w, zero_stats)) = [Sample.gB].
Proof.
  split.
  - exact (proj1 (proj2 (proj2 (proj2
             (save_owners_to_db_survives_failures Sample.flaky [Sample.gA; Sample.gB]
                (Sample.world [Sample.A; Sample.B])))))).
  - vm_compute. reflexivity.
Defined.

(** Witness of C10: the owner inserted for the host-id cluster of [B]. *)
Lemma host_id_owner_has_no_identity_key_witness :
  snd (save_group Sample.steady Sample.gB (Sample.world [Sample.B], zero_stats)) = Ok ()
  ∧ match_type Sample.gB = host_id_match
  ∧ ∃ o, detected_owners
           (fst (fst (save_group Sample.steady Sample.gB
                        (Sample.world [Sample.B], zero_stats))))
         = detected_owners (Sample.world [Sample.B]) ++ [o]
         ∧ primary_phone o = None
         ∧ host_ids o = t_host_ids (tally (listings Sample.gB)).
Proof.
  assert (snd (save_group Sample.steady Sample.gB (Sample.world [Sample.B], zero_stats))
          = Ok ()) as Hok by (vm_compute; reflexivity).
  split; [exact Hok|]. split; [reflexivity|].
  exact (proj1 host_id_owner_has_no_identity_key Sample.steady Sample.gB
           (Sample.world [Sample.B]) zero_stats Hok eq_refl).
Defined.

(** * Further properties *)

(** ** The phone normalizer: canonical keys *)

Section CanonicalKeys.

Lemma chars_app s t : Spec.chars (s +:+ t) = Spec.chars s ++ Spec.chars t.
Proof.
  unfold Spec.chars. induction s as [|c s IH]; [done|].
  simpl. f_equal. apply IH.
Qed.

Lemma chars_of_list l : Spec.chars (String.string_of_list_ascii l) = l.
Proof. apply String.list_ascii_of_string_of_list_ascii. Qed.

Lemma chars_inj s t : Spec.chars s = Spec.chars t → s = t.
Proof. intros H. by rewrite <- (of_chars s), <- (of_chars t), H. Qed.

Lemma digits_only_app s t :
  Spec.digits_only (s +:+ t) = Spec.digits_only s ++ Spec.digits_only t.
Proof. unfold Spec.digits_only. by rewrite chars_app, filter_app. Qed.

Lemma digits_only_digits s :
  Forall (λ c, Py.isdigit c = true) (Spec.chars s) → Spec.digits_only s = Spec.chars s.
Proof.
  unfold Spec.digits_only. induction 1 as [|c l Hc _ IH]; [done|].
  by rewrite filter_cons_True, IH.
Qed.

(** A local number: nine digit characters, the first of which is 7 or 3. *)
Lemma acceptable_head rest :
  Spec.acceptable rest →
  ∃ c tl, rest = c :: tl ∧ (c = "7"%char ∨ c = "3"%char) ∧ length tl = 8.
Proof.
  intros (Hlen & _ & Hhd). destruct rest as [|c tl]; [done|].
  exists c, tl. cbn in *. split; [done|]. split; [|lia].
  destruct Hhd as [[= ->]|[= ->]]; auto.
Qed.

(** No prefix rule applies to a local number. *)
Lemma strip_known_prefix_local rest :
  Spec.acceptable rest → Spec.strip_known_prefix rest = rest.
Proof.
  intros (c & tl & -> & Hc & _)%acceptable_head. unfold Spec.strip_known_prefix.
  rewrite !decide_False; [done|..];
    intros Hp; apply prefix_cons_inv_1 in Hp; destruct Hc; subst; discriminate.
Qed.

Lemma strip_known_prefix_with (pre : string) rest :
  Spec.acceptable rest →
  pre = "00221" ∨ pre = "221" ∨ pre = "0" →
  Spec.strip_known_prefix (Spec.chars pre ++ rest) = rest.
Proof.
  intros (c & tl & -> & Hc & _)%acceptable_head Hpre.
  unfold Spec.strip_known_prefix.
  destruct Hpre as [-> | [-> | ->]].
  - rewrite decide_True; [done|]. by apply prefix_app_r.
  - rewrite decide_False.
    2:{ intros Hp. apply prefix_cons_inv_1 in Hp. discriminate. }
    rewrite decide_True; [done|]. by apply prefix_app_r.
  - rewrite decide_False.
    2:{ intros Hp. apply prefix_cons_inv_2, prefix_cons_inv_1 in Hp.
        destruct Hc; subst; discriminate. }
    rewrite decide_False.
    2:{ intros Hp. apply prefix_cons_inv_1 in Hp. discriminate. }
    rewrite decide_True; [done|]. by apply prefix_app_r.
Qed.

Lemma normalize_of_digits (s : string) rest :
  Spec.strip_known_prefix (Spec.digits_only s) = rest →
  Spec.acceptable rest →
  normalize_phone s = Some ("+221" +:+ String.string_of_list_ascii rest).
Proof.
  intros <- Hacc. rewrite normalize_phone_refines. unfold Spec.normalize.
  by rewrite decide_True.
Qed.

End CanonicalKeys.

Lemma normalize_phone_idempotent_aux (s q : string) :
  normalize_phone s = Some q → normalize_phone q = Some q.
Proof.
  rewrite (normalize_phone_refines s). unfold Spec.normalize.
  case_decide as Hacc; [|done]. intros [= <-].
  set (rest := Spec.strip_known_prefix (Spec.digits_only s)) in *.
  apply normalize_of_digits; [|done].
  rewrite digits_only_app, (digits_only_digits (String.string_of_list_ascii rest)).
  - rewrite chars_of_list. apply (strip_known_prefix_with "221"); auto.
  - rewrite chars_of_list. by destruct Hacc as (_ & ? & _).
Qed.

(** X1. A key produced by the normalizer is a fixed point of the
    normalizer: normalizing it again gives the same key, which is [+221]
    followed by nine digit characters. *)
Theorem normalize_phone_idempotent (s q : string) :
  normalize_phone s = Some q →
  normalize_phone q = Some q
  ∧ Py.len q = 13 ∧ Py.startswith q "+221" = true
  ∧ Forall (λ c, Py.isdigit c = true) (Spec.chars (Py.slice_from 4 q)).
Proof.
  intros Hs. split; [by apply (normalize_phone_idempotent_aux s)|].
  revert Hs. rewrite (normalize_phone_refines s). unfold Spec.normalize.
  case_decide as Hacc; [|done]. intros [= <-].
  destruct Hacc as (Hlen & Hdig & _).
  set (rest := Spec.strip_known_prefix (Spec.digits_only s)) in *.
  split_and!.
  - rewrite len_chars, chars_app, length_app, chars_of_list, Hlen. done.
  - generalize (String.string_of_list_ascii rest). intros x. by destruct x.
  - by rewrite chars_slice_from, chars_app, chars_of_list.
Qed.

(** X2. Characters that are not digits play no part: dropping one of them
    anywhere in the input leaves the result as it is. *)
Theorem normalize_phone_ignores_formatting (s1 s2 : string) (c : ascii) :
  Py.isdigit c = false →
  normalize_phone (s1 +:+ String c s2) = normalize_phone (s1 +:+ s2).
Proof.
  intros Hc. rewrite !normalize_phone_refines. unfold Spec.normalize.
  rewrite !digits_only_app.
  assert (Spec.digits_only (String c s2) = Spec.digits_only s2) as ->; [|done].
  unfold Spec.digits_only, Spec.chars. cbn [String.list_ascii_of_string].
  rewrite filter_cons_False; [done|]. by rewrite Hc.
Qed.

(** X3. For every local number [d] (nine digits, the first 7 or 3) the
    spellings [d], [0d], [221d], [+221d] and [00221d] all normalize to
    [+221d].  The prefix rules do not add up: [0221d] gives no signal, nor
    does [2210d], the country code followed by the trunk zero. *)
Theorem normalize_phone_spellings (d : string) :
  Spec.acceptable (Spec.chars d) →
  normalize_phone d = Some ("+221" +:+ d)
  ∧ normalize_phone ("0" +:+ d) = Some ("+221" +:+ d)
  ∧ normalize_phone ("221" +:+ d) = Some ("+221" +:+ d)
  ∧ normalize_phone ("+221" +:+ d) = Some ("+221" +:+ d)
  ∧ normalize_phone ("00221" +:+ d) = Some ("+221" +:+ d)
  ∧ normalize_phone ("0221" +:+ d) = None
  ∧ normalize_phone ("2210" +:+ d) = None.
Proof.
  intros Hacc.
  assert (Spec.digits_only d = Spec.chars d) as Hd
    by (apply digits_only_digits; by destruct Hacc as (_ & ? & _)).
  assert (∀ pre rest, Spec.strip_known_prefix (Spec.digits_only (pre +:+ d)) = rest →
                      rest = Spec.chars d →
                      normalize_phone (pre +:+ d) = Some ("+221" +:+ d)) as Hok.
  { intros pre rest H1 ->. erewrite normalize_of_digits; [|exact H1|done].
    by rewrite of_chars. }
  assert (∀ pre rest, Spec.strip_known_prefix (Spec.digits_only (pre +:+ d)) = rest →
                      length rest ≠ 9 → normalize_phone (pre +:+ d) = None) as Hno.
  { intros pre rest H1 Hlen. rewrite normalize_phone_refines. unfold Spec.normalize.
    rewrite H1. rewrite decide_False; [done|]. by intros (? & _). }
  pose proof Hacc as (c & tl & Hctl & Hc & Htl)%acceptable_head.
  split_and!.
  - apply (Hok "" (Spec.chars d)); [|done]. change ("" +:+ d) with d. rewrite Hd.
    by apply strip_known_prefix_local.
  - apply (Hok "0" (Spec.chars d)); [|done]. rewrite digits_only_app, Hd.
    by apply (strip_known_prefix_with "0"); auto.
  - apply (Hok "221" (Spec.chars d)); [|done]. rewrite digits_only_app, Hd.
    by apply (strip_known_prefix_with "221"); auto.
  - apply (Hok "+221" (Spec.chars d)); [|done]. rewrite digits_only_app, Hd.
    by apply (strip_known_prefix_with "221"); auto.
  - apply (Hok "00221" (Spec.chars d)); [|done]. rewrite digits_only_app, Hd.
    by apply (strip_known_prefix_with "00221"); auto.
  - apply (Hno "0221" (Spec.chars "221" ++ Spec.chars d)).
    + rewrite digits_only_app, Hd.
      change (Spec.digits_only "0221" ++ Spec.chars d)
        with ("0"%char :: (Spec.chars "221" ++ Spec.chars d)).
      unfold Spec.strip_known_prefix.
      rewrite decide_False.
      2:{ intros Hp. apply prefix_cons_inv_2, prefix_cons_inv_1 in Hp. discriminate. }
      rewrite decide_False.
      2:{ intros Hp. apply prefix_cons_inv_1 in Hp. discriminate. }
      rewrite decide_True; [done|]. apply prefix_cons, prefix_nil.
    + rewrite length_app, Hctl. cbn. lia.
  - apply (Hno "2210" (Spec.chars "0" ++ Spec.chars d)).
    + rewrite digits_only_app, Hd. unfold Spec.strip_known_prefix.
      rewrite decide_False.
      2:{ intros Hp. apply prefix_cons_inv_1 in Hp. discriminate. }
      rewrite decide_True; [done|].
      change (Spec.digits_only "2210" ++ Spec.chars d)
        with (Spec.chars "221" ++ (Spec.chars "0" ++ Spec.chars d)).
      by apply prefix_app_r.
    + rewrite length_app, Hctl. cbn. lia.
Qed.

(** ** The signal extractor: where a phone signal comes from *)

Lemma try_phone_fields_Some fields p :
  try_phone_fields fields = Some p →
  ∃ s, Some s ∈ fields ∧ normalize_phone s = Some p.
Proof.
  induction fields as [|v rest IH]; [done|]. rewrite try_phone_fields_cons.
  destruct (v ≫= normalize_phone) as [q|] eqn:Hv.
  - intros [= ->]. destruct v as [s|]; [|done]. exists s. split; [left|done].
  - intros H. destruct (IH H) as (s & Hs & Hn). exists s. split; [by right|done].
Qed.

Lemma try_phone_fields_None fields :
  try_phone_fields fields = None ↔ ∀ s, Some s ∈ fields → normalize_phone s = None.
Proof.
  induction fields as [|v rest IH]; [split; [intros _ s []%elem_of_nil|done]|].
  rewrite try_phone_fields_cons. destruct (v ≫= normalize_phone) as [q|] eqn:Hv.
  - split; [done|]. intros H. destruct v as [s|]; [|done]. cbn in Hv.
    rewrite (H s) in Hv by left. done.
  - rewrite IH. split.
    + intros H s [[= <-]|Hs]%elem_of_cons; [done|by apply H].
    + intros H s Hs. apply H. by right.
Qed.

(** X4. A phone signal is always a canonical key taken from one of the
    four fields: it is the normalizer's result on a field that is present,
    and the normalizer maps it to itself.  A listing yields no phone signal
    exactly when no field that is present normalizes; in particular a
    listing without [raw_data] yields none. *)
Theorem extract_phone_from_listing_sound :
  (∀ l p, extract_phone_from_listing l = Some p →
          normalize_phone p = Some p
          ∧ ∃ s, Some s ∈ phone_fields (raw_data_or_empty l)
                 ∧ normalize_phone s = Some p)
  ∧ (∀ l, extract_phone_from_listing l = None ↔
          ∀ s, Some s ∈ phone_fields (raw_data_or_empty l) → normalize_phone s = None)
  ∧ (∀ l, raw_data l = None → extract_phone_from_listing l = None).
Proof.
  split_and!.
  - intros l p Hp. unfold extract_phone_from_listing in Hp.
    apply try_phone_fields_Some in Hp as (s & Hs & Hn).
    split; [by apply (normalize_phone_idempotent_aux s)|eauto].
  - intros l. apply try_phone_fields_None.
  - intros l Hr. unfold extract_phone_from_listing, raw_data_or_empty. by rewrite Hr.
Qed.

(** ** The analysis script files a valid phone under its local number *)

Lemma chars_slice_last n s :
  Spec.chars (slice_last n s) = drop (length (Spec.chars s) - n) (Spec.chars s).
Proof. unfold slice_last. by rewrite chars_slice_from, len_chars. Qed.

Lemma analysis_phone_key_of_valid s q :
  normalize_phone s = Some q →
  analysis_phone_key s = Some (Py.slice_from 4 q).
Proof.
  intros Hs. assert (Py.truthy s = true) as Ht by (by destruct s).
  revert Hs. rewrite normalize_phone_refines. unfold Spec.normalize.
  case_decide as Hacc; [|done]. intros [= <-].
  set (rest := Spec.strip_known_prefix (Spec.digits_only s)) in *.
  destruct (strip_known_prefix_suffix (Spec.digits_only s)) as [k Hk]. fold rest in Hk.
  destruct Hacc as (Hlen & _ & _).
  unfold analysis_phone_key. rewrite Ht.
  assert (Spec.chars (Py.join_if Py.isdigit s) = k ++ rest) as Hd.
  { rewrite chars_join_if. exact Hk. }
  rewrite len_chars, Hd, length_app, Hlen.
  rewrite (proj2 (Nat.leb_le _ _)) by lia. f_equal.
  apply chars_inj. rewrite chars_slice_last, Hd, length_app, Hlen.
  rewrite chars_slice_from, chars_app, chars_of_list.
  replace (length k + 9 - 9) with (length k) by lia.
  by rewrite drop_app_length.
Qed.

(** X5. Whenever the normalizer accepts a phone value and answers [+221d],
    the analysis script files the same value under the key [d]; so a
    listing whose [phone] field normalizes is grouped under corresponding
    keys by both programs.  (The script also files values that the
    normalizer rejects.) *)
Theorem analysis_key_agrees_with_normalizer :
  (∀ s q, normalize_phone s = Some q →
          analysis_phone_key s = Some (Py.slice_from 4 q)
          ∧ q = "+221" +:+ Py.slice_from 4 q)
  ∧ (∀ l s q, phone (raw_data_or_empty l) = Some s → normalize_phone s = Some q →
              extract_phone_from_listing l = Some q
              ∧ analysis_key_of_listing l = Some (Py.slice_from 4 q)).
Proof.
  assert (∀ s q, normalize_phone s = Some q →
                 analysis_phone_key s = Some (Py.slice_from 4 q)
                 ∧ q = "+221" +:+ Py.slice_from 4 q) as Hstr.
  { intros s q Hs. split; [by apply analysis_phone_key_of_valid|].
    revert Hs. rewrite normalize_phone_refines. unfold Spec.normalize.
    case_decide; [|done]. by intros [= <-]. }
  split; [exact Hstr|].
  intros l s q Hf Hs.
  assert (Py.truthy s = true) as Ht by (by destruct s).
  split.
  - unfold extract_phone_from_listing, phone_fields. rewrite Hf.
    rewrite try_phone_fields_cons. cbn. by rewrite Hs.
  - unfold analysis_key_of_listing, analysis_phone. rewrite Hf. cbn. rewrite Ht.
    cbn. rewrite Ht. by apply Hstr.
Qed.

(** ** The cluster builder: what a cluster holds and who is in one *)

Section Provenance.

Implicit Types (d : Dict) (l : Listing) (ls : list Listing).

Lemma dict_append_filed k l d :
  ∃ ls', (k, ls') ∈ dict_append k l d ∧ l ∈ ls'.
Proof.
  induction d as [|[k' ls'] d IH]; cbn [dict_append].
  - exists [l]. split; left.
  - case_decide as Hk.
    + subst k'. exists (ls' ++ [l]). split; [left|]. apply elem_of_app. right. left.
    + destruct IH as (ls'' & Hin & Hl). exists ls''. split; [by right|done].
Qed.

Lemma dict_append_mono k l d k' ls' :
  (k', ls') ∈ d →
  ∃ ls'', (k', ls'') ∈ dict_append k l d ∧ ∀ x, x ∈ ls' → x ∈ ls''.
Proof.
  induction d as [|[k0 ls0] d IH]; [by intros []%elem_of_nil|].
  cbn [dict_append]. intros [[= -> ->]|Hin]%elem_of_cons.
  - case_decide.
    + exists (ls0 ++ [l]). split; [left|]. intros x Hx. apply elem_of_app. by left.
    + exists ls0. split; [left|done].
  - case_decide.
    + exists ls'. split; [by right|done].
    + destruct (IH Hin) as (ls'' & H1 & H2). exists ls''. split; [by right|done].
Qed.

(** Every value of a dictionary built from a list of listings is a sublist
    of that list: the listings of a group are in input order. *)
Lemma dict_append_sublist k l d seen :
  Forall (λ kv, snd kv `sublist_of` seen) d →
  Forall (λ kv, snd kv `sublist_of` seen ++ [l]) (dict_append k l d).
Proof.
  induction 1 as [|[k' ls'] d Hkv Hd IH]; cbn [dict_append].
  - repeat constructor. cbn. by apply sublist_inserts_l.
  - cbn [snd] in Hkv. case_decide.
    + constructor; [by apply sublist_app|].
      eapply Forall_impl; [exact Hd|]. intros kv. apply sublist_inserts_r.
    + constructor; [by apply sublist_inserts_r|done].
Qed.

Lemma fold_index_listing_sublist ls seen acc :
  Forall (λ kv, snd kv `sublist_of` seen) (fst acc) →
  Forall (λ kv, snd kv `sublist_of` seen) (snd acc) →
  Forall (λ kv, snd kv `sublist_of` seen ++ ls) (fst (fold_left index_listing ls acc))
  ∧ Forall (λ kv, snd kv `sublist_of` seen ++ ls) (snd (fold_left index_listing ls acc)).
Proof.
  revert seen acc. induction ls as [|l ls IH]; intros seen [d1 d2] H1 H2.
  - by rewrite app_nil_r.
  - cbn [fold_left]. replace (seen ++ l :: ls) with ((seen ++ [l]) ++ ls)
      by (by rewrite <- app_assoc).
    cbn [fst snd] in *.
    assert (∀ d, Forall (λ kv, snd kv `sublist_of` seen) d →
                 Forall (λ kv, snd kv `sublist_of` seen ++ [l]) d) as Hweak.
    { intros d Hd. eapply Forall_impl; [exact Hd|]. intros kv. apply sublist_inserts_r. }
    apply IH; unfold index_listing; cbn [fst snd].
    + destruct (extract_phone_from_listing l) as [p|]; [|by apply Hweak].
      destruct (Py.truthy p); [by apply dict_append_sublist|by apply Hweak].
    + destruct (host_key l) as [k|]; [by apply dict_append_sublist|by apply Hweak].
Qed.

Lemma index_listings_sublist ls :
  Forall (λ kv, snd kv `sublist_of` ls) (fst (index_listings ls))
  ∧ Forall (λ kv, snd kv `sublist_of` ls) (snd (index_listings ls)).
Proof. apply (fold_index_listing_sublist ls [] ([], [])); constructor. Qed.

(** The listings filed under a phone carry that phone. *)
Lemma index_listings_phone_values ls acc :
  Forall (λ kv, Forall (λ x, extract_phone_from_listing x = Some (fst kv)) (snd kv))
    (fst acc) →
  Forall (λ kv, Forall (λ x, extract_phone_from_listing x = Some (fst kv)) (snd kv))
    (fst (fold_left index_listing ls acc)).
Proof.
  revert acc. induction ls as [|l ls IH]; intros [d1 d2] Hacc; [done|].
  cbn [fold_left]. apply IH. unfold index_listing. cbn [fst] in *.
  destruct (extract_phone_from_listing l) as [p|] eqn:Hp; [|done].
  destruct (Py.truthy p); [|done]. by apply dict_append_keys.
Qed.

(** Every listing with a signal is filed under it. *)
Lemma fold_index_listing_filed ls acc l :
  l ∈ ls →
  (∀ p, extract_phone_from_listing l = Some p →
        ∃ ls', (p, ls') ∈ fst (fold_left index_listing ls acc) ∧ l ∈ ls')
  ∧ (∀ k, host_key l = Some k →
          ∃ ls', (k, ls') ∈ snd (fold_left index_listing ls acc) ∧ l ∈ ls').
Proof.
  assert (∀ ls acc k ls',
            ((k, ls') ∈ fst acc →
             ∃ ls'', (k, ls'') ∈ fst (fold_left index_listing ls acc)
                     ∧ ∀ x, x ∈ ls' → x ∈ ls'')
            ∧ ((k, ls') ∈ snd acc →
               ∃ ls'', (k, ls'') ∈ snd (fold_left index_listing ls acc)
                       ∧ ∀ x, x ∈ ls' → x ∈ ls'')) as Hmono.
  { clear. induction ls as [|x ls IH]; intros [d1 d2] k ls'; cbn [fold_left].
    - split; intros H; exists ls'; done.
    - split; intros H; cbn [fst snd] in H.
      + assert (∃ ls1, (k, ls1) ∈ fst (index_listing (d1, d2) x)
                       ∧ ∀ y, y ∈ ls' → y ∈ ls1) as (ls1 & H1 & H2).
        { unfold index_listing. cbn [fst].
          destruct (extract_phone_from_listing x) as [p|]; [|by exists ls'].
          destruct (Py.truthy p); [by apply dict_append_mono|by exists ls']. }
        destruct (proj1 (IH (index_listing (d1, d2) x) k ls1) H1) as (ls2 & H3 & H4).
        exists ls2. split; [done|]. intros y Hy. by apply H4, H2.
      + assert (∃ ls1, (k, ls1) ∈ snd (index_listing (d1, d2) x)
                       ∧ ∀ y, y ∈ ls' → y ∈ ls1) as (ls1 & H1 & H2).
        { unfold index_listing. cbn [snd].
          destruct (host_key x) as [k'|]; [by apply dict_append_mono|by exists ls']. }
        destruct (proj2 (IH (index_listing (d1, d2) x) k ls1) H1) as (ls2 & H3 & H4).
        exists ls2. split; [done|]. intros y Hy. by apply H4, H2. }
  revert acc. induction ls as [|x ls IH]; intros [d1 d2] Hl.
  { by apply elem_of_nil in Hl. }
  cbn [fold_left]. apply elem_of_cons in Hl as [->|Hl]; [|by apply IH].
  split.
  - intros p Hp. pose proof (extract_phone_truthy _ _ Hp) as Ht.
    destruct (dict_append_filed p x d1) as (ls1 & H1 & H2).
    destruct (proj1 (Hmono ls (index_listing (d1, d2) x) p ls1)) as (ls2 & H3 & H4).
    { unfold index_listing. cbn [fst]. by rewrite Hp, Ht. }
    exists ls2. split; [done|by apply H4].
  - intros k Hk.
    destruct (dict_append_filed k x d2) as (ls1 & H1 & H2).
    destruct (proj2 (Hmono ls (index_listing (d1, d2) x) k ls1)) as (ls2 & H3 & H4).
    { unfold index_listing. cbn [snd]. by rewrite Hk. }
    exists ls2. split; [done|by apply H4].
Qed.

(** Where the groups of the phone loop come from. *)
Lemma fold_add_phone_group_elem d acc g :
  g ∈ fst (fold_left add_phone_group d acc) ↔
  g ∈ fst acc
  ∨ ∃ k ls', (k, ls') ∈ d ∧ ls' ≠ []
             ∧ g = {| match_type := phone_match; identifier := k;
                      listings := ls'; listing_ids := map listing_id ls' |}.
Proof.
  revert acc. induction d as [|[k ls'] d IH]; intros [gs P]; cbn [fold_left].
  - split; [by left|]. intros [?|(k & ls' & []%elem_of_nil & _)]. done.
  - rewrite IH. unfold add_phone_group. destruct ls' as [|x xs]; cbn [length Nat.leb fst].
    + split.
      * intros [?|(k' & ls'' & Hin & ? & ?)]; [by left|]. right.
        exists k', ls''. split; [by right|done].
      * intros [?|(k' & ls'' & [[= -> ->]|Hin]%elem_of_cons & Hne & ?)];
          [by left|done|]. right. eauto.
    + split.
      * intros [[?|[->|[]%elem_of_nil]%elem_of_cons]%elem_of_app
               |(k' & ls'' & Hin & ? & ?)].
        -- by left.
        -- right. exists k, (x :: xs). split; [left|done].
        -- right. exists k', ls''. split; [by right|done].
      * intros [?|(k' & ls'' & [[= -> ->]|Hin]%elem_of_cons & Hne & ->)].
        -- left. apply elem_of_app. by left.
        -- left. apply elem_of_app. right. left.
        -- right. eauto.
Qed.

(** Where the groups of the host-id loop come from. *)
Lemma fold_add_host_group_elem d acc g :
  g ∈ fst (fold_left add_host_group d acc) →
  g ∈ fst acc
  ∨ ∃ k hl (P : gset ListingId),
      (k, hl) ∈ d ∧ snd acc ⊆ P
      ∧ match_type g = host_id_match ∧ identifier g = k
      ∧ listings g = filter (λ l, listing_id l ∉ P) hl
      ∧ listings g ≠ []
      ∧ listing_ids g = map listing_id (listings g).
Proof.
  revert acc. induction d as [|[k hl] d IH]; intros [gs P]; cbn [fold_left].
  - by left.
  - intros Hg. apply IH in Hg as [Hg|(k' & hl' & P' & Hin & HP & Hrest)].
    + revert Hg. unfold add_host_group.
      pose proof (new_ids_of_new_listings P hl) as Hids.
      pose proof (new_listings_unclaimed P hl) as Hnew.
      set (new_ids := filter (λ lid, lid ∉ P) (map listing_id hl)) in *.
      set (new_listings := filter (λ l, listing_id l ∈ new_ids) hl) in *.
      destruct new_ids as [|i ids] eqn:Hi; [by left|].
      destruct new_listings as [|x xs] eqn:Hx; [by left|].
      cbn [fst]. intros [Hg|Hg]%elem_of_app; [by left|].
      apply list_elem_of_singleton in Hg as ->. right.
      exists k, hl, P. cbn [fst snd match_type identifier listings listing_ids].
      split; [left|]. do 5 (split; [done|]). done.
    + right. exists k', hl', P'. split; [by right|]. split; [|done].
      etrans; [|exact HP]. unfold add_host_group. cbn [snd].
      destruct (filter _ (map listing_id hl)); [done|].
      destruct (filter _ hl); [done|]. cbn [snd]. set_solver.
Qed.

Lemma fold_add_host_group_keeps d acc g :
  g ∈ fst acc → g ∈ fst (fold_left add_host_group d acc).
Proof.
  intros Hg. destruct (fold_add_host_group_app d acc) as (hg & -> & _).
  apply elem_of_app. by left.
Qed.

End Provenance.

Section Membership.

Lemma build_owner_groups_members (ls : list Listing) (g : Group) :
  g ∈ build_owner_groups ls →
  listings g ≠ []
  ∧ listing_ids g = map listing_id (listings g)
  ∧ listings g `sublist_of` ls
  ∧ match match_type g with
    | phone_match =>
        identifier g ≠ ""
        ∧ Forall (λ l, extract_phone_from_listing l = Some (identifier g)) (listings g)
    | host_id_match =>
        Forall (λ l, host_key l = Some (identifier g)) (listings g)
    end.
Proof.
  intros Hg. unfold build_owner_groups in Hg.
  destruct (index_listings_sublist ls) as [Hs1 Hs2].
  apply fold_add_host_group_elem in Hg as [Hg|(k & hl & P & Hin & _ & Hm & Hi & Hl & Hne & Hids)].
  - unfold phone_owner_groups in Hg.
    apply fold_add_phone_group_elem in Hg as [[]%elem_of_nil|(k & ls' & Hin & Hne & ->)].
    cbn. split; [done|]. split; [done|].
    split; [by apply (proj1 (Forall_forall _ _) Hs1 (k, ls'))|].
    pose proof (index_listings_phone_values ls ([], [])) as Hv.
    pose proof (proj1 (Forall_forall _ _) (Hv ltac:(constructor)) (k, ls') Hin) as Hk.
    cbn in Hk. split; [|done].
    destruct ls' as [|x xs]; [done|]. apply Forall_cons in Hk as [Hx _].
    apply extract_phone_truthy in Hx. by destruct k.
  - split; [done|]. split; [done|].
    split.
    + rewrite Hl. etrans; [apply sublist_filter|].
      by apply (proj1 (Forall_forall _ _) Hs2 (k, hl)).
    + rewrite Hm, Hi, Hl.
      pose proof (index_listings_host_keys ls ([], [])) as Hv.
      pose proof (proj1 (Forall_forall _ _) (Hv ltac:(constructor)) (k, hl) Hin) as Hk.
      cbn in Hk. apply Forall_forall. intros l Hlin.
      apply list_elem_of_filter in Hlin as [_ Hlin].
      by apply (proj1 (Forall_forall _ _) Hk).
Qed.

Lemma elem_of_dict_values (d : Dict) k hl l :
  (k, hl) ∈ d → l ∈ hl → l ∈ dict_values d.
Proof.
  induction d as [|[k0 hl0] d IH]; [by intros []%elem_of_nil|].
  rewrite dict_values_cons. intros [[= -> ->]|Hin]%elem_of_cons Hl; apply elem_of_app.
  - by left.
  - right. by apply IH.
Qed.

Lemma dict_values_elem (d : Dict) l :
  l ∈ dict_values d → ∃ k hl, (k, hl) ∈ d ∧ l ∈ hl.
Proof.
  induction d as [|[k0 hl0] d IH]; [by intros []%elem_of_nil|].
  rewrite dict_values_cons. intros [Hl|Hl]%elem_of_app.
  - exists k0, hl0. split; [left|done].
  - destruct (IH Hl) as (k & hl & ? & ?). exists k, hl. split; [by right|done].
Qed.

Lemma elem_of_concat {A} (x : A) (ls : list (list A)) :
  x ∈ concat ls → ∃ l, x ∈ l ∧ l ∈ ls.
Proof.
  induction ls as [|l0 ls IH]; [by intros []%elem_of_nil|].
  cbn [concat]. intros [Hx|Hx]%elem_of_app.
  - exists l0. split; [done|left].
  - destruct (IH Hx) as (l1 & ? & ?). exists l1. split; [done|by right].
Qed.

Lemma NoDup_same_id (ls : list Listing) x y :
  NoDup (map listing_id ls) → x ∈ ls → y ∈ ls → listing_id x = listing_id y → x = y.
Proof.
  induction ls as [|z ls IH]; [by intros _ []%elem_of_nil|].
  cbn [map]. intros [Hz Hnd]%NoDup_cons [->|Hx]%elem_of_cons [->|Hy]%elem_of_cons Hid.
  - done.
  - exfalso. apply Hz. rewrite Hid. apply list_elem_of_fmap. eauto.
  - exfalso. apply Hz. rewrite <- Hid. apply list_elem_of_fmap. eauto.
  - by apply IH.
Qed.

(** The host-id loop files every listing of its dictionary that no earlier
    group has claimed. *)
Lemma fold_add_host_group_files (d : Dict) acc k hl l :
  NoDup (map listing_id (dict_values d)) →
  (k, hl) ∈ d → l ∈ hl → listing_id l ∉ snd acc →
  ∃ g, g ∈ fst (fold_left add_host_group d acc)
       ∧ match_type g = host_id_match ∧ identifier g = k ∧ l ∈ listings g.
Proof.
  revert acc. induction d as [|[k0 hl0] d IH]; intros [gs P] Hnd Hin Hl HP.
  { by apply elem_of_nil in Hin. }
  rewrite dict_values_cons, map_app in Hnd. apply NoDup_app in Hnd as (Hnd0 & Hdisj & Hnd').
  cbn [fold_left snd] in *. apply elem_of_cons in Hin as [[= -> ->]|Hin].
  - assert (listing_id l ∈ filter (λ lid, lid ∉ P) (map listing_id hl0)) as Hid.
    { apply list_elem_of_filter. split; [done|]. apply list_elem_of_fmap. eauto. }
    assert (l ∈ filter (λ x, listing_id x ∈ filter (λ lid, lid ∉ P) (map listing_id hl0)) hl0)
      as Hnew by (by apply list_elem_of_filter).
    exists {| match_type := host_id_match; identifier := k0;
              listings := filter (λ x, listing_id x
                                       ∈ filter (λ lid, lid ∉ P) (map listing_id hl0)) hl0;
              listing_ids := filter (λ lid, lid ∉ P) (map listing_id hl0) |}.
    split; [|done].
    apply fold_add_host_group_keeps. unfold add_host_group.
    set (new_ids := filter (λ lid, lid ∉ P) (map listing_id hl0)) in *.
    set (new_listings := filter (λ x, listing_id x ∈ new_ids) hl0) in *.
    destruct new_ids as [|i ids] eqn:Hi; [by apply elem_of_nil in Hid|].
    destruct new_listings as [|x xs] eqn:Hx; [by apply elem_of_nil in Hnew|].
    cbn [fst]. apply elem_of_app. right. left.
  - apply IH; [done..|].
    unfold add_host_group.
    destruct (filter (λ lid, lid ∉ P) (map listing_id hl0)) as [|i ids] eqn:Hi; [done|].
    rewrite <- Hi.
    destruct (filter _ hl0) as [|x xs] eqn:Hx; [done|].
    cbn [snd]. intros [?|Hnew%elem_of_list_to_set]%elem_of_union; [done|].
    apply list_elem_of_filter in Hnew as [_ Hnew].
    apply (Hdisj _ Hnew). apply list_elem_of_fmap. exists l. split; [done|].
    by eapply elem_of_dict_values.
Qed.

(** On distinct ids, a listing without phone signal is claimed by no phone
    group. *)
Lemma no_phone_not_processed (ls : list Listing) l :
  NoDup (map listing_id ls) → l ∈ ls → extract_phone_from_listing l = None →
  listing_id l ∉ snd (phone_owner_groups ls).
Proof.
  intros Hnd Hl Hp. unfold phone_owner_groups.
  destruct (fold_add_phone_group (fst (index_listings ls)) ([], ∅)) as (_ & -> & _).
  cbn [snd]. intros [[]%elem_of_empty|Hin%elem_of_list_to_set]%elem_of_union.
  apply list_elem_of_fmap in Hin as (l' & Hid & Hl').
  apply dict_values_elem in Hl' as (k & hl & Hkv & Hl').
  destruct (index_listings_sublist ls) as [Hs _].
  pose proof (proj1 (Forall_forall _ _) Hs (k, hl) Hkv) as Hsub. cbn [snd] in Hsub.
  pose proof (index_listings_phone_values ls ([], []) ltac:(constructor)) as Hv.
  pose proof (proj1 (Forall_forall _ _) Hv (k, hl) Hkv) as Hk. cbn [fst snd] in Hk.
  pose proof (proj1 (Forall_forall _ _) Hk l' Hl') as Hp'.
  assert (l' ∈ ls) as Hl'' by (by eapply elem_of_sublist).
  assert (l = l') as <- by (by apply (NoDup_same_id ls)).
  congruence.
Qed.

Lemma build_owner_groups_complete (ls : list Listing) (l : Listing) :
  l ∈ ls →
  (∀ p, extract_phone_from_listing l = Some p →
        ∃ g, g ∈ build_owner_groups ls ∧ match_type g = phone_match
             ∧ identifier g = p ∧ l ∈ listings g)
  ∧ (NoDup (map listing_id ls) → extract_phone_from_listing l = None →
     ∀ k, host_key l = Some k →
          ∃ g, g ∈ build_owner_groups ls ∧ match_type g = host_id_match
               ∧ identifier g = k ∧ l ∈ listings g)
  ∧ (NoDup (map listing_id ls) → extract_phone_from_listing l = None →
     host_key l = None → listing_id l ∉ claimed_ids (build_owner_groups ls)).
Proof.
  intros Hl.
  destruct (fold_index_listing_filed ls ([], []) l Hl) as [Hfp Hfh].
  fold (index_listings ls) in Hfp, Hfh.
  split; [|split].
  - intros p Hp. destruct (Hfp p Hp) as (ls' & Hkv & Hin).
    eexists. split.
    + unfold build_owner_groups. apply fold_add_host_group_keeps.
      unfold phone_owner_groups. apply fold_add_phone_group_elem. right.
      exists p, ls'. split; [done|]. split; [|done].
      intros ->. by apply elem_of_nil in Hin.
    + done.
  - intros Hnd Hp k Hk. destruct (Hfh k Hk) as (hl & Hkv & Hin).
    unfold build_owner_groups.
    apply (fold_add_host_group_files _ _ k hl l); [|done..|].
    + by apply index_listings_NoDup.
    + by apply no_phone_not_processed.
  - intros Hnd Hp Hk Hin. unfold claimed_ids in Hin.
    apply elem_of_concat in Hin as (ids & Hid & Hids).
    apply list_elem_of_fmap in Hids as (g & -> & Hg).
    destruct (build_owner_groups_members ls g Hg) as (_ & Hgi & Hsub & Hsig).
    rewrite Hgi in Hid. apply list_elem_of_fmap in Hid as (l' & Hid & Hl').
    assert (l' ∈ ls) as Hl'' by (by eapply elem_of_sublist).
    assert (l = l') as <- by (by apply (NoDup_same_id ls)).
    destruct (match_type g).
    + destruct Hsig as [_ Hsig].
      pose proof (proj1 (Forall_forall _ _) Hsig l Hl'). congruence.
    + pose proof (proj1 (Forall_forall _ _) Hsig l Hl'). congruence.
Qed.

End Membership.

(** X6. Every cluster the builder makes is well formed, with or without
    duplicate ids in the input: it is not empty, its [listing_ids] are the
    ids of its [listings] in the same order, its listings are listings of
    the input in input order, and each of them carries the signal the
    cluster is keyed on (for a phone cluster a non-empty phone, for a
    host-id cluster the host key). *)
Theorem build_owner_groups_well_formed (ls : list Listing) (g : Group) :
  g ∈ build_owner_groups ls →
  listings g ≠ []
  ∧ listing_ids g = map listing_id (listings g)
  ∧ listings g `sublist_of` ls
  ∧ match match_type g with
    | phone_match =>
        identifier g ≠ ""
        ∧ Forall (λ l, extract_phone_from_listing l = Some (identifier g)) (listings g)
    | host_id_match =>
        Forall (λ l, host_key l = Some (identifier g)) (listings g)
    end.
Proof. apply build_owner_groups_members. Qed.

(** X7. The builder loses no listing that carries a signal.  A listing with
    a phone signal is a member of the phone cluster keyed on that phone.  On
    listings with distinct ids, a listing without phone signal but with a
    host key is a member of the host-id cluster keyed on it, and a listing
    with neither signal is claimed by no cluster. *)
Theorem every_signal_is_clustered (ls : list Listing) (l : Listing) :
  l ∈ ls →
  (∀ p, extract_phone_from_listing l = Some p →
        ∃ g, g ∈ build_owner_groups ls ∧ match_type g = phone_match
             ∧ identifier g = p ∧ l ∈ listings g)
  ∧ (NoDup (map listing_id ls) → extract_phone_from_listing l = None →
     ∀ k, host_key l = Some k →
          ∃ g, g ∈ build_owner_groups ls ∧ match_type g = host_id_match
               ∧ identifier g = k ∧ l ∈ listings g)
  ∧ (NoDup (map listing_id ls) → extract_phone_from_listing l = None →
     host_key l = None → listing_id l ∉ claimed_ids (build_owner_groups ls)).
Proof. apply build_owner_groups_complete. Qed.

(** ** The cluster builder: the exact contents of a cluster *)

Section Contents.

Context (key_of : Listing → option string).

Lemma dict_append_elem k l (d : Dict) k' v' :
  NoDup (map fst d) →
  (k', v') ∈ dict_append k l d ↔
  (k' ≠ k ∧ (k', v') ∈ d)
  ∨ (k' = k ∧ ∃ v, v' = v ++ [l] ∧ ((k, v) ∈ d ∨ (v = [] ∧ k ∉ map fst d))).
Proof.
  induction d as [|[k0 v0] d IH]; cbn [dict_append map fst].
  - intros _. rewrite list_elem_of_singleton. split.
    + intros [= -> ->]. right. split; [done|]. exists []. split; [done|].
      right. split; [done|]. apply not_elem_of_nil.
    + intros [[_ []%elem_of_nil]|[-> (v & -> & [[]%elem_of_nil|[-> _]])]]. done.
  - intros [Hk0 Hnd]%NoDup_cons. specialize (IH Hnd). case_decide as Hk.
    + subst k0. split.
      * intros [[= -> ->]|Hin]%elem_of_cons.
        -- right. split; [done|]. exists v0. split; [done|]. left. left.
        -- left. split; [|by right]. intros ->. apply Hk0.
           apply list_elem_of_fmap. by exists (k, v').
      * intros [[Hne [[= ? ?]|Hin]%elem_of_cons]
               |[-> (v & -> & [[[= ->]|Hin]%elem_of_cons|[-> Hnot]])]].
        -- done.
        -- by right.
        -- left.
        -- exfalso. apply Hk0. apply list_elem_of_fmap. by exists (k, v).
        -- exfalso. apply Hnot. left.
    + split.
      * intros [[= -> ->]|Hin]%elem_of_cons.
        -- left. split; [done|left].
        -- apply IH in Hin as [[Hne Hin]|[-> (v & -> & [Hin|[-> Hnot]])]].
           ++ left. split; [done|by right].
           ++ right. split; [done|]. exists v. split; [done|]. left. by right.
           ++ right. split; [done|]. exists []. split; [done|]. right. split; [done|].
              intros [?|?]%elem_of_cons; done.
      * intros [[Hne [[= -> ->]|Hin]%elem_of_cons]
               |[-> (v & -> & [[[= ? ?]|Hin]%elem_of_cons|[-> Hnot]])]].
        -- left.
        -- right. apply IH. by left.
        -- done.
        -- right. apply IH. right. split; [done|]. exists v. split; [done|]. by left.
        -- right. apply IH. right. split; [done|]. exists []. split; [done|]. right.
           split; [done|]. intros ?. apply Hnot. by right.
Qed.

Lemma keyed_dict_nil : keyed_dict key_of [] [].
Proof.
  split; [constructor|]. intros k v. split; [by intros []%elem_of_nil|].
  by intros [-> ?].
Qed.

Lemma keyed_dict_skip d ls l :
  key_of l = None → keyed_dict key_of d ls → keyed_dict key_of d (ls ++ [l]).
Proof.
  intros Hl [Hnd Hd]. split; [done|]. intros k v. rewrite Hd, filter_app.
  rewrite (filter_cons_False _ l) by congruence.
  rewrite filter_nil, app_nil_r. done.
Qed.

Lemma keyed_dict_append d ls l k :
  key_of l = Some k → keyed_dict key_of d ls →
  keyed_dict key_of (dict_append k l d) (ls ++ [l]).
Proof.
  intros Hl [Hnd Hd]. split; [by apply dict_append_keys_NoDup|].
  intros k' v'. rewrite dict_append_elem by done. rewrite filter_app.
  destruct (decide (k' = k)) as [->|Hne].
  - rewrite (filter_cons_True _ l) by done. rewrite filter_nil. split.
    + intros [[? _]|[_ (v & -> & [Hin|[-> Hnot]])]]; [done| |].
      * apply Hd in Hin as [<- _]. split; [done|]. by destruct v.
      * split; [|done]. f_equal.
        destruct (filter (λ x, key_of x = Some k) ls) as [|x xs] eqn:Hf; [done|].
        exfalso. apply Hnot. apply list_elem_of_fmap. exists (k, x :: xs).
        split; [done|]. apply Hd. by rewrite Hf.
    + intros [-> _]. right. split; [done|]. eexists. split; [done|].
      destruct (filter (λ x, key_of x = Some k) ls) as [|x xs] eqn:Hf.
      * right. split; [done|]. intros (kv & Hk & Hin)%list_elem_of_fmap.
        destruct kv as [k0 v0]. cbn in Hk. subst k0.
        apply Hd in Hin as [-> Hne]. by rewrite Hf in Hne.
      * left. apply Hd. by rewrite Hf.
  - rewrite (filter_cons_False _ l) by congruence.
    rewrite filter_nil, app_nil_r, <- Hd. split.
    + intros [[_ ?]|[? _]]; done.
    + intros ?. by left.
Qed.

End Contents.

Section ContentsOfGroups.

Implicit Types (ls : list Listing) (g : Group).

Lemma index_listings_snoc ls l :
  index_listings (ls ++ [l]) = index_listing (index_listings ls) l.
Proof. unfold index_listings. by rewrite fold_left_app. Qed.

(** [by_phone] and [by_host_id] after the first loop. *)
Lemma index_listings_keyed ls :
  keyed_dict extract_phone_from_listing (fst (index_listings ls)) ls
  ∧ keyed_dict host_key (snd (index_listings ls)) ls.
Proof.
  induction ls as [|l ls [IH1 IH2]] using rev_ind.
  - split; apply keyed_dict_nil.
  - rewrite index_listings_snoc. destruct (index_listings ls) as [d1 d2].
    unfold index_listing. cbn [fst snd] in *. split.
    + destruct (extract_phone_from_listing l) as [p|] eqn:Hp.
      * rewrite (extract_phone_truthy _ _ Hp). by apply keyed_dict_append.
      * by apply keyed_dict_skip.
    + destruct (host_key l) as [k|] eqn:Hk.
      * by apply keyed_dict_append.
      * by apply keyed_dict_skip.
Qed.

(** Where a group of the host-id loop comes from, and what had been
    claimed when it was made. *)
Lemma fold_add_host_group_origin (d : Dict) acc g :
  g ∈ fst (fold_left add_host_group d acc) →
  g ∈ fst acc
  ∨ ∃ d1 k hl d2 (P : gset ListingId),
      d = d1 ++ (k, hl) :: d2
      ∧ snd acc ⊆ P
      ∧ (∀ x, x ∈ P → x ∈ snd acc ∨ x ∈ map listing_id (dict_values d1))
      ∧ match_type g = host_id_match ∧ identifier g = k
      ∧ listings g = filter (λ l, listing_id l ∉ P) hl.
Proof.
  revert acc. induction d as [|[k hl] d IH]; intros [gs P]; cbn [fold_left].
  - by left.
  - intros Hg.
    assert (P ⊆ snd (add_host_group (gs, P) (k, hl))
            ∧ ∀ x, x ∈ snd (add_host_group (gs, P) (k, hl)) →
                   x ∈ P ∨ x ∈ map listing_id hl) as [Hsub Hsup].
    { unfold add_host_group.
      destruct (filter (λ lid, lid ∉ P) (map listing_id hl)) as [|i ids] eqn:Hi;
        [split; [done|by left]|].
      rewrite <- Hi.
      destruct (filter _ hl); [split; [done|by left]|]. cbn [snd].
      split; [set_solver|].
      intros x [?|Hx%elem_of_list_to_set]%elem_of_union; [by left|]. right.
      by apply list_elem_of_filter in Hx as [_ ?]. }
    apply IH in Hg as [Hg|(d1 & k' & hl' & d2 & P' & -> & HP & HP' & Hrest)].
    + revert Hg. unfold add_host_group.
      pose proof (new_listings_unclaimed P hl) as Hnew.
      set (new_ids := filter (λ lid, lid ∉ P) (map listing_id hl)) in *.
      set (new_listings := filter (λ l, listing_id l ∈ new_ids) hl) in *.
      destruct new_ids as [|i ids] eqn:Hi; [by left|].
      destruct new_listings as [|x xs] eqn:Hx; [by left|].
      cbn [fst]. intros [Hg|Hg]%elem_of_app; [by left|].
      apply list_elem_of_singleton in Hg as ->. right.
      exists [], k, hl, d, P. cbn [fst snd match_type identifier listings].
      split; [done|]. split; [done|]. split; [by left|]. done.
    + right. exists ((k, hl) :: d1), k', hl', d2, P'.
      split; [done|]. split; [by etrans|]. split; [|done].
      intros x Hx. destruct (HP' x Hx) as [Hx'|Hx'].
      * destruct (Hsup x Hx') as [?|?]; [by left|]. right.
        rewrite dict_values_cons, map_app. apply elem_of_app. by left.
      * right. rewrite dict_values_cons, map_app. apply elem_of_app. by right.
Qed.

Lemma build_owner_groups_contents ls g :
  g ∈ build_owner_groups ls →
  match match_type g with
  | phone_match =>
      listings g = filter (λ l, extract_phone_from_listing l = Some (identifier g)) ls
  | host_id_match =>
      NoDup (map listing_id ls) →
      listings g
      = filter (λ l, host_key l = Some (identifier g)
                     ∧ extract_phone_from_listing l = None) ls
  end.
Proof.
  intros Hg. destruct (index_listings_keyed ls) as [[_ Hp] [_ Hh]].
  unfold build_owner_groups in Hg.
  apply fold_add_host_group_origin in Hg
    as [Hg|(d1 & k & hl & d2 & P & Hd & HP & HP' & -> & <- & ->)].
  - unfold phone_owner_groups in Hg.
    apply fold_add_phone_group_elem in Hg as [[]%elem_of_nil|(k & v & Hin & _ & ->)].
    cbn. by apply Hp in Hin as [-> _].
  - intros Hnd.
    assert ((identifier g, hl) ∈ snd (index_listings ls)) as Hin.
    { rewrite Hd. apply elem_of_app. right. left. }
    apply Hh in Hin as [-> _]. rewrite list_filter_filter.
    apply filter_ext_elem. intros l Hl.
    assert (host_key l = Some (identifier g) → listing_id l ∉ P
            ↔ extract_phone_from_listing l = None) as Hiff; [|tauto].
    intros Hk. split.
    + intros Hnot. destruct (extract_phone_from_listing l) as [p|] eqn:Hpl; [|done].
      exfalso. apply Hnot, HP. unfold phone_owner_groups.
      destruct (fold_add_phone_group (fst (index_listings ls)) ([], ∅)) as (_ & -> & _).
      cbn [snd]. apply elem_of_union. right. apply elem_of_list_to_set.
      apply list_elem_of_fmap. exists l. split; [done|].
      apply (elem_of_dict_values _ p (filter (λ x, extract_phone_from_listing x = Some p) ls)).
      * apply Hp. split; [done|]. intros Hnil.
        assert (l ∈ filter (λ x, extract_phone_from_listing x = Some p) ls) as Hmem
          by (by apply list_elem_of_filter).
        rewrite Hnil in Hmem. by apply elem_of_nil in Hmem.
      * by apply list_elem_of_filter.
    + intros Hnone Hin. destruct (HP' _ Hin) as [Hin'|Hin'].
      * by apply (no_phone_not_processed ls l).
      * destruct (index_listings_NoDup ls Hnd) as [_ Hndh].
        rewrite Hd in Hndh. unfold dict_values in Hndh, Hin'.
        rewrite map_app, concat_app in Hndh. cbn [map concat snd] in Hndh.
        rewrite !map_app in Hndh.
        apply NoDup_app in Hndh as (_ & Hdisj & _).
        apply (Hdisj _ Hin'). apply elem_of_app. left.
        apply list_elem_of_fmap. exists l. split; [done|].
        by apply list_elem_of_filter.
Qed.

End ContentsOfGroups.

(** X8. What a cluster holds, exactly.  The phone cluster keyed on [p]
    holds the input listings whose phone signal is [p], all of them and in
    input order.  On listings with distinct ids, the host-id cluster keyed on
    [k] holds the input listings whose host key is [k] and that have no phone
    signal, all of them and in input order. *)
Theorem cluster_contents (ls : list Listing) (g : Group) :
  g ∈ build_owner_groups ls →
  match match_type g with
  | phone_match =>
      listings g = filter (λ l, extract_phone_from_listing l = Some (identifier g)) ls
  | host_id_match =>
      NoDup (map listing_id ls) →
      listings g
      = filter (λ l, host_key l = Some (identifier g)
                     ∧ extract_phone_from_listing l = None) ls
  end.
Proof. apply build_owner_groups_contents. Qed.

(** ** The reconciler under failures: what the tables keep *)

Section Constraints.

Context (env : Env).

Lemma owners_written_ids g w :
  map o_id (owners_written env g w)
  = map o_id (detected_owners w)
    ++ (if group_existing g w is Some _ then [] else [fresh_id (detected_owners w)]).
Proof.
  unfold owners_written. destruct (group_existing g w).
  - by rewrite update_rows_ids, app_nil_r.
  - by rewrite map_app.
Qed.

Lemma group_owner_id_written g w :
  group_owner_id g w ∈ map o_id (owners_written env g w).
Proof.
  pose proof (group_owner_id_scored env g w) as H.
  unfold owners_scored in H. by rewrite set_risk_ids in H.
Qed.

Lemma exit_owners_ids g w x :
  map o_id (detected_owners w) `prefix_of` map o_id (exit_owners env g w x).
Proof.
  destruct x; cbn [exit_owners]; try done.
  - rewrite owners_written_ids. by eexists.
  - rewrite owners_written_ids. by eexists.
  - rewrite owners_scored_ids. by eexists.
Qed.

Lemma exit_links_keys g w x :
  map link_key (owner_listings w) `prefix_of` map link_key (exit_links g w x).
Proof.
  destruct x as [| |k| |]; cbn [exit_links]; try done.
  - destruct (links_after_keys (group_owner_id g w) (match_type g)
                (take k (listings g)) (owner_listings w)) as (extra & -> & _).
    by eexists.
  - destruct (step_link_keys g w) as (extra & -> & _). by eexists.
  - destruct (step_link_keys g w) as (extra & -> & _). by eexists.
Qed.

(** The constraints of the tables hold at every door of the [try] block. *)
Lemma exit_wf g w x seg : wf_store w → wf_store (exit_world env g w x seg).
Proof.
  intros Hwf. pose proof Hwf as (Hids & Hkeys & Href).
  assert (∀ ls,
            NoDup (map link_key
                     (links_after (group_owner_id g w) (match_type g) ls (owner_listings w)))
            ∧ ∀ r, r ∈ links_after (group_owner_id g w) (match_type g) ls (owner_listings w) →
                   owner_id r ∈ map o_id (owners_written env g w)) as Hlinks.
  { intros ls.
    destruct (links_after_keys (group_owner_id g w) (match_type g) ls (owner_listings w))
      as (extra & Hk & _ & Hnd & _ & _ & Hel).
    split; [rewrite Hk; by apply Hnd|].
    intros r Hr. apply Hel in Hr as [Hr| ->].
    - rewrite owners_written_ids. apply elem_of_app. left. by apply Href.
    - apply group_owner_id_written. }
  destruct x as [| |k| |].
  - done.
  - done.
  - unfold wf_store.
    cbn [detected_owners owner_listings exit_world exit_owners exit_links].
    destruct (Hlinks (take k (listings g))) as [H1 H2].
    split; [|done].
    change (owners_written env g w) with (exit_owners env g w (ExitLinks k)).
    by apply exit_owners_NoDup.
  - unfold wf_store.
    cbn [detected_owners owner_listings exit_world exit_owners exit_links].
    destruct (Hlinks (listings g)) as [H1 H2].
    split; [|done].
    change (owners_written env g w) with (exit_owners env g w ExitRpc).
    by apply exit_owners_NoDup.
  - by apply step_wf.
Qed.

Lemma exit_grows g w x seg : store_grows w (exit_world env g w x seg).
Proof.
  split; [done|]. split; [apply exit_owners_ids|apply exit_links_keys].
Qed.

Lemma store_grows_refl w : store_grows w w.
Proof. by split. Qed.

Lemma store_grows_trans w1 w2 w3 :
  store_grows w1 w2 → store_grows w2 w3 → store_grows w1 w3.
Proof.
  intros (H1 & H2 & H3) (I1 & I2 & I3). split; [congruence|].
  split; by etrans.
Qed.

Lemma store_grows_tables w w1 w' :
  scraped_listings w' = scraped_listings w1 →
  detected_owners w' = detected_owners w1 →
  owner_listings w' = owner_listings w1 →
  store_grows w w1 → store_grows w w'.
Proof. unfold store_grows. by intros -> -> ->. Qed.

Lemma try_save_group_keeps g w st :
  store_grows w (fst (try_save_group env (w, st) g))
  ∧ (wf_store w → wf_store (fst (try_save_group env (w, st) g))).
Proof.
  unfold try_save_group.
  destruct (save_group_exits env g w st)
    as [[_ Heq]|(_ & x & seg & r & Heq & _ & _)].
  { rewrite Heq. cbn [fst]. split.
    - eapply store_grows_tables; [..|apply (store_grows_refl w)]; done.
    - by apply wf_store_tables. }
  rewrite Heq. destruct r; cbn [fst].
  - split; [apply exit_grows|apply exit_wf].
  - split.
    + eapply store_grows_tables; [..|apply (exit_grows g w x seg)]; done.
    + intros Hwf. eapply wf_store_tables; [..|apply (exit_wf g w x seg Hwf)]; done.
Qed.

Lemma fold_try_save_group_keeps gs w st :
  store_grows w (fst (fold_left (try_save_group env) gs (w, st)))
  ∧ (wf_store w → wf_store (fst (fold_left (try_save_group env) gs (w, st)))).
Proof.
  revert w st. induction gs as [|g gs IH]; intros w st; cbn [fold_left].
  - split; [apply store_grows_refl|done].
  - destruct (try_save_group_keeps g w st) as [H1 H2].
    destruct (try_save_group env (w, st) g) as [w1 st1]. cbn [fst] in *.
    destruct (IH w1 st1) as [I1 I2].
    split; [by eapply store_grows_trans|auto].
Qed.

Lemma run_keeps w :
  store_grows w (run env w) ∧ (wf_store w → wf_store (run env w)).
Proof.
  unfold run. rewrite detect_owners_unfold.
  destruct (fails env (length (calls w))); cbn [fst].
  - split; [by split|]. by apply wf_store_tables.
  - cbn zeta. unfold save_owners_to_db.
    match goal with
    | |- context [fold_left _ _ (?w0, _)] =>
        destruct (fold_try_save_group_keeps (build_owner_groups (active_listings w))
                    w0 zero_stats) as [H1 H2]
    end.
    split.
    + eapply store_grows_trans; [|exact H1]. by split.
    + intros Hwf. apply H2. revert Hwf. by apply wf_store_tables.
Qed.

End Constraints.

(** X9. Whatever store calls fail, a run of the reconciler removes nothing:
    the scraped listings are as before, the owner ids and the link keys of
    before are still there, in place, followed by the new ones.  If the
    tables satisfied their constraints (owner ids unique, link keys unique,
    every link pointing to an owner row), they still do, also after a block
    that was cut short by an exception.  This holds for the loop of
    [save_owners_to_db] on any groups and for a whole [detect_owners]. *)
Theorem store_constraints_survive_failures (env : Env) (gs : list Group) (w : World) :
  (store_grows w (fst (save_owners_to_db env gs w))
   ∧ (wf_store w → wf_store (fst (save_owners_to_db env gs w))))
  ∧ (store_grows w (run env w) ∧ (wf_store w → wf_store (run env w))).
Proof.
  split; [apply fold_try_save_group_keeps|apply run_keeps].
Qed.

(** ** The reconciler: what a saved group leaves, and what an outage leaves *)

Section SavedGroup.

Context (env : Env).

(** A block whose first store call raises. *)
Lemma first_call_fails g w st msg :
  averaged g →
  fails env (length (calls w)) = Some msg →
  let s' := try_save_group env (w, st) g in
  detected_owners (fst s') = detected_owners w
  ∧ owner_listings (fst s') = owner_listings w
  ∧ snd s' = st
  ∧ stderr (fst s') = stderr w ++ [error_line msg]
  ∧ length (calls (fst s')) = S (length (calls w)).
Proof.
  intros Ha Hf. unfold try_save_group.
  rewrite (save_group_averaged env g _ Ha). unfold save_body.
  erewrite bind_ok; [|apply datetime_now_run].
  destruct (bool_decide (match_type g = phone_match) && Py.truthy (identifier g)).
  - erewrite bind_raise;
      [|erewrite bind_raise; [done|by apply store_call_fail]].
    cbn. rewrite length_app. cbn. split_and!; try done. lia.
  - erewrite bind_ok; [|done].
    erewrite bind_raise;
      [|erewrite bind_ok; [|apply datetime_now_run];
        erewrite bind_raise; [done|by apply store_call_fail]].
    cbn. rewrite length_app. cbn. split_and!; try done. lia.
Qed.

(** A block whose first store call would raise: nothing is written, also
    when the division raises before that call. *)
Lemma first_call_fails_or_overflow g w st msg :
  fails env (length (calls w)) = Some msg →
  let s' := try_save_group env (w, st) g in
  detected_owners (fst s') = detected_owners w
  ∧ owner_listings (fst s') = owner_listings w
  ∧ snd s' = st
  ∧ length (stderr (fst s')) = S (length (stderr w))
  ∧ length (calls (fst s'))
    = length (calls w) + (if decide (averaged g) then 1 else 0).
Proof.
  intros Hf. cbn zeta. destruct (decide (averaged g)) as [Ha|Ha].
  - destruct (first_call_fails g w st msg Ha Hf) as (H1 & H2 & H3 & H4 & H5).
    rewrite H4, H5, length_app. cbn. split_and!; try done; lia.
  - rewrite (try_save_group_overflow env g w st Ha). cbn.
    rewrite length_app. cbn. split_and!; try done; lia.
Qed.

Lemma outage gs w st :
  (∀ n, is_Some (fails env n)) →
  let s' := fold_left (try_save_group env) gs (w, st) in
  detected_owners (fst s') = detected_owners w
  ∧ owner_listings (fst s') = owner_listings w
  ∧ snd s' = st
  ∧ length (stderr (fst s')) = length (stderr w) + length gs
  ∧ length (calls (fst s')) = length (calls w) + length (filter averaged gs).
Proof.
  intros Hout. revert w st. induction gs as [|g gs IH]; intros w st; cbn [fold_left].
  - cbn. split_and!; try done; lia.
  - destruct (Hout (length (calls w))) as [msg Hmsg].
    destruct (first_call_fails_or_overflow g w st msg Hmsg) as (H1 & H2 & H3 & H4 & H5).
    destruct (try_save_group env (w, st) g) as [w1 st1]. cbn [fst snd] in *.
    subst st1. destruct (IH w1 st) as (I1 & I2 & I3 & I4 & I5).
    rewrite I1, I2, I3, I4, I5, H1, H2, H4, H5, filter_averaged_cons. cbn [length].
    split_and!; try done; [lia|]. case_decide; cbn [length]; lia.
Qed.

End SavedGroup.

(** X10. When the block of a group ends without an exception, whatever
    happened to the groups before it, the table of owners holds a row that
    carries the group's aggregate and the clock reading taken when the
    record was built (and, for a phone group, the phone as [primary_phone]),
    and every listing of the group has a link row to that owner with the
    group's match type and the confidence of that match type.  The group is
    counted once in [total_owners] and once in [new_owners] or
    [updated_owners]. *)
Theorem saved_group_is_linked (env : Env) (g : Group) (w : World) (st : Stats) :
  snd (save_group env g (w, st)) = Ok () →
  let w' := fst (fst (save_group env g (w, st))) in
  let st' := snd (fst (save_group env g (w, st))) in
  (∃ o, o ∈ detected_owners w'
        ∧ aggregates o (listings g)
        ∧ last_seen_at o = now env (clock_reads w)
        ∧ (match_type g = phone_match → primary_phone o = Some (identifier g))
        ∧ ∀ l, l ∈ listings g →
               link_data (o_id o) l (match_type g) ∈ owner_listings w')
  ∧ total_owners st' = S (total_owners st)
  ∧ new_owners st' + updated_owners st' = S (new_owners st + updated_owners st).
Proof.
  intros Hok. destruct (save_group_ok_exit env g w st Hok) as (Ha & seg & ->).
  cbn [fst snd detected_owners owner_listings exit_world exit_owners exit_links].
  split.
  - destruct (owners_written_row env g w Ha) as (o & Ho & Hid & Hagg & Hlast & Hph).
    destruct (set_risk_row (group_owner_id g w)
                (risk env (owners_written env g w) (links_written g w)
                   (group_owner_id g w)) _ o Ho)
      as (o' & Ho' & Hid' & Hph' & Hlast' & Hagg').
    exists o'. split; [exact Ho'|]. split; [by apply Hagg'|].
    split; [congruence|]. split; [intros Hm; rewrite Hph'; by apply Hph|].
    intros l Hl. rewrite Hid', Hid. unfold links_written.
    by apply links_after_member.
  - unfold exit_stats, bump_written.
    destruct (group_existing g w); destruct (1 <? length (listings g)); cbn; lia.
Qed.

(** X11. A group whose first store call would raise writes nothing: the
    two tables and the counters are as before and one line is printed.  If
    the average price of the group is computed, the line carries the text of
    the store's exception and one call is in the history; if the division of
    line 176 overflows, the line carries the text of the overflow and no
    call is made.  Hence, when every store call raises, the loop of
    [save_owners_to_db] over any groups leaves both tables as they were,
    returns the counters it started from, prints one line per group and
    makes one call per group whose average price is computed, and no
    other. *)
Theorem outage_writes_nothing (env : Env) :
  (∀ g w st msg,
     fails env (length (calls w)) = Some msg →
     let s' := try_save_group env (w, st) g in
     detected_owners (fst s') = detected_owners w
     ∧ owner_listings (fst s') = owner_listings w
     ∧ snd s' = st
     ∧ (averaged g →
        stderr (fst s') = stderr w ++ [error_line msg]
        ∧ length (calls (fst s')) = S (length (calls w)))
     ∧ (¬ averaged g →
        stderr (fst s') = stderr w ++ [error_line overflow_text]
        ∧ calls (fst s') = calls w))
  ∧ ((∀ n, is_Some (fails env n)) →
     ∀ gs w,
       let s' := save_owners_to_db env gs w in
       detected_owners (fst s') = detected_owners w
       ∧ owner_listings (fst s') = owner_listings w
       ∧ snd s' = zero_stats
       ∧ length (stderr (fst s')) = length (stderr w) + length gs
       ∧ length (calls (fst s')) = length (calls w) + length (filter averaged gs)).
Proof.
  split.
  - intros g w st msg Hf.
    destruct (first_call_fails_or_overflow env g w st msg Hf) as (H1 & H2 & H3 & _).
    split; [done|]. split; [done|]. split; [done|]. split.
    + intros Ha.
      by destruct (first_call_fails env g w st msg Ha Hf) as (_ & _ & _ & ? & ?).
    + intros Ha. by rewrite (try_save_group_overflow env g w st Ha).
  - intros Hout gs w. by apply outage.
Qed.

(** ** The report *)

Section ReportFacts.

Implicit Types (os : list Owner) (o : Owner).

Lemma top_owners_length os : length (top_owners os) = 100 `min` length os.
Proof.
  unfold top_owners. rewrite length_take.
  by rewrite (Permutation_length (merge_sort_Permutation by_risk_desc os)).
Qed.

Lemma length_filter_le {A} (P : A → Prop) `{!∀ x, Decision (P x)} (l : list A) :
  length (filter P l) ≤ length l.
Proof. apply sublist_length, sublist_filter. Qed.

Lemma filter_take_sorted n os :
  StronglySorted by_risk_desc os →
  filter (λ o, (50 ≤ risk_score o)%Z) (take n os)
  = take n (filter (λ o, (50 ≤ risk_score o)%Z) os).
Proof.
  intros Hs. revert n. induction Hs as [|x l Hl IH Hx]; intros n.
  - by destruct n.
  - destruct n as [|n]; [done|]. cbn [take].
    destruct (decide (50 ≤ risk_score x)%Z) as [Hhi|Hlo].
    + rewrite !filter_cons_True by done. cbn [take]. by rewrite IH.
    + rewrite !filter_cons_False by done.
      assert (∀ l', l' `sublist_of` l → filter (λ o, (50 ≤ risk_score o)%Z) l' = [])
        as Hnone.
      { intros l' Hsub. apply filter_none. apply Forall_forall. intros y Hy.
        assert (y ∈ l) as Hy' by (by eapply elem_of_sublist).
        pose proof (proj1 (Forall_forall _ _) Hx y Hy') as Hle.
        unfold by_risk_desc in Hle. lia. }
      rewrite (Hnone (take n l)) by apply sublist_take.
      rewrite (Hnone l) by done. by rewrite take_nil.
Qed.

Lemma coverage_rate_nonneg os n : (0 <= coverage_rate os n)%Q.
Proof.
  unfold coverage_rate. destruct n as [|n]; [done|].
  apply Qle_shift_div_l.
  - change 0%Q with (inject_Z 0). rewrite <- Zlt_Qlt. lia.
  - rewrite Qmult_0_l. change 0%Q with (inject_Z 0). rewrite <- Zle_Qle. lia.
Qed.

Lemma report_of_counts os n :
  let r := report_of os n in
  rep_total_owners r = length os
  ∧ rep_multi_property_owners r ≤ rep_total_owners r
  ∧ rep_high_risk_owners r ≤ rep_total_owners r
  ∧ rep_total_listings r = n
  ∧ length (rep_top_operators r) = 10 `min` length os
  ∧ (n = 0 → rep_coverage_rate r = 0%Q)
  ∧ (0 <= rep_coverage_rate r)%Q.
Proof.
  cbn. split_and!; try done.
  - apply length_filter_le.
  - apply length_filter_le.
  - by rewrite length_map, length_take.
  - by intros ->.
  - apply coverage_rate_nonneg.
Qed.

Lemma generate_owner_report_Ok env w r :
  generate_owner_report env w = Ok r →
  r = report_of (top_owners (detected_owners w)) (length (active_listings w)).
Proof.
  unfold generate_owner_report.
  destruct (fails env (length (calls w))); [done|].
  destruct (fails env (S (length (calls w)))); [done|]. by intros [= <-].
Qed.

End ReportFacts.

(** X12. The numbers of a report.  When both queries go through,
    [total_owners] is the number of owner rows, at most 100;
    [multi_property_owners] and [high_risk_owners] count some of those rows;
    [total_listings] is the number of active listings; there are as many
    top operators as owner rows, at most 10; the coverage rate is not
    negative, and it is 0 when there is no active listing (no division
    takes place). *)
Theorem report_counts (env : Env) (w : World) (r : Report) :
  generate_owner_report env w = Ok r →
  rep_total_owners r = 100 `min` length (detected_owners w)
  ∧ rep_multi_property_owners r ≤ rep_total_owners r
  ∧ rep_high_risk_owners r ≤ rep_total_owners r
  ∧ rep_total_listings r = length (active_listings w)
  ∧ length (rep_top_operators r) = 10 `min` length (detected_owners w)
  ∧ (active_listings w = [] → rep_coverage_rate r = 0%Q)
  ∧ (0 <= rep_coverage_rate r)%Q.
Proof.
  intros ->%generate_owner_report_Ok.
  destruct (report_of_counts (top_owners (detected_owners w))
              (length (active_listings w))) as (H1 & H2 & H3 & H4 & H5 & H6 & H7).
  rewrite top_owners_length in H1, H5.
  split_and!; try done.
  - rewrite H5. lia.
  - intros Hnil. apply H6. by rewrite Hnil.
Qed.

(** X13. The ranking of a report.  The top operators are owner rows of the
    table in descending order of risk score, and no row left out has a
    higher score than a row listed.  [high_risk_owners] is the number of
    rows of the whole table with a score of 50 or more, capped at 100: the
    limit of the query never hides a high-risk owner behind a lower one.
    [multi_property_owners] is the number of rows of the whole table with
    more than one listing when the table has at most 100 rows. *)
Theorem report_ranking (env : Env) (w : World) (r : Report) :
  generate_owner_report env w = Ok r →
  (∃ top rest,
     detected_owners w ≡ₚ top ++ rest
     ∧ rep_top_operators r = map operator_of top
     ∧ StronglySorted by_risk_desc top
     ∧ ∀ a b, a ∈ top → b ∈ rest → (risk_score b ≤ risk_score a)%Z)
  ∧ rep_high_risk_owners r
    = 100 `min` length (filter (λ o, (50 ≤ risk_score o)%Z) (detected_owners w))
  ∧ (length (detected_owners w) ≤ 100 →
     rep_multi_property_owners r
     = length (filter (λ o, 1 < listing_count o) (detected_owners w))).
Proof.
  intros ->%generate_owner_report_Ok.
  pose proof (StronglySorted_merge_sort by_risk_desc (detected_owners w)) as Hs.
  pose proof (merge_sort_Permutation by_risk_desc (detected_owners w)) as Hp.
  set (sorted := merge_sort by_risk_desc (detected_owners w)) in *.
  split_and!.
  - exists (take 10 (take 100 sorted)), (drop 10 sorted).
    assert (take 10 (take 100 sorted) = take 10 sorted) as Htt.
    { rewrite take_take. f_equal. }
    split_and!.
    + rewrite Htt, take_drop. by symmetry.
    + done.
    + rewrite Htt. rewrite <- (take_drop 10 sorted) in Hs.
      by apply StronglySorted_app_1_l in Hs.
    + rewrite Htt. rewrite <- (take_drop 10 sorted) in Hs.
      intros a b Ha Hb.
      by apply (StronglySorted_app_1_elem_of _ _ _ _ _ Hs Ha Hb).
  - cbn [rep_high_risk_owners report_of]. unfold top_owners. fold sorted.
    rewrite filter_take_sorted by done. rewrite length_take.
    f_equal. by rewrite Hp.
  - intros Hle. cbn [rep_multi_property_owners report_of]. unfold top_owners.
    fold sorted. rewrite take_ge.
    + by rewrite Hp.
    + by rewrite (Permutation_length Hp).
Qed.

(** ** A whole run without failures: every signal is resolved *)

Section Resolution.

Context (env : Env) (Hnf : no_faults env).

Lemma member_ids_cons g gs :
  member_ids (g :: gs) = map listing_id (listings g) ++ member_ids gs.
Proof. done. Qed.

Lemma member_ids_elem g gs x :
  g ∈ gs → x ∈ map listing_id (listings g) → x ∈ member_ids gs.
Proof.
  induction gs as [|g' gs IH]; [by intros []%elem_of_nil|].
  rewrite member_ids_cons. intros [->|Hg]%elem_of_cons Hx; apply elem_of_app.
  - by left.
  - right. by apply IH.
Qed.

(** A link row at the end of the loop was there before or is the link of
    a member of a group. *)
Lemma fold_links_origin gs w st r :
  r ∈ owner_listings (fst (fold_left (try_save_group env) gs (w, st))) →
  r ∈ owner_listings w ∨ scraped_listing_id r ∈ member_ids gs.
Proof.
  intros [?|(g & l & Hg & _ & Hl & ->)]%fold_try_save_group_rows; [by left|].
  right. apply (member_ids_elem g); [done|].
  cbn. apply list_elem_of_fmap. eauto.
Qed.

Lemma build_member_ids ls :
  member_ids (build_owner_groups ls) = claimed_ids (build_owner_groups ls).
Proof.
  unfold member_ids, claimed_ids. f_equal. apply map_ext_in.
  intros g Hg%list_elem_of_In.
  by destruct (build_owner_groups_members ls g Hg) as (_ & -> & _).
Qed.

Lemma run_resolves w :
  wf_store w →
  let gs := build_owner_groups (active_listings w) in
  wf_store (run env w)
  ∧ (∀ g, g ∈ gs → averaged g → resolved g (run env w))
  ∧ ∀ r, r ∈ owner_listings (run env w) →
         r ∈ owner_listings w ∨ scraped_listing_id r ∈ claimed_ids gs.
Proof.
  intros Hwf gs. unfold run. rewrite detect_owners_unfold, Hnf. cbn zeta.
  fold gs. cbn [fst]. unfold save_owners_to_db.
  match goal with
  | |- context [fold_left _ _ (?x, _)] => set (w0 := x)
  end.
  assert (wf_store w0) as Hwf0 by (revert Hwf; by apply wf_store_tables).
  destruct (fold_resolves env Hnf gs w0 zero_stats Hwf0) as [H1 H2].
  - apply build_owner_groups_ok.
  - split; [done|]. split; [done|].
    intros r Hr. apply fold_links_origin in Hr. unfold gs in Hr.
    by rewrite build_member_ids in Hr.
Qed.

End Resolution.

(** X14. A whole run without failures, on a store that satisfies its
    constraints and on active listings with distinct ids.  For an active
    listing with phone signal [p], if the average price of the active
    listings whose signal is [p] is computed (the division of line 176 does
    not overflow), the first owner row with phone [p] carries the aggregate
    of exactly these listings, and the listing has a phone-match link row
    with confidence 1 to that owner.  For an active listing without phone
    signal and with host key [k], if the average price of the active
    listings with host key [k] and no phone signal is computed, an owner row
    without a phone carries the aggregate of exactly these listings, and the
    listing has a host-id-match link row with confidence 9/10 to it.  For an
    active listing without any signal, the run writes no link row. *)
Theorem run_resolves_every_signal (env : Env) (w : World) (l : Listing) :
  no_faults env → wf_store w → NoDup (map listing_id (active_listings w)) →
  l ∈ active_listings w →
  let ls := active_listings w in
  let w' := run env w in
  (∀ p, extract_phone_from_listing l = Some p →
     let cluster := filter (λ x, extract_phone_from_listing x = Some p) ls in
     is_ok (avg_price (tally cluster)) = true →
     ∃ o, owner_by_phone p (detected_owners w') = Some o
          ∧ aggregates o cluster
          ∧ link_data (o_id o) l phone_match ∈ owner_listings w'
          ∧ confidence (link_data (o_id o) l phone_match) = 1%Q)
  ∧ (extract_phone_from_listing l = None →
     ∀ k, host_key l = Some k →
       let cluster := filter (λ x, host_key x = Some k
                                   ∧ extract_phone_from_listing x = None) ls in
       is_ok (avg_price (tally cluster)) = true →
       ∃ o, o ∈ detected_owners w' ∧ primary_phone o = None
            ∧ aggregates o cluster
            ∧ link_data (o_id o) l host_id_match ∈ owner_listings w'
            ∧ confidence (link_data (o_id o) l host_id_match) = (9 # 10)%Q)
  ∧ (extract_phone_from_listing l = None → host_key l = None →
     ∀ r, r ∈ owner_listings w' → scraped_listing_id r = listing_id l →
          r ∈ owner_listings w).
Proof.
  intros Hnf Hwf Hnd Hl ls w'.
  destruct (run_resolves env Hnf w Hwf) as (_ & Hres & Horigin).
  destruct (build_owner_groups_complete ls l Hl) as (Hc1 & Hc2 & Hc3).
  split; [|split].
  - intros p Hp cluster Hav. destruct (Hc1 p Hp) as (g & Hg & Hm & Hi & Hin).
    pose proof (build_owner_groups_contents ls g Hg) as Hcont.
    rewrite Hm, Hi in Hcont.
    assert (averaged g) as Ha by (unfold averaged; by rewrite Hcont).
    destruct (Hres g Hg Ha) as (o & _ & Hagg & Hkey & Hlinks).
    rewrite Hm in Hkey, Hlinks. rewrite Hi in Hkey.
    exists o. split; [done|]. split; [unfold cluster; by rewrite <- Hcont|].
    split; [by apply Hlinks|done].
  - intros Hp k Hk cluster Hav. destruct (Hc2 Hnd Hp k Hk) as (g & Hg & Hm & Hi & Hin).
    pose proof (build_owner_groups_contents ls g Hg) as Hcont.
    rewrite Hm, Hi in Hcont. specialize (Hcont Hnd).
    assert (averaged g) as Ha by (unfold averaged; by rewrite Hcont).
    destruct (Hres g Hg Ha) as (o & Ho & Hagg & Hkey & Hlinks).
    rewrite Hm in Hkey, Hlinks.
    exists o. split; [done|]. split; [done|].
    split; [unfold cluster; by rewrite <- Hcont|]. split; [by apply Hlinks|done].
  - intros Hp Hk r Hr Hid. destruct (Horigin r Hr) as [?|Hin]; [done|].
    exfalso. rewrite Hid in Hin. by apply (Hc3 Hnd Hp Hk).
Qed.

(** ** The aggregator: what the sets hold, whatever the order *)

Section AggregateSets.

Implicit Types (t : Tally) (l : Listing) (ls : list Listing).

Lemma truthy_ne (s : string) : Py.truthy s = true ↔ s ≠ "".
Proof. by destruct s. Qed.

Lemma strip_nonempty (n : string) : Py.strip n ≠ "" → n ≠ "".
Proof. by intros H ->. Qed.

Lemma lstrip_head (s : string) :
  match Py.lstrip s with
  | EmptyString => True
  | String c _ => Py.isspace c = false
  end.
Proof.
  induction s as [|c s IH]; [done|]. cbn [Py.lstrip].
  destruct (Py.isspace c) eqn:Hc; done.
Qed.

Lemma rstrip_head c (s : string) :
  Py.isspace c = false → ∃ r, Py.rstrip (String c s) = String c r.
Proof.
  intros Hc. cbn [Py.rstrip]. destruct (Py.rstrip s); rewrite ?Hc; eauto.
Qed.

Lemma rstrip_idemp (s : string) : Py.rstrip (Py.rstrip s) = Py.rstrip s.
Proof.
  induction s as [|c s IH]; [done|]. cbn [Py.rstrip].
  destruct (Py.rstrip s) as [|c' r] eqn:Hr.
  - destruct (Py.isspace c) eqn:Hc; [done|]. cbn [Py.rstrip]. by rewrite Hc.
  - change (Py.rstrip (String c (String c' r)))
      with (match Py.rstrip (String c' r) with
            | EmptyString => if Py.isspace c then EmptyString else String c EmptyString
            | r0 => String c r0
            end).
    by rewrite IH.
Qed.

(** Stripping a stripped string changes nothing. *)
Lemma strip_idemp (s : string) : Py.strip (Py.strip s) = Py.strip s.
Proof.
  unfold Py.strip. pose proof (lstrip_head s) as Hh.
  destruct (Py.lstrip s) as [|c s'] eqn:Hl; [done|].
  destruct (rstrip_head c s' Hh) as [r Hr]. rewrite Hr.
  cbn [Py.lstrip]. rewrite Hh, <- Hr. apply rstrip_idemp.
Qed.

Lemma fold_tally_names ls t x :
  x ∈ t_names (fold_left tally_listing ls t) ↔
  x ∈ t_names t
  ∨ ∃ l n, l ∈ ls ∧ host_name l = Some n ∧ Py.strip n ≠ "" ∧ x = Py.strip n.
Proof.
  revert t. induction ls as [|l ls IH]; intros t; cbn [fold_left].
  - split; [by left|]. intros [?|(l & n & []%elem_of_nil & _)]. done.
  - rewrite IH. cbn [t_names tally_listing]. split.
    + intros [Hx|(l' & n & Hl' & Hrest)].
      * destruct (host_name l) as [n|] eqn:Hn; [|by left].
        destruct (Py.truthy n && Py.truthy (Py.strip n)) eqn:Hc; [|by left].
        apply andb_true_iff in Hc as [_ Hs%truthy_ne].
        apply elem_of_union in Hx as [?| ->%elem_of_singleton]; [by left|].
        right. exists l, n. split; [left|done].
      * right. exists l', n. split; [by right|done].
    + intros [Hx|(l' & n & [-> |Hl']%elem_of_cons & Hn & Hs & ->)].
      * left. destruct (host_name l) as [n|]; [|done].
        destruct (Py.truthy n && Py.truthy (Py.strip n)); [|done].
        apply elem_of_union. by left.
      * left. rewrite Hn.
        rewrite (proj2 (truthy_ne n)) by (by apply strip_nonempty).
        rewrite (proj2 (truthy_ne (Py.strip n))) by done.
        cbn [andb]. apply elem_of_union. right. by apply elem_of_singleton.
      * right. exists l', n. done.
Qed.

Lemma fold_tally_platforms ls t x :
  x ∈ t_platforms (fold_left tally_listing ls t) ↔
  x ∈ t_platforms t ∨ ∃ l, l ∈ ls ∧ x = platform l.
Proof.
  revert t. induction ls as [|l ls IH]; intros t; cbn [fold_left].
  - split; [by left|]. intros [?|(l & []%elem_of_nil & _)]. done.
  - rewrite IH. cbn [t_platforms tally_listing]. split.
    + intros [[?| ->%elem_of_singleton]%elem_of_union|(l' & Hl' & ->)].
      * by left.
      * right. exists l. split; [left|done].
      * right. exists l'. split; [by right|done].
    + intros [Hx|(l' & [-> |Hl']%elem_of_cons & ->)].
      * left. apply elem_of_union. by left.
      * left. apply elem_of_union. right. by apply elem_of_singleton.
      * right. exists l'. done.
Qed.

Lemma fold_tally_host_ids ls t x :
  x ∈ t_host_ids (fold_left tally_listing ls t) ↔
  x ∈ t_host_ids t
  ∨ ∃ l h, l ∈ ls ∧ host_id l = Some h ∧ h ≠ "" ∧ x = platform l +:+ ":" +:+ h.
Proof.
  revert t. induction ls as [|l ls IH]; intros t; cbn [fold_left].
  - split; [by left|]. intros [?|(l & h & []%elem_of_nil & _)]. done.
  - rewrite IH. cbn [t_host_ids tally_listing]. split.
    + intros [Hx|(l' & h & Hl' & Hrest)].
      * destruct (host_id l) as [h|] eqn:Hh; [|by left].
        destruct (Py.truthy h) eqn:Ht; [|by left].
        apply truthy_ne in Ht.
        apply elem_of_union in Hx as [?| ->%elem_of_singleton]; [by left|].
        right. exists l, h. split; [left|done].
      * right. exists l', h. split; [by right|done].
    + intros [Hx|(l' & h & [-> |Hl']%elem_of_cons & Hh & Hne & ->)].
      * left. destruct (host_id l) as [h|]; [|done].
        destruct (Py.truthy h); [|done]. apply elem_of_union. by left.
      * left. rewrite Hh, (proj2 (truthy_ne h)) by done.
        apply elem_of_union. right. by apply elem_of_singleton.
      * right. exists l', h. done.
Qed.

(** The body of the loop commutes with itself. *)
Lemma tally_listing_comm t a b :
  tally_listing (tally_listing t a) b = tally_listing (tally_listing t b) a.
Proof.
  unfold tally_listing.
  cbn [t_names t_platforms t_host_ids total_price price_count].
  f_equal.
  - destruct (host_name a) as [na|], (host_name b) as [nb|]; try done.
    destruct (Py.truthy na && Py.truthy (Py.strip na)),
      (Py.truthy nb && Py.truthy (Py.strip nb)); try done.
    set_solver.
  - set_solver.
  - destruct (host_id a) as [ha|], (host_id b) as [hb|]; try done.
    destruct (Py.truthy ha), (Py.truthy hb); try done. set_solver.
  - destruct (price a) as [pa|], (price b) as [pb|]; try done.
    destruct (negb (pa =? 0)%Z && (0 <? pa)%Z), (negb (pb =? 0)%Z && (0 <? pb)%Z);
      try done. lia.
  - destruct (price a) as [pa|], (price b) as [pb|]; try done.
    destruct (negb (pa =? 0)%Z && (0 <? pa)%Z), (negb (pb =? 0)%Z && (0 <? pb)%Z);
      try done.
Qed.

Lemma fold_tally_perm ls ls' :
  ls ≡ₚ ls' → ∀ t, fold_left tally_listing ls t = fold_left tally_listing ls' t.
Proof.
  induction 1 as [|x l l' _ IH|x y l|l l' l'' _ IH1 _ IH2]; intros t; cbn [fold_left].
  - done.
  - apply IH.
  - by rewrite tally_listing_comm.
  - by rewrite IH1.
Qed.

End AggregateSets.

(** X15. What the aggregate of a group holds.  [names] holds the stripped
    host names of the listings, those that are not empty once stripped;
    every stored name is not empty and has no white space at either end.
    [platforms] holds the platform of every listing.  [host_ids] holds
    [platform:host_id] for every listing with a non-empty host id, of any
    platform.  The aggregate does not depend on the order of the listings. *)
Theorem aggregate_sets_and_order (ls : list Listing) :
  (∀ x, x ∈ t_names (tally ls) ↔
        ∃ l n, l ∈ ls ∧ host_name l = Some n ∧ Py.strip n ≠ "" ∧ x = Py.strip n)
  ∧ (∀ x, x ∈ t_names (tally ls) → x ≠ "" ∧ Py.strip x = x)
  ∧ (∀ x, x ∈ t_platforms (tally ls) ↔ ∃ l, l ∈ ls ∧ x = platform l)
  ∧ (∀ x, x ∈ t_host_ids (tally ls) ↔
          ∃ l h, l ∈ ls ∧ host_id l = Some h ∧ h ≠ ""
                 ∧ x = platform l +:+ ":" +:+ h)
  ∧ (∀ ls', ls ≡ₚ ls' → tally ls' = tally ls).
Proof.
  assert (∀ x, x ∈ t_names (tally ls) ↔
               ∃ l n, l ∈ ls ∧ host_name l = Some n ∧ Py.strip n ≠ "" ∧ x = Py.strip n)
    as Hnames.
  { intros x. unfold tally. rewrite fold_tally_names. cbn. set_solver. }
  split_and!.
  - exact Hnames.
  - intros x (l & n & _ & _ & Hs & ->)%Hnames. split; [done|apply strip_idemp].
  - intros x. unfold tally. rewrite fold_tally_platforms. cbn. set_solver.
  - intros x. unfold tally. rewrite fold_tally_host_ids. cbn. set_solver.
  - intros ls' Hp. unfold tally. symmetry. by apply fold_tally_perm.
Qed.

(** ** The host key and its two halves *)

Section HostKey.

Lemma host_key_split_aux (l : Listing) (k : string) :
  host_key l = Some k →
  ∃ h, host_id l = Some h ∧ h ≠ ""
       ∧ Py.contains_char ":" k = true
       ∧ Py.split_once ":" k = (platform l, h).
Proof.
  intros (h & Hh & Hne & Hp & ->)%host_key_Some. exists h.
  split; [done|]. split; [done|].
  destruct Hp as [-> | ->]; split; reflexivity.
Qed.

End HostKey.

(** X16. The host key can be taken apart again.  The key built at line 90
    from the platform and the host id of a listing contains a colon, and
    splitting it at its first colon, as line 198 does, gives back that
    platform and that host id.  Hence two listings with the same host key
    have the same platform and the same host id: hosts of different
    platforms never share a cluster. *)
Theorem host_key_round_trip (l : Listing) (k : string) :
  host_key l = Some k →
  ∃ h, host_id l = Some h ∧ h ≠ ""
       ∧ Py.contains_char ":" k = true
       ∧ Py.split_once ":" k = (platform l, h)
       ∧ ∀ l', host_key l' = Some k → platform l' = platform l ∧ host_id l' = Some h.
Proof.
  intros Hk. destruct (host_key_split_aux l k Hk) as (h & Hh & Hne & Hc & Hs).
  exists h. split_and!; try done.
  intros l' Hk'. destruct (host_key_split_aux l' k Hk') as (h' & Hh' & _ & _ & Hs').
  rewrite Hs in Hs'. injection Hs' as -> ->. done.
Qed.

(** ** A first run: one owner per cluster *)

Section FirstRun.

Context (env : Env) (Hnf : no_faults env).

(** The step of a group that finds no owner appends the group's row. *)
Lemma step_inserts g w seg :
  averaged g →
  group_existing g w = None →
  ∃ o, detected_owners (exit_world env g w ExitDone seg) = detected_owners w ++ [o]
       ∧ row_of_group o g.
Proof.
  intros Ha%averaged_Ok He. cbn [detected_owners exit_world exit_owners].
  unfold owners_scored, owners_written, group_owner_id. rewrite He.
  rewrite set_risk_app, (set_risk_absent _ _ (detected_owners w))
    by apply fresh_id_fresh.
  eexists. split; [done|]. cbn. rewrite decide_True by done.
  destruct (group_owner_data_aggregate env g w)
    as (H1 & H2 & H3 & H4 & H5 & H6 & H7 & H8 & H9 & H10 & H11).
  split.
  - unfold aggregates. cbn. rewrite H8, H9. split_and!; done.
  - cbn. destruct (match_type g) eqn:Hm.
    + by apply H11.
    + by rewrite (group_owner_data_host env g w Hm).
Qed.

Lemma group_existing_no_owner g w :
  (match_type g = phone_match →
   ∀ o, o ∈ detected_owners w → primary_phone o ≠ Some (identifier g)) →
  group_existing g w = None.
Proof.
  intros Hno. unfold group_existing, group_lookup.
  case_bool_decide as Hm; [|done].
  destruct (Py.truthy (identifier g)); [|done]. cbn [andb].
  apply head_owners_with_phone_None. by apply Hno.
Qed.

Lemma fold_inserts gs w st :
  groups_ok gs →
  (∀ o g, o ∈ detected_owners w → g ∈ phone_groups gs →
          primary_phone o ≠ Some (identifier g)) →
  let s' := fold_left (try_save_group env) gs (w, st) in
  ∃ rows,
    detected_owners (fst s') = detected_owners w ++ rows
    ∧ Forall2 row_of_group rows (filter averaged gs)
    ∧ new_owners (snd s') = new_owners st + length (filter averaged gs)
    ∧ updated_owners (snd s') = updated_owners st
    ∧ total_owners (snd s') = total_owners st + length (filter averaged gs).
Proof.
  revert w st. induction gs as [|g gs IH]; intros w st Hok Hno.
  - exists []. cbn. rewrite app_nil_r. split_and!; try done; lia.
  - cbn [fold_left]. rewrite filter_averaged_cons.
    destruct (groups_ok_cons g gs Hok) as [Hok' Hg].
    destruct (decide (averaged g)) as [Ha|Ha]; cycle 1.
    { rewrite (try_save_group_overflow env g w st Ha).
      apply (IH (eprint (error_line overflow_text) w) st Hok').
      intros o g' Ho Hg'. apply Hno; [done|].
      apply phone_groups_elem. apply phone_groups_elem in Hg' as [? ?].
      split; [by right|done]. }
    destruct (try_save_group_done env Hnf g w st Ha) as (seg & -> & _).
    assert (group_existing g w = None) as He.
    { apply group_existing_no_owner. intros Hm o Ho. apply Hno; [done|].
      apply phone_groups_elem. split; [left|done]. }
    destruct (step_inserts g w seg Ha He) as (o & Hos & Hrow).
    destruct (IH (exit_world env g w ExitDone seg) (exit_stats g w ExitDone st) Hok')
      as (rows & I1 & I2 & I3 & I4 & I5).
    { intros o' g' Ho' Hg'. rewrite Hos in Ho'.
      apply elem_of_app in Ho' as [Ho'|Ho'].
      - apply Hno; [done|]. apply phone_groups_elem.
        apply phone_groups_elem in Hg' as [? ?]. split; [by right|done].
      - apply list_elem_of_singleton in Ho' as ->. destruct Hrow as [_ ->].
        destruct (match_type g) eqn:Hm; [|done].
        intros [= Heq]. destruct (Hg eq_refl) as [_ Hothers].
        by apply (Hothers g' Hg'). }
    exists (o :: rows). rewrite I1, Hos, <- app_assoc. split; [done|].
    split; [by constructor|].
    rewrite I3, I4, I5. unfold exit_stats, bump_written. rewrite He.
    destruct (1 <? length (listings g)); cbn; split_and!; lia.
Qed.

Lemma sum_listing_counts rows gs :
  Forall2 row_of_group rows gs →
  sum_list (map listing_count rows) = length (member_ids gs).
Proof.
  induction 1 as [|o g rows gs [Hagg _] _ IH]; [done|].
  rewrite member_ids_cons, length_app, length_map. cbn. rewrite IH.
  by destruct Hagg as (_ & _ & _ & -> & _).
Qed.

Lemma member_ids_filter_le gs :
  length (member_ids (filter averaged gs)) ≤ length (member_ids gs).
Proof.
  induction gs as [|g gs IH]; [done|].
  rewrite filter_averaged_cons, member_ids_cons, length_app.
  case_decide; [rewrite member_ids_cons, length_app|]; lia.
Qed.

Lemma sum_take_le (f : Owner → nat) n os :
  sum_list (map f (take n os)) ≤ sum_list (map f os).
Proof.
  rewrite <- (take_drop n os) at 2. rewrite map_app, sum_list_with_app. lia.
Qed.

Lemma sum_top_owners_le os :
  sum_list (map listing_count (top_owners os)) ≤ sum_list (map listing_count os).
Proof.
  unfold top_owners. etrans; [apply sum_take_le|].
  by rewrite (merge_sort_Permutation by_risk_desc os).
Qed.

Lemma member_ids_length_le ls :
  NoDup (map listing_id ls) →
  length (member_ids (build_owner_groups ls)) ≤ length ls.
Proof.
  intros Hnd. rewrite <- (length_map listing_id ls). apply submseteq_length.
  apply NoDup_submseteq.
  - rewrite build_member_ids.
    by destruct (build_owner_groups_spec ls Hnd) as [? _].
  - intros x Hx. unfold member_ids in Hx.
    apply elem_of_concat in Hx as (ids & Hx & Hids).
    apply list_elem_of_fmap in Hids as (g & -> & Hg).
    destruct (build_owner_groups_members ls g Hg) as (_ & _ & Hsub & _).
    eapply elem_of_sublist; [exact Hx|]. by apply (fmap_sublist listing_id).
Qed.

Lemma coverage_rate_le_1 os n :
  sum_list (map listing_count os) ≤ n → (coverage_rate os n <= 1)%Q.
Proof.
  intros Hle. unfold coverage_rate. destruct n as [|n]; [done|].
  apply Qle_shift_div_r.
  - change 0%Q with (inject_Z 0). rewrite <- Zlt_Qlt. lia.
  - rewrite Qmult_1_l. rewrite <- Zle_Qle. lia.
Qed.

End FirstRun.

(** X17. A first run without failures, on a store without owners.  The run
    leaves one owner row per cluster whose average price is computed (the
    division of line 176 does not overflow), in cluster order, and none for
    the other clusters; each row carries the aggregate of its cluster and,
    for a phone cluster, the phone as [primary_phone] (none for a host-id
    cluster).  It counts each of these clusters as new and none as updated.
    When no division overflows, these are all the clusters.  If moreover
    the active listings have distinct ids, a report made after the run has a
    coverage rate of at most 1. *)
Theorem first_run_one_owner_per_cluster (env : Env) (w : World) :
  no_faults env → detected_owners w = [] →
  let gs := build_owner_groups (active_listings w) in
  Forall2 row_of_group (detected_owners (run env w)) (filter averaged gs)
  ∧ (∃ s, snd (detect_owners env w) = Ok s
          ∧ new_owners s = length (filter averaged gs) ∧ updated_owners s = 0
          ∧ total_owners s = length (filter averaged gs))
  ∧ (Forall averaged gs → filter averaged gs = gs)
  ∧ (NoDup (map listing_id (active_listings w)) →
     ∀ env' r, generate_owner_report env' (run env w) = Ok r →
               (rep_coverage_rate r <= 1)%Q).
Proof.
  intros Hnf Hempty gs.
  assert (∃ w0, detect_owners env w
                = (fst (save_owners_to_db env gs w0), Ok (snd (save_owners_to_db env gs w0)))
                ∧ detected_owners w0 = []) as (w0 & Hrun & Hw0).
  { rewrite detect_owners_unfold, Hnf. cbn zeta. eexists. split; [done|]. done. }
  destruct (fold_inserts env Hnf gs w0 zero_stats) as (rows & H1 & H2 & H3 & H4 & H5).
  { apply build_owner_groups_ok. }
  { intros o g Ho. rewrite Hw0 in Ho. by apply elem_of_nil in Ho. }
  fold (save_owners_to_db env gs w0) in H1, H3, H4, H5.
  rewrite Hw0 in H1. cbn [app] in H1.
  assert (detected_owners (run env w) = rows) as Hrows.
  { unfold run. by rewrite Hrun. }
  split_and!.
  - by rewrite Hrows.
  - rewrite Hrun. cbn [snd]. eexists. split; [done|]. cbn in H3, H5. done.
  - apply filter_averaged_all.
  - intros Hnd env' r ->%generate_owner_report_Ok.
    cbn [rep_coverage_rate report_of]. apply coverage_rate_le_1.
    rewrite Hrows. etrans; [apply sum_top_owners_le|].
    rewrite (sum_listing_counts rows _ H2).
    etrans; [apply member_ids_filter_le|].
    rewrite (active_listings_run env w). by apply member_ids_length_le.
Qed.

(** ** The further properties on sample data *)

(** Witness of X1. *)
Lemma normalize_phone_idempotent_witness :
  normalize_phone "077 123 45 67" = Some "+221771234567"
  ∧ normalize_phone "+221771234567" = Some "+221771234567"
  ∧ Py.len "+221771234567" = 13.
Proof.
  assert (normalize_phone "077 123 45 67" = Some "+221771234567") as H by reflexivity.
  split; [exact H|].
  destruct (normalize_phone_idempotent "077 123 45 67" "+221771234567" H)
    as (H1 & H2 & _).
  split; [exact H1|exact H2].
Defined.

(** Witness of X2: a space inside a number. *)
Lemma normalize_phone_ignores_formatting_witness :
  Py.isdigit " " = false
  ∧ normalize_phone "77 1234567" = normalize_phone "771234567".
Proof.
  assert (Py.isdigit " " = false) as H by reflexivity.
  split; [exact H|].
  exact (normalize_phone_ignores_formatting "77" "1234567" " " H).
Defined.

(** Witness of X3. *)
Lemma normalize_phone_spellings_witness :
  Spec.acceptable (Spec.chars "771234567")
  ∧ normalize_phone "00221771234567" = Some "+221771234567"
  ∧ normalize_phone "0221771234567" = None.
Proof.
  assert (Spec.acceptable (Spec.chars "771234567")) as H
    by (apply (bool_decide_unpack _); vm_compute; exact I).
  split; [exact H|].
  destruct (normalize_phone_spellings "771234567" H) as (_ & _ & _ & _ & H5 & H6 & _).
  split; [exact H5|exact H6].
Defined.

(** Witness of X4: the second field of [C] is the one that is taken. *)
Lemma extract_phone_from_listing_sound_witness :
  extract_phone_from_listing Sample.C = Some "+221771234567"
  ∧ normalize_phone "+221771234567" = Some "+221771234567"
  ∧ ∃ s, Some s ∈ phone_fields (raw_data_or_empty Sample.C)
         ∧ normalize_phone s = Some "+221771234567".
Proof.
  assert (extract_phone_from_listing Sample.C = Some "+221771234567") as H
    by reflexivity.
  split; [exact H|].
  exact (proj1 extract_phone_from_listing_sound Sample.C "+221771234567" H).
Defined.

(** Witness of X5. *)
Lemma analysis_key_agrees_with_normalizer_witness :
  normalize_phone "+221771111111" = Some "+221771111111"
  ∧ extract_phone_from_listing Sample.A = Some "+221771111111"
  ∧ analysis_key_of_listing Sample.A = Some "771111111".
Proof.
  assert (normalize_phone "+221771111111" = Some "+221771111111") as H by reflexivity.
  split; [exact H|].
  exact (proj2 analysis_key_agrees_with_normalizer Sample.A
           "+221771111111" "+221771111111" eq_refl H).
Defined.

(** Witness of X6. *)
Lemma build_owner_groups_well_formed_witness :
  Sample.gB ∈ build_owner_groups [Sample.A; Sample.B]
  ∧ listings Sample.gB `sublist_of` [Sample.A; Sample.B]
  ∧ Forall (λ l, host_key l = Some "airbnb:h1") (listings Sample.gB).
Proof.
  assert (Sample.gB ∈ build_owner_groups [Sample.A; Sample.B]) as H.
  { assert (build_owner_groups [Sample.A; Sample.B] = [Sample.gA; Sample.gB]) as ->
      by (vm_compute; reflexivity).
    right. left. }
  split; [exact H|].
  destruct (build_owner_groups_well_formed [Sample.A; Sample.B] Sample.gB H)
    as (_ & _ & H3 & H4).
  split; [exact H3|exact H4].
Defined.

(** Witness of X7: [B] has no phone and is filed under its host key. *)
Lemma every_signal_is_clustered_witness :
  Sample.B ∈ [Sample.A; Sample.B]
  ∧ NoDup (map listing_id [Sample.A; Sample.B])
  ∧ ∃ g, g ∈ build_owner_groups [Sample.A; Sample.B]
         ∧ match_type g = host_id_match
         ∧ identifier g = "airbnb:h1" ∧ Sample.B ∈ listings g.
Proof.
  assert (Sample.B ∈ [Sample.A; Sample.B]) as Hin by (right; left).
  assert (NoDup (map listing_id [Sample.A; Sample.B])) as Hnd
    by (apply (bool_decide_unpack _); vm_compute; exact I).
  split; [exact Hin|]. split; [exact Hnd|].
  exact (proj1 (proj2 (every_signal_is_clustered [Sample.A; Sample.B] Sample.B Hin))
           Hnd eq_refl "airbnb:h1" eq_refl).
Defined.

(** Witness of X8. *)
Lemma cluster_contents_witness :
  Sample.gB ∈ build_owner_groups [Sample.A; Sample.B]
  ∧ NoDup (map listing_id [Sample.A; Sample.B])
  ∧ listings Sample.gB
    = filter (λ l, host_key l = Some "airbnb:h1" ∧ extract_phone_from_listing l = None)
        [Sample.A; Sample.B].
Proof.
  assert (Sample.gB ∈ build_owner_groups [Sample.A; Sample.B]) as H.
  { assert (build_owner_groups [Sample.A; Sample.B] = [Sample.gA; Sample.gB]) as ->
      by (vm_compute; reflexivity).
    right. left. }
  assert (NoDup (map listing_id [Sample.A; Sample.B])) as Hnd
    by (apply (bool_decide_unpack _); vm_compute; exact I).
  split; [exact H|]. split; [exact Hnd|].
  exact (cluster_contents [Sample.A; Sample.B] Sample.gB H Hnd).
Defined.

(** Witness of X9: the third store call times out. *)
Lemma store_constraints_survive_failures_witness :
  wf_store (Sample.world [Sample.A; Sample.B])
  ∧ wf_store (run Sample.flaky (Sample.world [Sample.A; Sample.B])).
Proof.
  assert (wf_store (Sample.world [Sample.A; Sample.B])) as H.
  { split; [constructor|]. split; [constructor|]. intros r []%elem_of_nil. }
  split; [exact H|].
  exact (proj2 (proj2 (store_constraints_survive_failures Sample.flaky
                         [Sample.gA; Sample.gB]
                         (Sample.world [Sample.A; Sample.B]))) H).
Defined.

(** Witness of X10. *)
Lemma saved_group_is_linked_witness :
  snd (save_group Sample.steady Sample.gA (Sample.world [Sample.A], zero_stats)) = Ok ()
  ∧ total_owners
      (snd (fst (save_group Sample.steady Sample.gA
                   (Sample.world [Sample.A], zero_stats)))) = 1.
Proof.
  assert (snd (save_group Sample.steady Sample.gA (Sample.world [Sample.A], zero_stats))
          = Ok ()) as H by (vm_compute; reflexivity).
  split; [exact H|].
  exact (proj1 (proj2 (saved_group_is_linked Sample.steady Sample.gA
                         (Sample.world [Sample.A]) zero_stats H))).
Defined.

(** Witness of X11: the store is down. *)
Lemma outage_writes_nothing_witness :
  let down := {| fails := λ _, Some "down"; now := λ n, Z.of_nat n;
                 risk := λ _ _ _, 0%Z |} in
  (∀ n, is_Some (fails down n))
  ∧ snd (save_owners_to_db down [Sample.gA; Sample.gB]
           (Sample.world [Sample.A; Sample.B])) = zero_stats
  ∧ detected_owners (fst (save_owners_to_db down [Sample.gA; Sample.gB]
                            (Sample.world [Sample.A; Sample.B]))) = []
  ∧ length (calls (fst (save_owners_to_db down [Sample.gA; Sample.gB]
                          (Sample.world [Sample.A; Sample.B]))))
    = length (calls (Sample.world [Sample.A; Sample.B])) + 2.
Proof.
  intros down.
  assert (∀ n, is_Some (fails down n)) as H by (intros n; by exists "down").
  split; [exact H|].
  destruct (proj2 (outage_writes_nothing down) H [Sample.gA; Sample.gB]
              (Sample.world [Sample.A; Sample.B])) as (H1 & _ & H3 & _ & H5).
  split; [exact H3|]. split; [exact H1|exact H5].
Defined.

(** Witness of X12: the report after one run over [A] and [B]. *)
Lemma report_counts_witness :
  let w := run Sample.steady (Sample.world [Sample.A; Sample.B]) in
  let r := report_of (top_owners (detected_owners w)) (length (active_listings w)) in
  generate_owner_report Sample.steady w = Ok r
  ∧ rep_total_owners r = 100 `min` length (detected_owners w)
  ∧ rep_high_risk_owners r ≤ rep_total_owners r.
Proof.
  intros w r.
  assert (generate_owner_report Sample.steady w = Ok r) as H by reflexivity.
  split; [exact H|].
  destruct (report_counts Sample.steady w r H) as (H1 & _ & H3 & _).
  split; [exact H1|exact H3].
Defined.

(** Witness of X13. *)
Lemma report_ranking_witness :
  let w := run Sample.steady (Sample.world [Sample.A; Sample.B]) in
  let r := report_of (top_owners (detected_owners w)) (length (active_listings w)) in
  generate_owner_report Sample.steady w = Ok r
  ∧ rep_high_risk_owners r
    = 100 `min` length (filter (λ o, (50 ≤ risk_score o)%Z) (detected_owners w)).
Proof.
  intros w r.
  assert (generate_owner_report Sample.steady w = Ok r) as H by reflexivity.
  split; [exact H|].
  exact (proj1 (proj2 (report_ranking Sample.steady w r H))).
Defined.

(** Witness of X14: [A] after one run over [A] and [B]. *)
Lemma run_resolves_every_signal_witness :
  let w := Sample.world [Sample.A; Sample.B] in
  let cluster := filter (λ x, extract_phone_from_listing x = Some "+221771111111")
                   (active_listings w) in
  no_faults Sample.steady ∧ wf_store w
  ∧ NoDup (map listing_id (active_listings w))
  ∧ Sample.A ∈ active_listings w
  ∧ is_ok (avg_price (tally cluster)) = true
  ∧ ∃ o, owner_by_phone "+221771111111" (detected_owners (run Sample.steady w)) = Some o
         ∧ aggregates o cluster
         ∧ link_data (o_id o) Sample.A phone_match
           ∈ owner_listings (run Sample.steady w)
         ∧ confidence (link_data (o_id o) Sample.A phone_match) = 1%Q.
Proof.
  intros w cluster.
  assert (no_faults Sample.steady) as Hnf by (intros n; reflexivity).
  assert (wf_store w) as Hwf.
  { split; [constructor|]. split; [constructor|]. intros r []%elem_of_nil. }
  assert (NoDup (map listing_id (active_listings w))) as Hnd
    by (apply (bool_decide_unpack _); vm_compute; exact I).
  assert (Sample.A ∈ active_listings w) as Hin by left.
  assert (is_ok (avg_price (tally cluster)) = true) as Hav by reflexivity.
  split; [exact Hnf|]. split; [exact Hwf|]. split; [exact Hnd|]. split; [exact Hin|].
  split; [exact Hav|].
  exact (proj1 (run_resolves_every_signal Sample.steady w Sample.A Hnf Hwf Hnd Hin)
           "+221771111111" eq_refl Hav).
Defined.

(** Witness of X15: two listings in either order. *)
Lemma aggregate_sets_and_order_witness :
  [Sample.P1; Sample.P2] ≡ₚ [Sample.P2; Sample.P1]
  ∧ tally [Sample.P2; Sample.P1] = tally [Sample.P1; Sample.P2].
Proof.
  assert ([Sample.P1; Sample.P2] ≡ₚ [Sample.P2; Sample.P1]) as H by apply perm_swap.
  split; [exact H|].
  exact (proj2 (proj2 (proj2 (proj2 (aggregate_sets_and_order [Sample.P1; Sample.P2]))))
           [Sample.P2; Sample.P1] H).
Defined.

(** Witness of X16. *)
Lemma host_key_round_trip_witness :
  host_key Sample.B = Some "airbnb:h1"
  ∧ ∃ h, host_id Sample.B = Some h ∧ h ≠ ""
         ∧ Py.contains_char ":" "airbnb:h1" = true
         ∧ Py.split_once ":" "airbnb:h1" = (platform Sample.B, h)
         ∧ ∀ l', host_key l' = Some "airbnb:h1" →
                 platform l' = platform Sample.B ∧ host_id l' = Some h.
Proof.
  assert (host_key Sample.B = Some "airbnb:h1") as H by reflexivity.
  split; [exact H|].
  exact (host_key_round_trip Sample.B "airbnb:h1" H).
Defined.

(** Witness of X17: a first run over [A] and [B]. *)
Lemma first_run_one_owner_per_cluster_witness :
  let w := Sample.world [Sample.A; Sample.B] in
  no_faults Sample.steady ∧ detected_owners w = []
  ∧ Forall2 row_of_group (detected_owners (run Sample.steady w))
      (filter averaged (build_owner_groups (active_listings w)))
  ∧ ∃ s, snd (detect_owners Sample.steady w) = Ok s
         ∧ new_owners s = length (filter averaged (build_owner_groups (active_listings w)))
         ∧ updated_owners s = 0
         ∧ total_owners s
           = length (filter averaged (build_owner_groups (active_listings w))).
Proof.
  intros w.
  assert (no_faults Sample.steady) as Hnf by (intros n; reflexivity).
  assert (detected_owners w = []) as He by reflexivity.
  split; [exact Hnf|]. split; [exact He|].
  destruct (first_run_one_owner_per_cluster Sample.steady w Hnf He) as (H1 & H2 & _).
  split; [exact H1|exact H2].
Defined.
